(** * Laser odometry of loam_velodyne: a shallow embedding of
      [src/lib/BasicLaserOdometry.cpp]

    The C++ engine works on [float] (IEEE 754 binary32) values, [int] indices
    and PCL point clouds.  The embedding keeps those data: binary32 numbers are
    [spec_float] values of the Standard Library's [SpecFloat] at precision 24,
    with their rounding, signed zeros, infinities and NaN; indices are [Z];
    clouds are lists of points read by position; a read outside a vector is a
    fault of its own, not a default value. *)

From Stdlib Require Import ZArith List Bool Lia.
From Stdlib Require Import Floats.SpecFloat.
Import ListNotations.

Set Implicit Arguments.
Local Open Scope Z_scope.

(** ** Binary32 arithmetic *)

Module F32.

Definition prec : Z := 24.
Definition emax : Z := 128.

Definition float : Type := spec_float.

Definition add : float -> float -> float := SFadd prec emax.
Definition sub : float -> float -> float := SFsub prec emax.
Definition mul : float -> float -> float := SFmul prec emax.
Definition div : float -> float -> float := SFdiv prec emax.
Definition sqrt : float -> float := SFsqrt prec emax.
Definition opp : float -> float := SFopp.
Definition fabs : float -> float := SFabs.

Definition ltb : float -> float -> bool := SFltb.
Definition leb : float -> float -> bool := SFleb.
Definition eqb : float -> float -> bool := SFeqb.
(** [a > b] and [a >= b] of C++ are [b < a] and [b <= a]: both are false as
    soon as one side is NaN. *)
Definition gtb (a b : float) : bool := SFltb b a.
Definition geb (a b : float) : bool := SFleb b a.

(** [std::isfinite]. *)
Definition isfinite (x : float) : bool :=
  match x with
  | S754_zero _ | S754_finite _ _ _ => true
  | S754_infinity _ | S754_nan => false
  end.

(** [std::isnan]. *)
Definition isnan (x : float) : bool :=
  match x with S754_nan => true | _ => false end.

Definition zero : float := S754_zero false.
Definition nan : float := S754_nan.

(** Conversion of an [int] to [float] (round to nearest, ties to even). *)
Definition of_Z (n : Z) : float := binary_normalize prec emax n 0 false.

(** A decimal literal [p/q] with [p] and [q] exactly representable: the
    correctly rounded quotient is the literal's value. *)
Definition lit (p q : Z) : float := div (of_Z p) (of_Z q).

Definition INT_MIN : Z := - 2 ^ 31.
Definition INT_MAX : Z := 2 ^ 31 - 1.

(** The integer obtained by discarding the fractional part. *)
Definition trunc (x : float) : Z :=
  match x with
  | S754_finite s m e =>
      cond_Zopp s
        (match e with
         | Zneg p => Z.shiftr (Zpos m) (Zpos p)
         | _ => Z.shiftl (Zpos m) e
         end)
  | _ => 0
  end.

(** [static_cast<int>(x)].  C++ defines it only when the truncated value
    fits an [int]; elsewhere (NaN, infinities, overflow) the x86 conversion
    instruction delivers [INT_MIN], which is what is modelled. *)
Definition static_cast_int (x : float) : Z :=
  match x with
  | S754_nan | S754_infinity _ => INT_MIN
  | _ =>
      let t := trunc x in
      if (INT_MIN <=? t) && (t <=? INT_MAX) then t else INT_MIN
  end.

End F32.

(** Binary64, for the [double] expressions of the solver. *)
Module F64.
Definition prec : Z := 53.
Definition emax : Z := 1024.
Definition add : spec_float -> spec_float -> spec_float := SFadd prec emax.
Definition mul : spec_float -> spec_float -> spec_float := SFmul prec emax.
Definition div : spec_float -> spec_float -> spec_float := SFdiv prec emax.
Definition sqrt : spec_float -> spec_float := SFsqrt prec emax.
Definition of_Z (n : Z) : spec_float := binary_normalize prec emax n 0 false.
Definition lit (p q : Z) : spec_float := div (of_Z p) (of_Z q).
(** A binary32 value is a binary64 value: widening is exact. *)
Definition of_float (x : F32.float) : spec_float := x.
(** Narrowing rounds to nearest even. *)
Definition to_float (x : spec_float) : F32.float :=
  match x with
  | S754_finite s m e => binary_round F32.prec F32.emax s m e
  | _ => x
  end.
End F64.

Definition float : Type := F32.float.

Declare Scope f32_scope.
Delimit Scope f32_scope with f32.
Infix "+" := F32.add : f32_scope.
Infix "-" := F32.sub : f32_scope.
Infix "*" := F32.mul : f32_scope.
Infix "/" := F32.div : f32_scope.
Notation "- x" := (F32.opp x) : f32_scope.
Infix "<?" := F32.ltb : f32_scope.
Infix "<=?" := F32.leb : f32_scope.
Infix ">?" := F32.gtb : f32_scope.
Infix ">=?" := F32.geb : f32_scope.
Infix "=?" := F32.eqb : f32_scope.

(** The literals of the source. *)
Definition f_1_0 : float := F32.of_Z 1.          (* 1.0f *)
Definition f_0_1 : float := F32.lit 1 10.        (* 0.1f *)
Definition f_1_8 : float := F32.lit 18 10.       (* 1.8f *)
Definition f_2_5 : float := F32.lit 5 2.         (* 2.5f *)
Definition f_25_0 : float := F32.of_Z 25.        (* 25.0f *)
Definition f_1_05 : float := F32.lit 105 100.    (* 1.05f *)
Definition f_10 : float := F32.of_Z 10.          (* the eigenvalue threshold *)
Definition f_100 : float := F32.of_Z 100.
Definition d_0_05 : spec_float := F64.lit 5 100. (* 0.05, a double *)

(** ** Data model *)

(** [pcl::PointXYZI]. *)
Record PointXYZI : Type := mkPoint {
  px : float;
  py : float;
  pz : float;
  intensity : float
}.

(** [Vector3], and [pcl::PointXYZ] where only the coordinates are read. *)
Record Vector3 : Type := mkVec {
  vx : float;
  vy : float;
  vz : float
}.

(** [Eigen::Matrix3f], by rows. *)
Record Matrix3f : Type := mkMat3 {
  row0 : Vector3;
  row1 : Vector3;
  row2 : Vector3
}.

(** Modelled from the spec: [Angle.h] is not among the sources.  An Angle is
    a radian value with its cached cosine and sine, consistent with the radian
    value whenever it is built from one; the default Angle is zero. *)
Record Angle : Type := mkAngle {
  rad : float;
  cos : float;
  sin : float
}.

(** Modelled from the spec: [Transform.hpp] is not among the sources.  Three
    Angles and a translation. *)
Record Transform : Type := mkTransform {
  rot_x : Angle;
  rot_y : Angle;
  rot_z : Angle;
  pos : Vector3
}.

Definition cloud : Type := list PointXYZI.

(** [Eigen::Matrix<float, 6, 1>] and [Eigen::Matrix<float, 6, 6>] (by rows). *)
Definition Vector6f : Type := list float.
Definition Matrix6f : Type := list (list float).

(** ** What the file calls and does not define

    [<cmath>], [math_utils.h], PCL and Eigen are outside the sources.  Their
    functions are the fields of one record, over which the whole embedding is
    parametrised; nothing is assumed of them except where a theorem says so. *)
Record Externals : Type := mkExternals {
  (* <cmath>, float overloads *)
  sinf : float -> float;
  cosf : float -> float;
  (* math_utils.h: single-axis rotations of a position *)
  rotX : Vector3 -> Angle -> Vector3;
  rotY : Vector3 -> Angle -> Vector3;
  rotZ : Vector3 -> Angle -> Vector3;
  (* math_utils.h: distances *)
  calcSquaredDiff : PointXYZI -> PointXYZI -> float;
  calcPointDistance : PointXYZI -> float;
  rad2deg : float -> float;
  (* math_utils.h: rotation matrices, their partial derivatives, Euler angles *)
  rotationMatrixZXY : float -> float -> float -> Matrix3f;
  rotationMatrixYXZT : float -> float -> float -> Matrix3f;
  partialXFromRotationYXZT : float -> float -> float -> Matrix3f;
  partialYFromRotationYXZT : float -> float -> float -> Matrix3f;
  partialZFromRotationYXZT : float -> float -> float -> Matrix3f;
  eulerAnglesFromRotationZXY : Matrix3f -> float * float * float;
  (* PCL: the nearest neighbour (k = 1) of a query in the cloud a k-d tree was
     built on, as (index, squared distance); the filter of non-finite points *)
  nearestKSearch : cloud -> PointXYZI -> Z * float;
  removeNaNFromPointCloud : cloud -> cloud;
  (* Eigen: products and norm of 3-vectors, products of 3x3 matrices *)
  cross3 : Vector3 -> Vector3 -> Vector3;
  dot3 : Vector3 -> Vector3 -> float;
  norm3 : Vector3 -> float;
  mul33 : Matrix3f -> Matrix3f -> Matrix3f;
  mul3v : Matrix3f -> Vector3 -> Vector3;
  (* Eigen: the normal equations of a list of rows, the rank-revealing QR
     solve, the self-adjoint eigendecomposition (eigenvalues, eigenvectors),
     the inverse and the products of 6x6 matrices *)
  normalMatrix : list (list float) -> Matrix6f;
  normalVector : list (list float) -> list float -> Vector6f;
  colPivHouseholderQrSolve : Matrix6f -> Vector6f -> Vector6f;
  selfAdjointEigenSolver : Matrix6f -> list float * Matrix6f;
  inverse6 : Matrix6f -> Matrix6f;
  mul66 : Matrix6f -> Matrix6f -> Matrix6f;
  mul6v : Matrix6f -> Vector6f -> Vector6f
}.

(** The IMU summary of one sweep. *)
Record ImuState : Type := mkImu {
  imuPitchStart : Angle;
  imuYawStart : Angle;
  imuRollStart : Angle;
  imuPitchEnd : Angle;
  imuYawEnd : Angle;
  imuRollEnd : Angle;
  imuShiftFromStart : Vector3;
  imuVeloFromStart : Vector3
}.

(** The correspondences of the current sweep: for feature point [i], indices
    into the reference clouds, [-1] where none was found. *)
Record Correspondences : Type := mkCorr {
  pointSearchCornerInd1 : list Z;
  pointSearchCornerInd2 : list Z;
  pointSearchSurfInd1 : list Z;
  pointSearchSurfInd2 : list Z;
  pointSearchSurfInd3 : list Z
}.

(** The members of [BasicLaserOdometry].  A [pcl::KdTreeFLANN] is the cloud it
    was last given by [setInputCloud]. *)
Record BasicLaserOdometry : Type := mkEngine {
  scanPeriod : float;
  systemInited : bool;
  frameCount : Z;
  maxIterations : nat;
  deltaTAbort : float;
  deltaRAbort : float;
  transform : Transform;
  transformSum : Transform;
  imu : ImuState;
  cornerPointsSharp : cloud;
  cornerPointsLessSharp : cloud;
  surfPointsFlat : cloud;
  surfPointsLessFlat : cloud;
  laserCloud : cloud;
  lastCornerCloud : cloud;
  lastSurfaceCloud : cloud;
  laserCloudOri : cloud;
  coeffSel : cloud;
  lastCornerKDTree : cloud;
  lastSurfaceKDTree : cloud;
  corr : Correspondences
}.

(** Assignments to one member. *)

Definition set_systemInited (e : BasicLaserOdometry) (v : bool) :
    BasicLaserOdometry :=
  mkEngine (scanPeriod e) v (frameCount e) (maxIterations e) (deltaTAbort e)
    (deltaRAbort e) (transform e) (transformSum e) (imu e)
    (cornerPointsSharp e) (cornerPointsLessSharp e) (surfPointsFlat e)
    (surfPointsLessFlat e) (laserCloud e) (lastCornerCloud e)
    (lastSurfaceCloud e) (laserCloudOri e) (coeffSel e) (lastCornerKDTree e)
    (lastSurfaceKDTree e) (corr e).

Definition set_frameCount (e : BasicLaserOdometry) (v : Z) :
    BasicLaserOdometry :=
  mkEngine (scanPeriod e) (systemInited e) v (maxIterations e) (deltaTAbort
    e) (deltaRAbort e) (transform e) (transformSum e) (imu e)
    (cornerPointsSharp e) (cornerPointsLessSharp e) (surfPointsFlat e)
    (surfPointsLessFlat e) (laserCloud e) (lastCornerCloud e)
    (lastSurfaceCloud e) (laserCloudOri e) (coeffSel e) (lastCornerKDTree e)
    (lastSurfaceKDTree e) (corr e).

Definition set_transform (e : BasicLaserOdometry) (v : Transform) :
    BasicLaserOdometry :=
  mkEngine (scanPeriod e) (systemInited e) (frameCount e) (maxIterations e)
    (deltaTAbort e) (deltaRAbort e) v (transformSum e) (imu e)
    (cornerPointsSharp e) (cornerPointsLessSharp e) (surfPointsFlat e)
    (surfPointsLessFlat e) (laserCloud e) (lastCornerCloud e)
    (lastSurfaceCloud e) (laserCloudOri e) (coeffSel e) (lastCornerKDTree e)
    (lastSurfaceKDTree e) (corr e).

Definition set_transformSum (e : BasicLaserOdometry) (v : Transform) :
    BasicLaserOdometry :=
  mkEngine (scanPeriod e) (systemInited e) (frameCount e) (maxIterations e)
    (deltaTAbort e) (deltaRAbort e) (transform e) v (imu e)
    (cornerPointsSharp e) (cornerPointsLessSharp e) (surfPointsFlat e)
    (surfPointsLessFlat e) (laserCloud e) (lastCornerCloud e)
    (lastSurfaceCloud e) (laserCloudOri e) (coeffSel e) (lastCornerKDTree e)
    (lastSurfaceKDTree e) (corr e).

Definition set_imu (e : BasicLaserOdometry) (v : ImuState) :
    BasicLaserOdometry :=
  mkEngine (scanPeriod e) (systemInited e) (frameCount e) (maxIterations e)
    (deltaTAbort e) (deltaRAbort e) (transform e) (transformSum e) v
    (cornerPointsSharp e) (cornerPointsLessSharp e) (surfPointsFlat e)
    (surfPointsLessFlat e) (laserCloud e) (lastCornerCloud e)
    (lastSurfaceCloud e) (laserCloudOri e) (coeffSel e) (lastCornerKDTree e)
    (lastSurfaceKDTree e) (corr e).

Definition set_cornerPointsSharp (e : BasicLaserOdometry) (v : cloud) :
    BasicLaserOdometry :=
  mkEngine (scanPeriod e) (systemInited e) (frameCount e) (maxIterations e)
    (deltaTAbort e) (deltaRAbort e) (transform e) (transformSum e) (imu e) v
    (cornerPointsLessSharp e) (surfPointsFlat e) (surfPointsLessFlat e)
    (laserCloud e) (lastCornerCloud e) (lastSurfaceCloud e) (laserCloudOri
    e) (coeffSel e) (lastCornerKDTree e) (lastSurfaceKDTree e) (corr e).

Definition set_cornerPointsLessSharp (e : BasicLaserOdometry) (v : cloud) :
    BasicLaserOdometry :=
  mkEngine (scanPeriod e) (systemInited e) (frameCount e) (maxIterations e)
    (deltaTAbort e) (deltaRAbort e) (transform e) (transformSum e) (imu e)
    (cornerPointsSharp e) v (surfPointsFlat e) (surfPointsLessFlat e)
    (laserCloud e) (lastCornerCloud e) (lastSurfaceCloud e) (laserCloudOri
    e) (coeffSel e) (lastCornerKDTree e) (lastSurfaceKDTree e) (corr e).

Definition set_surfPointsFlat (e : BasicLaserOdometry) (v : cloud) :
    BasicLaserOdometry :=
  mkEngine (scanPeriod e) (systemInited e) (frameCount e) (maxIterations e)
    (deltaTAbort e) (deltaRAbort e) (transform e) (transformSum e) (imu e)
    (cornerPointsSharp e) (cornerPointsLessSharp e) v (surfPointsLessFlat e)
    (laserCloud e) (lastCornerCloud e) (lastSurfaceCloud e) (laserCloudOri
    e) (coeffSel e) (lastCornerKDTree e) (lastSurfaceKDTree e) (corr e).

Definition set_surfPointsLessFlat (e : BasicLaserOdometry) (v : cloud) :
    BasicLaserOdometry :=
  mkEngine (scanPeriod e) (systemInited e) (frameCount e) (maxIterations e)
    (deltaTAbort e) (deltaRAbort e) (transform e) (transformSum e) (imu e)
    (cornerPointsSharp e) (cornerPointsLessSharp e) (surfPointsFlat e) v
    (laserCloud e) (lastCornerCloud e) (lastSurfaceCloud e) (laserCloudOri
    e) (coeffSel e) (lastCornerKDTree e) (lastSurfaceKDTree e) (corr e).

Definition set_lastCornerCloud (e : BasicLaserOdometry) (v : cloud) :
    BasicLaserOdometry :=
  mkEngine (scanPeriod e) (systemInited e) (frameCount e) (maxIterations e)
    (deltaTAbort e) (deltaRAbort e) (transform e) (transformSum e) (imu e)
    (cornerPointsSharp e) (cornerPointsLessSharp e) (surfPointsFlat e)
    (surfPointsLessFlat e) (laserCloud e) v (lastSurfaceCloud e)
    (laserCloudOri e) (coeffSel e) (lastCornerKDTree e) (lastSurfaceKDTree
    e) (corr e).

Definition set_lastSurfaceCloud (e : BasicLaserOdometry) (v : cloud) :
    BasicLaserOdometry :=
  mkEngine (scanPeriod e) (systemInited e) (frameCount e) (maxIterations e)
    (deltaTAbort e) (deltaRAbort e) (transform e) (transformSum e) (imu e)
    (cornerPointsSharp e) (cornerPointsLessSharp e) (surfPointsFlat e)
    (surfPointsLessFlat e) (laserCloud e) (lastCornerCloud e) v
    (laserCloudOri e) (coeffSel e) (lastCornerKDTree e) (lastSurfaceKDTree
    e) (corr e).

Definition set_laserCloudOri (e : BasicLaserOdometry) (v : cloud) :
    BasicLaserOdometry :=
  mkEngine (scanPeriod e) (systemInited e) (frameCount e) (maxIterations e)
    (deltaTAbort e) (deltaRAbort e) (transform e) (transformSum e) (imu e)
    (cornerPointsSharp e) (cornerPointsLessSharp e) (surfPointsFlat e)
    (surfPointsLessFlat e) (laserCloud e) (lastCornerCloud e)
    (lastSurfaceCloud e) v (coeffSel e) (lastCornerKDTree e)
    (lastSurfaceKDTree e) (corr e).

Definition set_coeffSel (e : BasicLaserOdometry) (v : cloud) :
    BasicLaserOdometry :=
  mkEngine (scanPeriod e) (systemInited e) (frameCount e) (maxIterations e)
    (deltaTAbort e) (deltaRAbort e) (transform e) (transformSum e) (imu e)
    (cornerPointsSharp e) (cornerPointsLessSharp e) (surfPointsFlat e)
    (surfPointsLessFlat e) (laserCloud e) (lastCornerCloud e)
    (lastSurfaceCloud e) (laserCloudOri e) v (lastCornerKDTree e)
    (lastSurfaceKDTree e) (corr e).

Definition set_lastCornerKDTree (e : BasicLaserOdometry) (v : cloud) :
    BasicLaserOdometry :=
  mkEngine (scanPeriod e) (systemInited e) (frameCount e) (maxIterations e)
    (deltaTAbort e) (deltaRAbort e) (transform e) (transformSum e) (imu e)
    (cornerPointsSharp e) (cornerPointsLessSharp e) (surfPointsFlat e)
    (surfPointsLessFlat e) (laserCloud e) (lastCornerCloud e)
    (lastSurfaceCloud e) (laserCloudOri e) (coeffSel e) v (lastSurfaceKDTree
    e) (corr e).

Definition set_lastSurfaceKDTree (e : BasicLaserOdometry) (v : cloud) :
    BasicLaserOdometry :=
  mkEngine (scanPeriod e) (systemInited e) (frameCount e) (maxIterations e)
    (deltaTAbort e) (deltaRAbort e) (transform e) (transformSum e) (imu e)
    (cornerPointsSharp e) (cornerPointsLessSharp e) (surfPointsFlat e)
    (surfPointsLessFlat e) (laserCloud e) (lastCornerCloud e)
    (lastSurfaceCloud e) (laserCloudOri e) (coeffSel e) (lastCornerKDTree e)
    v (corr e).

Definition set_corr (e : BasicLaserOdometry) (v : Correspondences) :
    BasicLaserOdometry :=
  mkEngine (scanPeriod e) (systemInited e) (frameCount e) (maxIterations e)
    (deltaTAbort e) (deltaRAbort e) (transform e) (transformSum e) (imu e)
    (cornerPointsSharp e) (cornerPointsLessSharp e) (surfPointsFlat e)
    (surfPointsLessFlat e) (laserCloud e) (lastCornerCloud e)
    (lastSurfaceCloud e) (laserCloudOri e) (coeffSel e) (lastCornerKDTree e)
    (lastSurfaceKDTree e) v.

(** A fallible step: a vector read outside its bounds stops the computation. *)
Inductive outcome (A : Type) : Type :=
| Ok (a : A)
| OutOfBounds (index : Z) (size : nat).
Arguments Ok {A} a.
Arguments OutOfBounds {A} index size.

Definition bind {A B : Type} (m : outcome A) (k : A -> outcome B) : outcome B :=
  match m with
  | Ok a => k a
  | OutOfBounds i n => OutOfBounds i n
  end.

Notation "x <- m ;; k" := (bind m (fun x => k))
  (at level 61, m at next level, right associativity).
Notation "' pat <- m ;; k" := (bind m (fun x => match x with pat => k end))
  (at level 61, pat pattern, m at next level, right associativity).

(** What an iteration of a C++ loop leaves to its loop: go on, or [break]. *)
Inductive flow (S : Type) : Type :=
| Continue (s : S)
| Break (s : S).
Arguments Continue {S} s.
Arguments Break {S} s.

(** The state a turn of a loop leaves, whichever way the loop goes on. *)
Definition left_by {S : Type} (f : flow S) : S :=
  match f with Continue s => s | Break s => s end.

(** A [for] loop over the index values [js], in that order, with a body that
    can [break] and can fault. *)
Fixpoint for_loop {S : Type} (body : Z -> S -> outcome (flow S))
    (js : list Z) (st : S) : outcome S :=
  match js with
  | [] => Ok st
  | j :: js' =>
      match body j st with
      | Ok (Continue st') => for_loop body js' st'
      | Ok (Break st') => Ok st'
      | OutOfBounds i n => OutOfBounds i n
      end
  end.

(** The values of [for (int j = start; j < n; ++j)] where [n] is a
    [std::size_t]: the comparison is unsigned, so a negative [start] ends the
    loop at once. *)
Definition upto (start : Z) (n : nat) : list Z :=
  if start <? 0 then []
  else map Z.of_nat (seq (Z.to_nat start) (n - Z.to_nat start)).

(** The values of [for (int j = start; j >= 0; --j)]. *)
Definition downfrom (start : Z) : list Z :=
  map Z.of_nat (rev (seq 0 (Z.to_nat (start + 1)))).

(** [v[i]] of a [std::vector]: defined for [0 <= i < v.size()] only. *)
Definition at_index {A : Type} (v : list A) (i : Z) : outcome A :=
  if i <? 0 then OutOfBounds i (length v)
  else match nth_error v (Z.to_nat i) with
       | Some a => Ok a
       | None => OutOfBounds i (length v)
       end.

Section Engine.

Variable E : Externals.

Local Open Scope f32_scope.

(** *** Angles *)

(** [Angle(float)]: the cosine and sine are computed once. *)
Definition Angle_of (r : float) : Angle := mkAngle r (cosf E r) (sinf E r).

(** [Angle()]. *)
Definition Angle_zero : Angle := mkAngle F32.zero f_1_0 F32.zero.

(** Unary minus and [+=] yield the Angle of the new radian value. *)
Definition Angle_neg (a : Angle) : Angle := Angle_of (- rad a).
Definition Angle_add (a b : Angle) : Angle := Angle_of (rad a + rad b).

Definition Transform_zero : Transform :=
  mkTransform Angle_zero Angle_zero Angle_zero (mkVec F32.zero F32.zero F32.zero).

(** *** Rotations of [math_utils.h] *)

(** Modelled from the spec: [math_utils.h] is not among the sources.
    [rotateZXY] rotates about Z, then X, then Y, and [rotateYXZ] about Y,
    then X, then Z; both act on a position. *)
Definition rotateZXY_vec (v : Vector3) (angZ angX angY : Angle) : Vector3 :=
  rotY E (rotX E (rotZ E v angZ) angX) angY.

Definition rotateYXZ_vec (v : Vector3) (angY angX angZ : Angle) : Vector3 :=
  rotZ E (rotX E (rotY E v angY) angX) angZ.

Definition position (p : PointXYZI) : Vector3 := mkVec (px p) (py p) (pz p).

Definition with_position (p : PointXYZI) (v : Vector3) : PointXYZI :=
  mkPoint (vx v) (vy v) (vz v) (intensity p).

(** Modelled from the spec: the point overloads of [math_utils.h] rotate the
    position of the point and leave its intensity field alone. *)
Definition rotateZXY (p : PointXYZI) (angZ angX angY : Angle) : PointXYZI :=
  with_position p (rotateZXY_vec (position p) angZ angX angY).

Definition rotateYXZ (p : PointXYZI) (angY angX angZ : Angle) : PointXYZI :=
  with_position p (rotateYXZ_vec (position p) angY angX angZ).

(** *** Motion compensation *)

(** [pi.intensity - static_cast<int>(pi.intensity)]. *)
Definition relTime_of (i : float) : float :=
  i - F32.of_Z (F32.static_cast_int i).

(** [BasicLaserOdometry::transformToStart], lines 42-57. *)
Definition transformToStart (scanPeriod : float) (tr : Transform)
    (pi : PointXYZI) : PointXYZI :=
  let relTime := relTime_of (intensity pi) in
  let s := (f_1_0 / scanPeriod) * relTime in
  let po := mkPoint (px pi - s * vx (pos tr))
                    (py pi - s * vy (pos tr))
                    (pz pi - s * vz (pos tr))
                    (intensity pi) in
  let rx := Angle_of ((- s) * rad (rot_x tr)) in
  let ry := Angle_of ((- s) * rad (rot_y tr)) in
  let rz := Angle_of ((- s) * rad (rot_z tr)) in
  rotateZXY po rz rx ry.

(** The body of the loop of [transformToEnd], lines 65-100. *)
Definition transformToEnd_point (scanPeriod : float) (tr : Transform)
    (imu : ImuState) (point : PointXYZI) : PointXYZI :=
  let relTime := relTime_of (intensity point) in
  let s := (f_1_0 / scanPeriod) * relTime in
  let point := mkPoint (px point - s * vx (pos tr))
                       (py point - s * vy (pos tr))
                       (pz point - s * vz (pos tr))
                       (F32.of_Z (F32.static_cast_int (intensity point))) in
  let rx := Angle_of ((- s) * rad (rot_x tr)) in
  let ry := Angle_of ((- s) * rad (rot_y tr)) in
  let rz := Angle_of ((- s) * rad (rot_z tr)) in
  let point := rotateZXY point rz rx ry in
  let point := rotateYXZ point (rot_y tr) (rot_x tr) (rot_z tr) in
  let point :=
    mkPoint (px point + (vx (pos tr) - vx (imuShiftFromStart imu)))
            (py point + (vy (pos tr) - vy (imuShiftFromStart imu)))
            (pz point + (vz (pos tr) - vz (imuShiftFromStart imu)))
            (intensity point) in
  let point := rotateZXY point (imuRollStart imu) (imuPitchStart imu)
                         (imuYawStart imu) in
  rotateYXZ point (Angle_neg (imuYawEnd imu)) (Angle_neg (imuPitchEnd imu))
            (Angle_neg (imuRollEnd imu)).

(** [BasicLaserOdometry::transformToEnd], lines 59-104: the cloud is rewritten
    in place, point by point, and its size is returned. *)
Definition transformToEnd (scanPeriod : float) (tr : Transform)
    (imu : ImuState) (c : cloud) : cloud * nat :=
  (map (transformToEnd_point scanPeriod tr imu) c, length c).


(** *** Correspondence search *)

(** [static_cast<int>(p.intensity)]: the scan ring of a point. *)
Definition scanIdOf (p : PointXYZI) : Z := F32.static_cast_int (intensity p).

(** The state of a search for one more point: its index and its squared
    distance to the query, [(-1, 25.0f)] to start with. *)
Definition candidate : Type := (Z * float)%type.

Definition no_candidate : candidate := (-1, f_25_0)%Z.

(** [if (pointSqDis < minPointSqDis) { minPointSqDis = pointSqDis;
    minPointInd = j; }] *)
Definition closer (j : Z) (pointSqDis : float) (best : candidate) : candidate :=
  if pointSqDis <? snd best then (j, pointSqDis) else best.

(** The body of the forward loop of [findCornerCorrespondence], lines
    609-628. *)
Definition cornerForwardBody (lastCorner : cloud) (pointSel : PointXYZI)
    (closestPointScan : Z) (j : Z) (best : candidate) :
    outcome (flow candidate) :=
  scanPoint <- at_index lastCorner j ;;
  let scanId := scanIdOf scanPoint in
  if F32.of_Z scanId >? F32.of_Z closestPointScan + f_2_5 then Ok (Break best)
  else if (scanId <=? closestPointScan)%Z then Ok (Continue best)
  else Ok (Continue (closer j (calcSquaredDiff E scanPoint pointSel) best)).

(** The body of the backward loop, lines 632-645. *)
Definition cornerBackwardBody (lastCorner : cloud) (pointSel : PointXYZI)
    (closestPointScan : Z) (j : Z) (best : candidate) :
    outcome (flow candidate) :=
  scanPoint <- at_index lastCorner j ;;
  let scanId := scanIdOf scanPoint in
  if F32.of_Z scanId <? F32.of_Z closestPointScan - f_2_5 then Ok (Break best)
  else if (scanId >=? closestPointScan)%Z then Ok (Continue best)
  else Ok (Continue (closer j (calcSquaredDiff E scanPoint pointSel) best)).

(** One turn of the loop over the sharp corner points, lines 571-653: the
    pair written to [_pointSearchCornerInd1[i]] and
    [_pointSearchCornerInd2[i]].  [cornerPointsSharpNum] is the bound the
    source gives the forward loop. *)
Definition findCornerCorrespondence_point (sp : float) (tr : Transform)
    (kdtree lastCorner : cloud) (cornerPointsSharpNum : nat)
    (pt : PointXYZI) : outcome (Z * Z) :=
  let pointSel := transformToStart sp tr pt in
  let '(closestPointInd, pointSearchSqDis) := nearestKSearch E kdtree pointSel in
  if pointSearchSqDis >=? f_25_0 then Ok (-1, -1)%Z
  else
    closestPoint <- at_index lastCorner closestPointInd ;;
    let closestPointScan := scanIdOf closestPoint in
    best <- for_loop (cornerForwardBody lastCorner pointSel closestPointScan)
                     (upto (closestPointInd + 1) cornerPointsSharpNum)
                     no_candidate ;;
    best <- for_loop (cornerBackwardBody lastCorner pointSel closestPointScan)
                     (downfrom (closestPointInd - 1)) best ;;
    Ok (closestPointInd, fst best).

(** The turns of a loop over the points of a cloud, stopping at a fault. *)
Fixpoint for_each {A B : Type} (f : A -> outcome B) (l : list A) :
    outcome (list B) :=
  match l with
  | [] => Ok []
  | a :: l' => b <- f a ;; bs <- for_each f l' ;; Ok (b :: bs)
  end.

(** [BasicLaserOdometry::findCornerCorrespondence], lines 550-655.  Both index
    vectors are resized to the number of sharp points and every entry is
    assigned; the reference cloud is filtered in place first. *)
Definition findCornerCorrespondence (e : BasicLaserOdometry) :
    outcome BasicLaserOdometry :=
  let cornerPointsSharpNum := length (cornerPointsSharp e) in
  let lastCorner := removeNaNFromPointCloud E (lastCornerCloud e) in
  pairs <- for_each (findCornerCorrespondence_point (scanPeriod e) (transform e)
                       (lastCornerKDTree e) lastCorner cornerPointsSharpNum)
                    (cornerPointsSharp e) ;;
  let e := set_lastCornerCloud e lastCorner in
  Ok (set_corr e (mkCorr (map fst pairs) (map snd pairs)
                         (pointSearchSurfInd1 (corr e))
                         (pointSearchSurfInd2 (corr e))
                         (pointSearchSurfInd3 (corr e)))).

(** The two candidates of the plane search: the point [l], kept in
    [minPointInd2], and the point [m], kept in [minPointInd3]. *)
Definition candidates : Type := (candidate * candidate)%type.

(** The body of the forward loop of [findPlaneCorrespondence], lines
    807-831. *)
Definition planeForwardBody (lastSurface : cloud) (pointSel : PointXYZI)
    (closestPointScan : Z) (j : Z) (best : candidates) :
    outcome (flow candidates) :=
  scanPoint <- at_index lastSurface j ;;
  let scanId := scanIdOf scanPoint in
  if F32.of_Z scanId >? F32.of_Z closestPointScan + f_2_5 then Ok (Break best)
  else
    let pointSqDis := calcSquaredDiff E scanPoint pointSel in
    if (scanId <=? closestPointScan)%Z
    then Ok (Continue (closer j pointSqDis (fst best), snd best))
    else Ok (Continue (fst best, closer j pointSqDis (snd best))).

(** The body of the backward loop, lines 835-853. *)
Definition planeBackwardBody (lastSurface : cloud) (pointSel : PointXYZI)
    (closestPointScan : Z) (j : Z) (best : candidates) :
    outcome (flow candidates) :=
  scanPoint <- at_index lastSurface j ;;
  let scanId := scanIdOf scanPoint in
  if F32.of_Z scanId <? F32.of_Z closestPointScan - f_2_5 then Ok (Break best)
  else
    let pointSqDis := calcSquaredDiff E scanPoint pointSel in
    if (scanId >=? closestPointScan)%Z
    then Ok (Continue (closer j pointSqDis (fst best), snd best))
    else Ok (Continue (fst best, closer j pointSqDis (snd best))).

(** One turn of the loop over the flat surface points, lines 767-858: the
    triple written to [_pointSearchSurfInd1[i]], [..Ind2[i]], [..Ind3[i]]. *)
Definition findPlaneCorrespondence_point (sp : float) (tr : Transform)
    (kdtree lastSurface : cloud) (surfPointsFlatNum : nat)
    (pt : PointXYZI) : outcome (Z * Z * Z) :=
  let pointSel := transformToStart sp tr pt in
  let '(closestPointInd, pointSearchSqDis) := nearestKSearch E kdtree pointSel in
  if pointSearchSqDis >=? f_25_0 then Ok (-1, -1, -1)%Z
  else
    closestPoint <- at_index lastSurface closestPointInd ;;
    let closestPointScan := scanIdOf closestPoint in
    best <- for_loop (planeForwardBody lastSurface pointSel closestPointScan)
                     (upto (closestPointInd + 1) surfPointsFlatNum)
                     (no_candidate, no_candidate) ;;
    best <- for_loop (planeBackwardBody lastSurface pointSel closestPointScan)
                     (downfrom (closestPointInd - 1)) best ;;
    Ok (closestPointInd, fst (fst best), fst (snd best)).

(** [BasicLaserOdometry::findPlaneCorrespondence], lines 749-860. *)
Definition findPlaneCorrespondence (e : BasicLaserOdometry) :
    outcome BasicLaserOdometry :=
  let surfPointsFlatNum := length (surfPointsFlat e) in
  triples <- for_each (findPlaneCorrespondence_point (scanPeriod e) (transform e)
                         (lastSurfaceKDTree e) (lastSurfaceCloud e)
                         surfPointsFlatNum)
                      (surfPointsFlat e) ;;
  Ok (set_corr e (mkCorr (pointSearchCornerInd1 (corr e))
                         (pointSearchCornerInd2 (corr e))
                         (map (fun t => fst (fst t)) triples)
                         (map (fun t => snd (fst t)) triples)
                         (map snd triples))).

(** *** Residuals *)

Definition vsub (a b : Vector3) : Vector3 :=
  mkVec (vx a - vx b) (vy a - vy b) (vz a - vz b).

Definition vdiv (a : Vector3) (k : float) : Vector3 :=
  mkVec (vx a / k) (vy a / k) (vz a / k).

Definition vscale (k : float) (a : Vector3) : Vector3 :=
  mkVec (k * vx a) (k * vy a) (k * vz a).

(** What the residual builders compute for one correspondence: the weight
    [s], the distance ([ld2] or [pd2]) and the coefficient [coeff]. *)
Record Residual : Type := mkResidual {
  weight : float;
  distance : float;
  coeff : PointXYZI
}.

(** [if (s <= 0.1f || d == 0.0f) continue;] decides whether the pair is
    stored. *)
Definition discarded (r : Residual) : bool :=
  (weight r <=? f_0_1) || (distance r =? F32.zero).

(** Lines 501-537 of [computeCornerDistances]. *)
Definition cornerResidual (iterCount : Z) (pointSel tripod1 tripod2 : PointXYZI) :
    Residual :=
  let vecI := position pointSel in
  let vecJ := position tripod1 in
  let vecL := position tripod2 in
  let vecIJ := vsub vecI vecJ in
  let vecIL := vsub vecI vecL in
  let vecJL := vsub vecJ vecL in
  let vecCross := cross3 E vecIJ vecIL in
  let a012 := norm3 E vecCross in
  let l12 := norm3 E vecJL in
  let vecNormal := vdiv (vdiv (cross3 E vecJL vecCross) a012) l12 in
  let ld2 := a012 / l12 in
  let s := if (iterCount <? 5)%Z then f_1_0
           else f_1_0 - f_1_8 * F32.fabs ld2 in
  mkResidual s ld2
    (mkPoint (s * vx vecNormal) (s * vy vecNormal) (s * vz vecNormal) (s * ld2)).

(** Lines 691-736 of [computePlaneDistances]. *)
Definition planeResidual (iterCount : Z)
    (pointSel tripod1 tripod2 tripod3 : PointXYZI) : Residual :=
  let vecI := position pointSel in
  let vecJ := position tripod1 in
  let vecL := position tripod2 in
  let vecM := position tripod3 in
  let vecIJ := vsub vecI vecJ in
  let vecJL := vsub vecJ vecL in
  let vecJM := vsub vecJ vecM in
  let vecCross := cross3 E vecJL vecJM in
  let ps := norm3 E vecCross in
  let vecNormal := vdiv vecCross ps in
  let pd2 := dot3 E vecIJ vecNormal in
  let s := if (iterCount <? 5)%Z then f_1_0
           else f_1_0 - f_1_8 * F32.fabs pd2
                        / F32.sqrt (calcPointDistance E pointSel) in
  mkResidual s pd2
    (mkPoint (s * vx vecNormal) (s * vy vecNormal) (s * vz vecNormal) (s * pd2)).

(** The points of a cloud with their positions in it. *)
Definition indexed {A : Type} (l : list A) : list (Z * A) :=
  combine (map Z.of_nat (seq 0 (length l))) l.

(** Lines 488-495: the two reference points of feature point [i], none when
    its second index is the sentinel. *)
Definition cornerTripods (e : BasicLaserOdometry) (i : Z) :
    outcome (option (PointXYZI * PointXYZI)) :=
  ind2 <- at_index (pointSearchCornerInd2 (corr e)) i ;;
  if (ind2 <? 0)%Z then Ok None
  else
    ind1 <- at_index (pointSearchCornerInd1 (corr e)) i ;;
    tripod1 <- at_index (lastCornerCloud e) ind1 ;;
    tripod2 <- at_index (lastCornerCloud e) ind2 ;;
    Ok (Some (tripod1, tripod2)).

(** Lines 541-545 and 740-744: the pair pushed to [_laserCloudOri] and
    [_coeffSel], if any. *)
Definition stored (pt : PointXYZI) (r : Residual) :
    option (PointXYZI * PointXYZI) :=
  if discarded r then None else Some (pt, coeff r).

(** One turn of the loop of [computeCornerDistances], lines 482-546. *)
Definition computeCornerDistances_point (e : BasicLaserOdometry) (iterCount : Z)
    (ip : Z * PointXYZI) : outcome (option (PointXYZI * PointXYZI)) :=
  let '(i, pt) := ip in
  let pointSel := transformToStart (scanPeriod e) (transform e) pt in
  tripods <- cornerTripods e i ;;
  match tripods with
  | None => Ok None
  | Some (tripod1, tripod2) =>
      Ok (stored pt (cornerResidual iterCount pointSel tripod1 tripod2))
  end.

(** The pairs that were pushed, in order. *)
Fixpoint pushed {A : Type} (l : list (option A)) : list A :=
  match l with
  | [] => []
  | Some a :: l' => a :: pushed l'
  | None :: l' => pushed l'
  end.

Definition push_all (e : BasicLaserOdometry)
    (ps : list (PointXYZI * PointXYZI)) : BasicLaserOdometry :=
  set_coeffSel (set_laserCloudOri e (laserCloudOri e ++ map fst ps))
               (coeffSel e ++ map snd ps).

(** [BasicLaserOdometry::computeCornerDistances], lines 470-547. *)
Definition computeCornerDistances (iterCount : Z) (e : BasicLaserOdometry) :
    outcome BasicLaserOdometry :=
  e <- (if (Z.rem iterCount 5 =? 0)%Z then findCornerCorrespondence e else Ok e) ;;
  ps <- for_each (computeCornerDistances_point e iterCount)
                 (indexed (cornerPointsSharp e)) ;;
  Ok (push_all e (pushed ps)).

(** Lines 677-689: the three reference points of feature point [i], none when
    its second or third index is the sentinel. *)
Definition planeTripods (e : BasicLaserOdometry) (i : Z) :
    outcome (option (PointXYZI * PointXYZI * PointXYZI)) :=
  ind2 <- at_index (pointSearchSurfInd2 (corr e)) i ;;
  if (ind2 <? 0)%Z then Ok None
  else
    ind3 <- at_index (pointSearchSurfInd3 (corr e)) i ;;
    if (ind3 <? 0)%Z then Ok None
    else
      ind1 <- at_index (pointSearchSurfInd1 (corr e)) i ;;
      tripod1 <- at_index (lastSurfaceCloud e) ind1 ;;
      tripod2 <- at_index (lastSurfaceCloud e) ind2 ;;
      tripod3 <- at_index (lastSurfaceCloud e) ind3 ;;
      Ok (Some (tripod1, tripod2, tripod3)).

(** One turn of the loop of [computePlaneDistances], lines 671-745. *)
Definition computePlaneDistances_point (e : BasicLaserOdometry) (iterCount : Z)
    (ip : Z * PointXYZI) : outcome (option (PointXYZI * PointXYZI)) :=
  let '(i, pt) := ip in
  let pointSel := transformToStart (scanPeriod e) (transform e) pt in
  tripods <- planeTripods e i ;;
  match tripods with
  | None => Ok None
  | Some (tripod1, tripod2, tripod3) =>
      Ok (stored pt (planeResidual iterCount pointSel tripod1 tripod2 tripod3))
  end.

(** [BasicLaserOdometry::computePlaneDistances], lines 659-746. *)
Definition computePlaneDistances (iterCount : Z) (e : BasicLaserOdometry) :
    outcome BasicLaserOdometry :=
  e <- (if (Z.rem iterCount 5 =? 0)%Z then findPlaneCorrespondence e else Ok e) ;;
  ps <- for_each (computePlaneDistances_point e iterCount)
                 (indexed (surfPointsFlat e)) ;;
  Ok (push_all e (pushed ps)).

(** *** The Gauss-Newton solver *)

(** Entry [i] of a fixed-size Eigen vector or matrix row. *)
Definition coef (v : list float) (i : nat) : float := nth i v F32.zero.

(** [m.row(i).setZero()]. *)
Fixpoint setZeroRow (m : Matrix6f) (i : nat) : Matrix6f :=
  match m, i with
  | [], _ => []
  | r :: m', O => map (fun _ => F32.zero) r :: m'
  | r :: m', S i' => r :: setZeroRow m' i'
  end.

(** The body of the loop of [checkDegeneration], lines 453-460, on the pair
    ([matV2], [isDegenerate]). *)
Definition checkDegenerationBody (matE : list float) (i : Z)
    (st : Matrix6f * bool) : outcome (flow (Matrix6f * bool)) :=
  if coef matE (Z.to_nat i) <? f_10
  then Ok (Continue (setZeroRow (fst st) (Z.to_nat i), true))
  else Ok (Break st).

(** [BasicLaserOdometry::checkDegeneration], lines 430-466: the projection
    matrix written through the reference parameter, and the returned flag. *)
Definition checkDegeneration (hessianMat : Matrix6f) : outcome (Matrix6f * bool) :=
  let '(matE, matV) := selfAdjointEigenSolver E hessianMat in
  '(matV2, isDegenerate) <-
     for_loop (checkDegenerationBody matE) (upto 0 6) (matV, false) ;;
  Ok (mul66 E (inverse6 E matV) matV2, isDegenerate).

Definition transpose3 (m : Matrix3f) : Matrix3f :=
  mkMat3 (mkVec (vx (row0 m)) (vx (row1 m)) (vx (row2 m)))
         (mkVec (vy (row0 m)) (vy (row1 m)) (vy (row2 m)))
         (mkVec (vz (row0 m)) (vz (row1 m)) (vz (row2 m))).

Definition mscale3 (k : float) (m : Matrix3f) : Matrix3f :=
  mkMat3 (vscale k (row0 m)) (vscale k (row1 m)) (vscale k (row2 m)).

(** Lines 318-370: the row of [matA] and the entry of [matB] of one selected
    point. *)
Definition jacobianRow (tr : Transform) (pointOri coeff : PointXYZI) :
    list float * float :=
  let s := f_1_0 in
  let posX := s * vx (pos tr) in
  let posY := s * vy (pos tr) in
  let posZ := s * vz (pos tr) in
  let rotX := s * rad (rot_x tr) in
  let rotY := s * rad (rot_y tr) in
  let rotZ := s * rad (rot_z tr) in
  let rotationMatTrans := rotationMatrixYXZT E rotX rotY rotZ in
  let vecTrans := mkVec posX posY posZ in
  let rotationMatParX := mscale3 s (partialXFromRotationYXZT E rotX rotY rotZ) in
  let rotationMatParY := mscale3 s (partialYFromRotationYXZT E rotX rotY rotZ) in
  let rotationMatParZ := mscale3 s (partialZFromRotationYXZT E rotX rotY rotZ) in
  let vecPoint := position pointOri in
  let vecPointTrans := vsub vecPoint vecTrans in
  let vecCoeff := position coeff in
  let vecGradTrans :=
    mul3v E (mscale3 (- s) (transpose3 rotationMatTrans)) vecCoeff in
  let gradRotX := dot3 E (mul3v E rotationMatParX vecPointTrans) vecCoeff in
  let gradRotY := dot3 E (mul3v E rotationMatParY vecPointTrans) vecCoeff in
  let gradRotZ := dot3 E (mul3v E rotationMatParZ vecPointTrans) vecCoeff in
  let d2 := intensity coeff in
  ([gradRotX; gradRotY; gradRotZ;
    vx vecGradTrans; vy vecGradTrans; vz vecGradTrans],
   F64.to_float (F64.mul (SFopp d_0_05) (F64.of_float d2))).

(** Lines 391-396: the increment is added to the six parameters. *)
Definition applyIncrement (tr : Transform) (matX : Vector6f) : Transform :=
  mkTransform (Angle_of (rad (rot_x tr) + coef matX 0))
              (Angle_of (rad (rot_y tr) + coef matX 1))
              (Angle_of (rad (rot_z tr) + coef matX 2))
              (mkVec (vx (pos tr) + coef matX 3)
                     (vy (pos tr) + coef matX 4)
                     (vz (pos tr) + coef matX 5)).

(** Lines 398-411: the six tests of [std::isfinite]. *)
Definition resetNonFinite (tr : Transform) : Transform :=
  let rx := if negb (F32.isfinite (rad (rot_x tr))) then Angle_zero else rot_x tr in
  let ry := if negb (F32.isfinite (rad (rot_y tr))) then Angle_zero else rot_y tr in
  let rz := if negb (F32.isfinite (rad (rot_z tr))) then Angle_zero else rot_z tr in
  let x := if negb (F32.isfinite (vx (pos tr))) then F32.zero else vx (pos tr) in
  let y := if negb (F32.isfinite (vy (pos tr))) then F32.zero else vy (pos tr) in
  let z := if negb (F32.isfinite (vz (pos tr))) then F32.zero else vz (pos tr) in
  mkTransform rx ry rz (mkVec x y z).

(** [std::pow(x, 2)] of a [float] and an [int]: computed in [double]. *)
Definition pow2 (x : float) : spec_float :=
  F64.mul (F64.of_float x) (F64.of_float x).

(** Lines 414-417 and 418-421. *)
Definition deltaR_of (matX : Vector6f) : float :=
  F64.to_float
    (F64.sqrt (F64.add (F64.add (pow2 (rad2deg E (coef matX 0)))
                                (pow2 (rad2deg E (coef matX 1))))
                       (pow2 (rad2deg E (coef matX 2))))).

Definition deltaT_of (matX : Vector6f) : float :=
  F64.to_float
    (F64.sqrt (F64.add (F64.add (pow2 (coef matX 3 * f_100))
                                (pow2 (coef matX 4 * f_100)))
                       (pow2 (coef matX 5 * f_100)))).

(** The state the loop of [performOptimization] works on: the engine and the
    two locals declared before the loop.  [matP] is declared without a value:
    [None] until [checkDegeneration] writes it. *)
Record SolverState : Type := mkSolver {
  engine : BasicLaserOdometry;
  isDegenerate : bool;
  matP : option Matrix6f
}.

(** Lines 303-378: the normal equations of the selected points and their
    solution [matX]. *)
Definition normalEquations (e : BasicLaserOdometry) : Matrix6f * Vector6f :=
  let rows := map (fun oc => jacobianRow (transform e) (fst oc) (snd oc))
                  (combine (laserCloudOri e) (coeffSel e)) in
  let matA := map fst rows in
  let matB := map snd rows in
  (normalMatrix E matA, normalVector E matA matB).

Definition rawSolution (e : BasicLaserOdometry) : Vector6f :=
  let '(matAtA, matAtB) := normalEquations e in
  colPivHouseholderQrSolve E matAtA matAtB.

(** Lines 380-382: the two locals after [if (iterCount == 0) isDegenerate =
    checkDegeneration(matAtA, matP);]. *)
Definition degeneracyStep (iterCount : Z) (st : SolverState) :
    outcome (bool * option Matrix6f) :=
  if (iterCount =? 0)%Z
  then '(P, d) <- checkDegeneration (fst (normalEquations (engine st))) ;;
       Ok (d, Some P)
  else Ok (isDegenerate st, matP st).

(** Lines 384-388: [matX = matP * matX2] when the system is degenerate. *)
Definition projected (isDeg : bool) (P : option Matrix6f) (matX : Vector6f) :
    Vector6f :=
  if isDeg
  then match P with Some P => mul6v E P matX | None => matX end
  else matX.

(** Lines 303-425: what an iteration does once at least 10 points are
    selected. *)
Definition solveAndUpdate (iterCount : Z) (st : SolverState) :
    outcome (flow SolverState) :=
  let e := engine st in
  let matX := rawSolution e in
  '(isDeg, P) <- degeneracyStep iterCount st ;;
  let matX := projected isDeg P matX in
  let tr := resetNonFinite (applyIncrement (transform e) matX) in
  let st := mkSolver (set_transform e tr) isDeg P in
  let deltaR := deltaR_of matX in
  let deltaT := deltaT_of matX in
  if (deltaR <? deltaRAbort e) && (deltaT <? deltaTAbort e)
  then Ok (Break st)
  else Ok (Continue st).

(** Lines 286-294: the selection buffers are cleared and filled again. *)
Definition selectPoints (iterCount : Z) (e : BasicLaserOdometry) :
    outcome BasicLaserOdometry :=
  let e := set_coeffSel (set_laserCloudOri e []) [] in
  e <- computeCornerDistances iterCount e ;;
  computePlaneDistances iterCount e.

(** The body of the loop of [performOptimization], lines 286-425. *)
Definition iteration (iterCount : Z) (st : SolverState) :
    outcome (flow SolverState) :=
  e <- selectPoints iterCount (engine st) ;;
  let pointSelNum := Z.of_nat (length (laserCloudOri e)) in
  if (pointSelNum <? 10)%Z
  then Ok (Continue (mkSolver e (isDegenerate st) (matP st)))
  else solveAndUpdate iterCount (mkSolver e (isDegenerate st) (matP st)).

(** The state in which the loop is entered, lines 276-281. *)
Definition solverStart (e : BasicLaserOdometry) : SolverState :=
  mkSolver (set_cornerPointsSharp e
              (removeNaNFromPointCloud E (cornerPointsSharp e)))
           false None.

(** [BasicLaserOdometry::performOptimization], lines 274-427. *)
Definition performOptimization (e : BasicLaserOdometry) :
    outcome BasicLaserOdometry :=
  st <- for_loop iteration (upto 0 (maxIterations e)) (solverStart e) ;;
  Ok (engine st).

(** *** Pose accumulation *)

(** [BasicLaserOdometry::accumulateRotation], lines 137-162. *)
Definition accumulateRotation (cx cy cz lx ly lz : Angle) :
    Angle * Angle * Angle :=
  let rotationMatC := rotationMatrixZXY E (rad cx) (rad cy) (rad cz) in
  let rotationMatL := rotationMatrixZXY E (rad lx) (rad ly) (rad lz) in
  let rotationMatO := mul33 E rotationMatC rotationMatL in
  let '(ox, oy, oz) := eulerAnglesFromRotationZXY E rotationMatO in
  (Angle_of ox, Angle_of oy, Angle_of oz).

(** [BasicLaserOdometry::pluginIMURotation], lines 106-135. *)
Definition pluginIMURotation (bcx bcy bcz blx bly blz alx aly alz : Angle) :
    Angle * Angle * Angle :=
  let rotationMatBc := rotationMatrixZXY E (rad bcx) (rad bcy) (rad bcz) in
  let rotationMatBl := rotationMatrixZXY E (rad blx) (rad bly) (rad blz) in
  let rotationMatAl := rotationMatrixZXY E (rad alx) (rad aly) (rad alz) in
  let rotationMatAc :=
    mul33 E (mul33 E rotationMatBc (transpose3 rotationMatBl)) rotationMatAl in
  let '(acx, acy, acz) := eulerAnglesFromRotationZXY E rotationMatAc in
  (Angle_of acx, Angle_of acy, Angle_of acz).

(** [BasicLaserOdometry::updateIMU], lines 164-184, on the four points of
    [imuTrans]. *)
Definition updateIMU (e : BasicLaserOdometry) (p0 p1 p2 p3 : Vector3) :
    BasicLaserOdometry :=
  set_imu e (mkImu (Angle_of (vx p0)) (Angle_of (vy p0)) (Angle_of (vz p0))
                   (Angle_of (vx p1)) (Angle_of (vy p1)) (Angle_of (vz p1))
                   p2 p3).

(** *** The sweep pipeline *)

(** The test of lines 217-218 and 266-267. *)
Definition referenceLargeEnough (e : BasicLaserOdometry) : bool :=
  (10 <? length (lastCornerCloud e))%nat && (100 <? length (lastSurfaceCloud e))%nat.

(** Lines 188-205 of [process]: the first call. *)
Definition processFirst (e : BasicLaserOdometry) : BasicLaserOdometry :=
  (* _cornerPointsLessSharp.swap(_lastCornerCloud) *)
  let e := set_lastCornerCloud
             (set_cornerPointsLessSharp e (lastCornerCloud e))
             (cornerPointsLessSharp e) in
  (* _surfPointsLessFlat.swap(_lastSurfaceCloud) *)
  let e := set_lastSurfaceCloud
             (set_surfPointsLessFlat e (lastSurfaceCloud e))
             (surfPointsLessFlat e) in
  let e := set_lastCornerKDTree e (lastCornerCloud e) in
  let e := set_lastSurfaceKDTree e (lastSurfaceCloud e) in
  let sum := transformSum e in
  let sum := mkTransform (Angle_add (rot_x sum) (imuPitchStart (imu e)))
                         (rot_y sum) (rot_z sum) (pos sum) in
  let sum := mkTransform (rot_x sum) (rot_y sum)
                         (Angle_add (rot_z sum) (imuRollStart (imu e)))
                         (pos sum) in
  let e := set_transformSum e sum in
  set_systemInited e true.

(** Lines 207-270 of [process]: every later call. *)
Definition processSteady (e : BasicLaserOdometry) : outcome BasicLaserOdometry :=
  let e := set_frameCount e (frameCount e + 1)%Z in
  let tr := transform e in
  let e := set_transform e
             (mkTransform (rot_x tr) (rot_y tr) (rot_z tr)
                (vsub (pos tr)
                      (mkVec (vx (imuVeloFromStart (imu e)) * scanPeriod e)
                             (vy (imuVeloFromStart (imu e)) * scanPeriod e)
                             (vz (imuVeloFromStart (imu e)) * scanPeriod e)))) in
  e <- (if referenceLargeEnough e then performOptimization e else Ok e) ;;
  let tr := transform e in
  let sum := transformSum e in
  let '(rx, ry, rz) :=
    accumulateRotation (rot_x sum) (rot_y sum) (rot_z sum)
                       (Angle_neg (rot_x tr))
                       (Angle_of ((- rad (rot_y tr)) * f_1_05))
                       (Angle_neg (rot_z tr)) in
  let v := mkVec (vx (pos tr) - vx (imuShiftFromStart (imu e)))
                 (vy (pos tr) - vy (imuShiftFromStart (imu e)))
                 (vz (pos tr) * f_1_05 - vz (imuShiftFromStart (imu e))) in
  let v := rotateZXY_vec v rz rx ry in
  let trans := vsub (pos sum) v in
  let '(rx, ry, rz) :=
    pluginIMURotation rx ry rz
      (imuPitchStart (imu e)) (imuYawStart (imu e)) (imuRollStart (imu e))
      (imuPitchEnd (imu e)) (imuYawEnd (imu e)) (imuRollEnd (imu e)) in
  let e := set_transformSum e (mkTransform rx ry rz trans) in
  let e := set_cornerPointsLessSharp e
             (fst (transformToEnd (scanPeriod e) (transform e) (imu e)
                                  (cornerPointsLessSharp e))) in
  let e := set_surfPointsLessFlat e
             (fst (transformToEnd (scanPeriod e) (transform e) (imu e)
                                  (surfPointsLessFlat e))) in
  let e := set_lastCornerCloud
             (set_cornerPointsLessSharp e (lastCornerCloud e))
             (cornerPointsLessSharp e) in
  let e := set_lastSurfaceCloud
             (set_surfPointsLessFlat e (lastSurfaceCloud e))
             (surfPointsLessFlat e) in
  if referenceLargeEnough e
  then Ok (set_lastSurfaceKDTree (set_lastCornerKDTree e (lastCornerCloud e))
                                 (lastSurfaceCloud e))
  else Ok e.

(** [BasicLaserOdometry::process], lines 186-271. *)
Definition process (e : BasicLaserOdometry) : outcome BasicLaserOdometry :=
  if negb (systemInited e) then Ok (processFirst e) else processSteady e.

(** The constructor, lines 22-40: every cloud is empty, both transforms are
    default-constructed. *)
Definition construct (scanPeriod : float) (maxIterations : nat) :
    BasicLaserOdometry :=
  let a0 := Angle_zero in
  let v0 := mkVec F32.zero F32.zero F32.zero in
  mkEngine scanPeriod false 0%Z maxIterations f_0_1 f_0_1
           Transform_zero Transform_zero
           (mkImu a0 a0 a0 a0 a0 a0 v0 v0)
           [] [] [] [] [] [] [] [] [] [] []
           (mkCorr [] [] [] [] []).

End Engine.
(** ** A reference instance of the externals

    The closed examples of this file need functions to run on.  The instance
    below gives the textbook ones: Horner polynomials for sine and cosine
    (exact at zero, where the examples use them), the usual single-axis
    rotations, rotation matrices and Euclidean distances, a linear scan for
    the nearest neighbour, the filter of non-finite points, and linear algebra
    that is exact on the diagonal systems of the examples.  No theorem depends on
    it. *)
Module Reference.

Local Open Scope f32_scope.

Definition sinf (x : float) : float :=
  let x2 := x * x in
  x * (f_1_0 - x2 / F32.of_Z 6
               * (f_1_0 - x2 / F32.of_Z 20 * (f_1_0 - x2 / F32.of_Z 42))).

Definition cosf (x : float) : float :=
  let x2 := x * x in
  f_1_0 - x2 / F32.of_Z 2
          * (f_1_0 - x2 / F32.of_Z 12 * (f_1_0 - x2 / F32.of_Z 30)).

Definition rotX (v : Vector3) (a : Angle) : Vector3 :=
  mkVec (vx v)
        (cos a * vy v - sin a * vz v)
        (sin a * vy v + cos a * vz v).

Definition rotY (v : Vector3) (a : Angle) : Vector3 :=
  mkVec (cos a * vx v + sin a * vz v)
        (vy v)
        (cos a * vz v - sin a * vx v).

Definition rotZ (v : Vector3) (a : Angle) : Vector3 :=
  mkVec (cos a * vx v - sin a * vy v)
        (sin a * vx v + cos a * vy v)
        (vz v).

Definition calcSquaredDiff (a b : PointXYZI) : float :=
  let dx := px a - px b in
  let dy := py a - py b in
  let dz := pz a - pz b in
  dx * dx + dy * dy + dz * dz.

Definition calcPointDistance (p : PointXYZI) : float :=
  F32.sqrt (px p * px p + py p * py p + pz p * pz p).

Definition rad2deg (r : float) : float :=
  r * F32.of_Z 180 / F32.lit 355 113.

Definition finite_point (p : PointXYZI) : bool :=
  F32.isfinite (px p) && F32.isfinite (py p) && F32.isfinite (pz p).

Definition removeNaNFromPointCloud (c : cloud) : cloud :=
  filter finite_point c.

Fixpoint nearest_from (q : PointXYZI) (c : cloud) (i : Z)
    (best : Z * float) : Z * float :=
  match c with
  | [] => best
  | p :: c' =>
      let d := calcSquaredDiff p q in
      nearest_from q c' (i + 1)%Z (if d <? snd best then (i, d) else best)
  end.

Definition nearestKSearch (c : cloud) (q : PointXYZI) : Z * float :=
  nearest_from q c 0%Z (0%Z, S754_infinity false).

Definition cross3 (a b : Vector3) : Vector3 :=
  mkVec (vy a * vz b - vz a * vy b)
        (vz a * vx b - vx a * vz b)
        (vx a * vy b - vy a * vx b).

Definition dot3 (a b : Vector3) : float :=
  vx a * vx b + vy a * vy b + vz a * vz b.

Definition norm3 (a : Vector3) : float := F32.sqrt (dot3 a a).

Definition mul3v (m : Matrix3f) (v : Vector3) : Vector3 :=
  mkVec (dot3 (row0 m) v) (dot3 (row1 m) v) (dot3 (row2 m) v).

Definition col (m : Matrix3f) (f : Vector3 -> float) : Vector3 :=
  mkVec (f (row0 m)) (f (row1 m)) (f (row2 m)).

Definition mul33 (a b : Matrix3f) : Matrix3f :=
  let r (u : Vector3) :=
    mkVec (dot3 u (col b vx)) (dot3 u (col b vy)) (dot3 u (col b vz)) in
  mkMat3 (r (row0 a)) (r (row1 a)) (r (row2 a)).

Definition axisX (c s : float) : Matrix3f :=
  mkMat3 (mkVec f_1_0 F32.zero F32.zero)
         (mkVec F32.zero c (- s))
         (mkVec F32.zero s c).

Definition axisY (c s : float) : Matrix3f :=
  mkMat3 (mkVec c F32.zero s)
         (mkVec F32.zero f_1_0 F32.zero)
         (mkVec (- s) F32.zero c).

Definition axisZ (c s : float) : Matrix3f :=
  mkMat3 (mkVec c (- s) F32.zero)
         (mkVec s c F32.zero)
         (mkVec F32.zero F32.zero f_1_0).

(** The derivative of an axis rotation in its angle: the entries that do
    not depend on the angle vanish. *)
Definition dAxisX (c s : float) : Matrix3f :=
  mkMat3 (mkVec F32.zero F32.zero F32.zero)
         (mkVec F32.zero (- s) (- c))
         (mkVec F32.zero c (- s)).

Definition dAxisY (c s : float) : Matrix3f :=
  mkMat3 (mkVec (- s) F32.zero c)
         (mkVec F32.zero F32.zero F32.zero)
         (mkVec (- c) F32.zero (- s)).

Definition dAxisZ (c s : float) : Matrix3f :=
  mkMat3 (mkVec (- s) (- c) F32.zero)
         (mkVec c (- s) F32.zero)
         (mkVec F32.zero F32.zero F32.zero).

Definition transposed (m : Matrix3f) : Matrix3f :=
  mkMat3 (col m vx) (col m vy) (col m vz).

(** [Ry(ry) Rx(rx) Rz(rz)], its transpose, and the transpose's partial
    derivatives. *)
Definition rotationMatrixZXY (rx ry rz : float) : Matrix3f :=
  mul33 (mul33 (axisY (cosf ry) (sinf ry)) (axisX (cosf rx) (sinf rx)))
        (axisZ (cosf rz) (sinf rz)).

Definition rotationMatrixYXZT (rx ry rz : float) : Matrix3f :=
  transposed (rotationMatrixZXY rx ry rz).

Definition partialXFromRotationYXZT (rx ry rz : float) : Matrix3f :=
  transposed
    (mul33 (mul33 (axisY (cosf ry) (sinf ry)) (dAxisX (cosf rx) (sinf rx)))
           (axisZ (cosf rz) (sinf rz))).

Definition partialYFromRotationYXZT (rx ry rz : float) : Matrix3f :=
  transposed
    (mul33 (mul33 (dAxisY (cosf ry) (sinf ry)) (axisX (cosf rx) (sinf rx)))
           (axisZ (cosf rz) (sinf rz))).

Definition partialZFromRotationYXZT (rx ry rz : float) : Matrix3f :=
  transposed
    (mul33 (mul33 (axisY (cosf ry) (sinf ry)) (axisX (cosf rx) (sinf rx)))
           (dAxisZ (cosf rz) (sinf rz))).

(** Arc sine and arc tangent by their series, for the small angles of the
    examples. *)
Definition asinf (x : float) : float :=
  let x2 := x * x in
  x * (f_1_0 + x2 / F32.of_Z 6 * (f_1_0 + x2 * F32.lit 9 20)).

Definition atanf (t : float) : float :=
  let t2 := t * t in
  t * (f_1_0 - t2 / F32.of_Z 3 * (f_1_0 - t2 * F32.lit 3 5)).

(** The angles of [Ry(ry) Rx(rx) Rz(rz)], read off its entries. *)
Definition eulerAnglesFromRotationZXY (m : Matrix3f) : float * float * float :=
  (- asinf (vz (row1 m)),
   atanf (vz (row0 m) / vz (row2 m)),
   atanf (vx (row1 m) / vy (row1 m))).

Definition dot (u v : list float) : float :=
  fold_left F32.add (map (fun ab => fst ab * snd ab) (combine u v)) F32.zero.

Fixpoint transpose (n : nat) (m : list (list float)) : list (list float) :=
  match n with
  | O => []
  | S n' => map (fun r => hd F32.zero r) m :: transpose n' (map (@tl float) m)
  end.

Definition mul6v (m : Matrix6f) (v : Vector6f) : Vector6f :=
  map (fun r => dot r v) m.

Definition mul66 (a b : Matrix6f) : Matrix6f :=
  let bt := transpose 6 b in
  map (fun r => map (fun c => dot r c) bt) a.

Definition normalMatrix (rows : list (list float)) : Matrix6f :=
  let at_ := transpose 6 rows in
  map (fun r => map (fun c => dot r c) at_) at_.

Definition normalVector (rows : list (list float)) (b : list float) : Vector6f :=
  map (fun r => dot r b) (transpose 6 rows).

Definition diagonal (m : Matrix6f) : list float :=
  map (fun i => nth i (nth i m []) F32.zero) (seq 0 6).

Definition identity6 : Matrix6f :=
  map (fun i => map (fun j => if Nat.eqb i j then f_1_0 else F32.zero) (seq 0 6))
      (seq 0 6).

(** Exact on diagonal matrices whose diagonal is ascending. *)
Definition selfAdjointEigenSolver (m : Matrix6f) : list float * Matrix6f :=
  (diagonal m, identity6).

(** Exact on diagonal systems: the basic solution, zero where the pivot is
    zero. *)
Definition colPivHouseholderQrSolve (m : Matrix6f) (b : Vector6f) : Vector6f :=
  map (fun ab => if fst ab =? F32.zero then F32.zero else snd ab / fst ab)
      (combine (diagonal m) b).

(** Exact on orthogonal matrices. *)
Definition inverse6 (m : Matrix6f) : Matrix6f := transpose 6 m.

Definition externals : Externals :=
  mkExternals sinf cosf rotX rotY rotZ
    calcSquaredDiff calcPointDistance rad2deg
    rotationMatrixZXY rotationMatrixYXZT
    partialXFromRotationYXZT partialYFromRotationYXZT partialZFromRotationYXZT
    eulerAnglesFromRotationZXY
    nearestKSearch removeNaNFromPointCloud
    cross3 dot3 norm3 mul33 mul3v
    normalMatrix normalVector colPivHouseholderQrSolve
    selfAdjointEigenSolver inverse6 mul66 mul6v.

End Reference.

(** ** Statements taken from the specification

    Each definition below follows the wording of the specification, not the
    source, and is compared with the source's definition further down. *)

Section Specified.

Variable E : Externals.

Local Open Scope f32_scope.

(** [transformToStart] as specified: the fraction [s] of the motion that is
    removed is the fractional part of the intensity field itself. *)
Definition transformToStart_specified (tr : Transform) (pi : PointXYZI) :
    PointXYZI :=
  let s := relTime_of (intensity pi) in
  rotateZXY E
    (mkPoint (px pi - s * vx (pos tr))
             (py pi - s * vy (pos tr))
             (pz pi - s * vz (pos tr))
             (intensity pi))
    (Angle_of E ((- s) * rad (rot_z tr)))
    (Angle_of E ((- s) * rad (rot_x tr)))
    (Angle_of E ((- s) * rad (rot_y tr))).

(** A correspondence contributes a row, as specified: its weight exceeds 0.1
    and its distance is not zero. *)
Definition contributes_specified (r : Residual) : bool :=
  (weight r >? f_0_1) && negb (distance r =? F32.zero).

(** The plane weight as specified: the distance is divided by the range of
    the query point. *)
Definition planeWeight_specified (iterCount : Z) (d range : float) : float :=
  if (iterCount <? 5)%Z then f_1_0
  else f_1_0 - f_1_8 * F32.fabs d / range.

(** The number of leading eigenvalues, among the six, that are below the
    threshold: scanning in index order stops at the first one that is not. *)
Fixpoint leadingBelow (matE : list float) (i n : nat) : nat :=
  match n with
  | O => O
  | S n' => if coef matE i <? f_10 then S (leadingBelow matE (S i) n') else O
  end.

(** The matrix with its first [k] rows zeroed. *)
Fixpoint zeroFirstRows (k : nat) (m : Matrix6f) : Matrix6f :=
  match k, m with
  | O, _ => m
  | S k', r :: m' => map (fun _ => F32.zero) r :: zeroFirstRows k' m'
  | S _, [] => []
  end.

(** The two locals never disagree: a degenerate system has its projection. *)
Definition has_projection (st : SolverState) : Prop :=
  isDegenerate st = true -> matP st <> None.

(** The ring numbers on which the window tests are checked one by one. *)
Definition ringRange : list Z :=
  map (fun n => (Z.of_nat n - 128)%Z) (seq 0 257).

(** The two window tests of the source agree with the integer comparisons on
    the pair [(a, b)], [fb] being [b] as a [float]. *)
Definition windowAgrees (a : Z) (hi lo : float) (bf : Z * float) : bool :=
  Bool.eqb (snd bf >? hi) (fst bf >? a + 2)%Z
  && Bool.eqb (snd bf <? lo) (fst bf <? a - 2)%Z.

Definition windowCheckedOn (l : list Z) : bool :=
  let fs := map (fun b => (b, F32.of_Z b)) l in
  forallb (fun a =>
    forallb (windowAgrees a (F32.of_Z a + f_2_5) (F32.of_Z a - f_2_5)) fs) l.


(** The ring window as specified: the ring numbers differ by at least 1 and by
    no more than 2. *)
Definition inRingWindow (closestPointScan scanId : Z) : Prop :=
  (1 <= Z.abs (scanId - closestPointScan) <= 2)%Z.

(** The ring tests a point passes, in the source's terms, to become the
    second point of an edge: above the ring of the closest point and not
    beyond it by more than 2.5, or below it and not beyond by more than
    2.5. *)
Definition passesRingTests (closestPointScan : Z) (p : PointXYZI) : Prop :=
  ((closestPointScan < scanIdOf p)%Z
   /\ (F32.of_Z (scanIdOf p) >? F32.of_Z closestPointScan + f_2_5) = false)
  \/ ((scanIdOf p < closestPointScan)%Z
      /\ (F32.of_Z (scanIdOf p) <? F32.of_Z closestPointScan - f_2_5) = false).

(** What the corner search knows of its best candidate so far. *)
Definition cornerCandidateOk (lastCorner : cloud) (pointSel : PointXYZI)
    (closestPointScan : Z) (best : candidate) : Prop :=
  best = no_candidate
  \/ exists p,
       at_index lastCorner (fst best) = Ok p
       /\ passesRingTests closestPointScan p
       /\ snd best = calcSquaredDiff E p pointSel
       /\ (snd best <? f_25_0) = true.

(** What the plane search knows of a candidate: its index is the sentinel or
    was read from the reference cloud. *)
Definition planeCandidateOk (lastSurface : cloud) (best : candidate) : Prop :=
  fst best = (-1)%Z \/ exists p, at_index lastSurface (fst best) = Ok p.

End Specified.

(** ** Inputs of the closed examples *)

Module Examples.

Definition R : Externals := Reference.externals.

Definition fz (n : Z) : float := F32.of_Z n.

(** A point with integer coordinates on scan ring [ring], at relative time
    zero. *)
Definition pt (x y z ring : Z) : PointXYZI :=
  mkPoint (fz x) (fz y) (fz z) (fz ring).

(** The increment "one metre along x, no rotation". *)
Definition oneMetreAlongX : Transform :=
  mkTransform Angle_zero Angle_zero Angle_zero (mkVec f_1_0 F32.zero F32.zero).

(** A point at the origin, on ring 3, half way through a sweep of 0.1 s:
    its intensity is 3.05. *)
Definition midSweepPoint : PointXYZI :=
  mkPoint F32.zero F32.zero F32.zero (F32.lit 305 100).

(** *** A sensor one metre above a flat floor

    The reference surface cloud has 101 points: 98 on ring 0 a hundred
    metres away, then three points of the floor [z = -1] around the
    sensor, on rings 0, 1 and 1.  The reference corner cloud has eleven
    points, all a hundred metres away.  The current sweep has [n] flat
    points, all at the sensor's origin on ring 1, and no sharp point. *)
Definition floorCloud : cloud :=
  map (fun k => pt (100 + Z.of_nat k) 0 (-1) 0) (seq 0 98)
  ++ [pt 0 1 (-1) 0; pt 1 0 (-1) 1; pt 0 0 (-1) 1].

Definition farCorners : cloud :=
  map (fun k => pt (100 + Z.of_nat k) 0 0 0) (seq 0 11).

Definition aboveFloor (n : nat) : BasicLaserOdometry :=
  let e := construct f_0_1 25 in
  let e := set_lastCornerCloud e farCorners in
  let e := set_lastSurfaceCloud e floorCloud in
  let e := set_lastCornerKDTree e farCorners in
  let e := set_lastSurfaceKDTree e floorCloud in
  let e := set_surfPointsFlat e (repeat (pt 0 0 0 1) n) in
  set_systemInited e true.

(** The solver state after ten points were selected along x, one of them
    with a NaN distance, from an increment of (1, 2, 3) metres. *)
Definition nanRowState : SolverState :=
  let e := construct f_0_1 25 in
  let e := set_transform e
             (mkTransform Angle_zero Angle_zero Angle_zero
                          (mkVec (fz 1) (fz 2) (fz 3))) in
  let e := set_laserCloudOri e (repeat (pt 1 2 3 0) 10) in
  let e := set_coeffSel e
             (mkPoint f_1_0 F32.zero F32.zero F32.nan
              :: repeat (mkPoint f_1_0 F32.zero F32.zero f_1_0) 9) in
  mkSolver e false None.

(** Three reference points in a line, and a query point beside the line. *)
Definition collinearJ : PointXYZI := pt 0 0 (-1) 1.
Definition collinearL : PointXYZI := pt 1 0 (-1) 1.
Definition collinearM : PointXYZI := pt 2 0 (-1) 0.
Definition besideLine : PointXYZI := pt 0 1 0 1.

(** Three reference points of the plane [z = 12], and a query point on the z
    axis 16 m from the sensor, 4 m off the plane. *)
Definition planeJ : PointXYZI := pt 0 0 12 1.
Definition planeL : PointXYZI := pt 1 0 12 1.
Definition planeM : PointXYZI := pt 0 1 12 0.
Definition sixteenAway : PointXYZI := pt 0 0 16 1.

(** *** Edges across three rings

    Eighteen reference corner points: six on each of the rings 0, 1 and 2,
    at heights 0, 2 and 3, in ring order.  The point at position [6 r + k] is
    the one of ring [r] at [x = k]. *)
Definition ringHeight (r : Z) : Z :=
  if (r =? 0)%Z then 0%Z else if (r =? 1)%Z then 2%Z else 3%Z.

Definition threeRings : cloud :=
  flat_map (fun r => map (fun k => pt (Z.of_nat k) 0 (ringHeight r) r) (seq 0 6))
           [0%Z; 1%Z; 2%Z].

(** A sweep with three sharp points: one on the middle ring at [x = 2], two
    a kilometre away. *)
Definition threeSharp : cloud := [pt 2 0 2 1; pt 1000 0 0 0; pt 1000 0 0 0].

Definition ridge : BasicLaserOdometry :=
  let e := construct f_0_1 25 in
  let e := set_lastCornerCloud e threeRings in
  let e := set_lastCornerKDTree e threeRings in
  let e := set_lastSurfaceCloud e floorCloud in
  let e := set_lastSurfaceKDTree e floorCloud in
  let e := set_cornerPointsSharp e threeSharp in
  let e := set_surfPointsFlat e (repeat (pt 0 0 0 1) 3) in
  set_systemInited e true.

(** *** More features than reference points

    The first sweep leaves eleven corner points and a hundred and one
    surface points, all on ring 0 along the x axis; the second sweep has
    twelve sharp points next to the last corner point and a hundred and two
    flat points next to the last surface point. *)
Definition alongX (n : nat) : cloud :=
  map (fun k => pt (Z.of_nat k) 0 0 0) (seq 0 n).

Definition firstSweep : BasicLaserOdometry :=
  let e := construct f_0_1 25 in
  let e := set_cornerPointsLessSharp e (alongX 11) in
  set_surfPointsLessFlat e (alongX 101).

Definition secondSweep (e : BasicLaserOdometry) : BasicLaserOdometry :=
  let e := set_cornerPointsSharp e (repeat (pt 10 0 0 0) 12) in
  set_surfPointsFlat e (repeat (pt 100 0 0 0) 102).

(** The engine before its first sweep, with an IMU summary that starts at a
    pitch of 1/8, a yaw of 1/4 and a roll of 1/2 radian. *)
Definition beforeFirstSweep : BasicLaserOdometry :=
  let z := mkVec F32.zero F32.zero F32.zero in
  updateIMU R firstSweep
    (mkVec (F32.lit 1 8) (F32.lit 1 4) (F32.lit 1 2)) z z z.

End Examples.

(** ** Predicates on engine states *)

(** The members that no statement of the solver loop assigns. *)
Definition solverFrame (e : BasicLaserOdometry) :=
  (scanPeriod e, systemInited e, frameCount e, maxIterations e,
   deltaTAbort e, deltaRAbort e, transformSum e, imu e,
   (cornerPointsSharp e, cornerPointsLessSharp e, surfPointsFlat e,
    surfPointsLessFlat e, laserCloud e, lastSurfaceCloud e,
    lastCornerKDTree e, lastSurfaceKDTree e)).

(** Every rotation angle and translation component is a finite number. *)
Definition finiteTransform (tr : Transform) : Prop :=
  F32.isfinite (rad (rot_x tr)) = true
  /\ F32.isfinite (rad (rot_y tr)) = true
  /\ F32.isfinite (rad (rot_z tr)) = true
  /\ F32.isfinite (vx (pos tr)) = true
  /\ F32.isfinite (vy (pos tr)) = true
  /\ F32.isfinite (vz (pos tr)) = true.

(** Both k-d trees index the reference clouds as they are now. *)
Definition treesMatch (e : BasicLaserOdometry) : Prop :=
  lastCornerKDTree e = lastCornerCloud e
  /\ lastSurfaceKDTree e = lastSurfaceCloud e.

(** Lines 213: the constant-velocity prior, [_transform.pos -=
    _imuVeloFromStart * _scanPeriod]. *)
Definition motionPrior (e : BasicLaserOdometry) : Transform :=
  mkTransform (rot_x (transform e)) (rot_y (transform e)) (rot_z (transform e))
    (vsub (pos (transform e))
          (mkVec (F32.mul (vx (imuVeloFromStart (imu e))) (scanPeriod e))
                 (F32.mul (vy (imuVeloFromStart (imu e))) (scanPeriod e))
                 (F32.mul (vz (imuVeloFromStart (imu e))) (scanPeriod e)))).

(** The reference cloud is in ascending ring order. *)
Definition sortedByRing (c : cloud) : Prop :=
  forall i j p q,
    (i <= j)%Z -> at_index c i = Ok p -> at_index c j = Ok q ->
    (scanIdOf p <= scanIdOf q)%Z.

(** Every ring number of the cloud is one a lidar has. *)
Definition lidarRings (c : cloud) : Prop :=
  Forall (fun p => (-128 <= scanIdOf p <= 128)%Z) c.

(** *** What the loops need to read inside their vectors *)

Section Readiness.

Variable E : Externals.

Local Open Scope f32_scope.

(** Whenever the tree reports a neighbour nearer than 5 m, the index it
    gives is a position of the cloud. *)
Definition answersWithin (tree c : cloud) : Prop :=
  forall q i d,
    nearestKSearch E tree q = (i, d) -> (d >=? f_25_0) = false ->
    (0 <= i < Z.of_nat (length c))%Z.

(** The reference corner cloud has no point for the filter to remove, both
    trees answer with positions of their reference cloud, and the sweep has
    no more sharp (flat) points than the reference corner (surface) cloud
    has points: the bound of the forward scans, lines 609 and 807, is then
    inside the cloud they read. *)
Definition searchable (e : BasicLaserOdometry) : Prop :=
  removeNaNFromPointCloud E (lastCornerCloud e) = lastCornerCloud e
  /\ answersWithin (lastCornerKDTree e) (lastCornerCloud e)
  /\ answersWithin (lastSurfaceKDTree e) (lastSurfaceCloud e)
  /\ (length (cornerPointsSharp e) <= length (lastCornerCloud e))%nat
  /\ (length (surfPointsFlat e) <= length (lastSurfaceCloud e))%nat.

(** Lines 488-495 read inside their vectors for every sharp point. *)
Definition cornersReadable (e : BasicLaserOdometry) : Prop :=
  forall i, (0 <= i < Z.of_nat (length (cornerPointsSharp e)))%Z ->
            exists r, cornerTripods e i = Ok r.

(** Lines 677-689 read inside their vectors for every flat point. *)
Definition planesReadable (e : BasicLaserOdometry) : Prop :=
  forall i, (0 <= i < Z.of_nat (length (surfPointsFlat e)))%Z ->
            exists r, planeTripods e i = Ok r.

(** Under the increment the engine holds, the nearest reference point of
    every sharp and of every flat point is reported at a squared distance of
    25 or more: the tests of lines 586 and 784 fail for every point. *)
Definition farFromReference (e : BasicLaserOdometry) : Prop :=
  (forall pt, In pt (cornerPointsSharp e) ->
     (snd (nearestKSearch E (lastCornerKDTree e)
             (transformToStart E (scanPeriod e) (transform e) pt))
      >=? f_25_0) = true)
  /\ (forall pt, In pt (surfPointsFlat e) ->
       (snd (nearestKSearch E (lastSurfaceKDTree e)
               (transformToStart E (scanPeriod e) (transform e) pt))
        >=? f_25_0) = true).

(** No sharp point has a pair of reference points, lines 488-491. *)
Definition noCornerPair (e : BasicLaserOdometry) : Prop :=
  forall i, (0 <= i < Z.of_nat (length (cornerPointsSharp e)))%Z ->
            cornerTripods e i = Ok None.

(** No flat point has a triple of reference points, lines 677-682. *)
Definition noPlaneTriple (e : BasicLaserOdometry) : Prop :=
  forall i, (0 <= i < Z.of_nat (length (surfPointsFlat e)))%Z ->
            planeTripods e i = Ok None.

(** What the plane search knows of its candidate for the second point:
    it was read at the position kept, on the side of the closest point where
    the test of its ring let it through, at the squared distance kept, which
    is below 25. *)
Definition planeSecondOk (lastSurface : cloud) (pointSel : PointXYZI)
    (closestPointInd closestPointScan : Z) (best : candidate) : Prop :=
  best = no_candidate
  \/ exists p,
       at_index lastSurface (fst best) = Ok p
       /\ snd best = calcSquaredDiff E p pointSel
       /\ (snd best <? f_25_0) = true
       /\ ((closestPointInd < fst best /\ scanIdOf p <= closestPointScan)%Z
           \/ (fst best < closestPointInd /\ closestPointScan <= scanIdOf p)%Z).

End Readiness.

(** The ring numbers of a cloud never decrease, as a test. *)
Fixpoint ringsAscend (c : cloud) : bool :=
  match c with
  | [] => true
  | p :: c' =>
      forallb (fun q => (scanIdOf p <=? scanIdOf q)%Z) c' && ringsAscend c'
  end.

(** The ring numbers of a cloud are those of a lidar, as a test. *)
Definition lidarRingsb (c : cloud) : bool :=
  forallb (fun p => (-128 <=? scanIdOf p)%Z && (scanIdOf p <=? 128)%Z) c.

(** Positive infinity or NaN: what a norm is when it is not a number of
    metres. *)
Definition unbounded (x : spec_float) : bool :=
  match x with
  | S754_infinity false | S754_nan => true
  | _ => false
  end.

(** ** Inputs of the closed examples of the sweep pipeline *)

Module Sweeps.

(** The sensor above the floor, whose sweep also brought eleven less-sharp
    and a hundred and one less-flat points. *)
Definition nextSweep : BasicLaserOdometry :=
  set_surfPointsLessFlat
    (set_cornerPointsLessSharp (Examples.aboveFloor 10) Examples.farCorners)
    Examples.floorCloud.

(** An initialised engine with three reference corner points and no
    reference surface point, which moved one metre along x in the previous
    sweep and whose IMU reports a velocity of 2 m/s along x. *)
Definition sparse : BasicLaserOdometry :=
  let z := mkVec F32.zero F32.zero F32.zero in
  let e := construct f_0_1 25 in
  let e := set_lastCornerCloud e Examples.threeSharp in
  let e := set_cornerPointsLessSharp e Examples.farCorners in
  let e := set_transform e Examples.oneMetreAlongX in
  let e := updateIMU Examples.R e z z z (mkVec (Examples.fz 2) F32.zero F32.zero) in
  set_systemInited e true.

(** A sweep far from everything it saw before: one sharp point at the
    origin, a hundred metres from the nearest reference corner point, and
    two flat points fifty and sixty metres above the floor. *)
Definition farSweep : BasicLaserOdometry :=
  let e := construct f_0_1 25 in
  let e := set_lastCornerCloud e Examples.farCorners in
  let e := set_lastCornerKDTree e Examples.farCorners in
  let e := set_lastSurfaceCloud e Examples.floorCloud in
  let e := set_lastSurfaceKDTree e Examples.floorCloud in
  let e := set_cornerPointsSharp e [Examples.pt 0 0 0 0] in
  let e := set_surfPointsFlat e [Examples.pt 0 0 50 1; Examples.pt 0 0 60 1] in
  set_systemInited e true.

(** Three points of the floor around the sensor, in ring order. *)
Definition floorPatch : cloud :=
  [Examples.pt 0 1 (-1) 0; Examples.pt 1 0 (-1) 1; Examples.pt 0 0 (-1) 1].

(** A solver state whose ten selected points all have a zero residual: the
    normal equations have a zero right-hand side. *)
Definition settled : SolverState :=
  let e := construct f_0_1 25 in
  let e := set_laserCloudOri e (repeat (Examples.pt 1 2 3 0) 10) in
  let e := set_coeffSel e
             (repeat (mkPoint f_1_0 F32.zero F32.zero F32.zero) 10) in
  mkSolver e false None.


End Sweeps.

(** ** Loops, reads and faults *)

Section Loops.

Lemma at_index_Ok {A : Type} (v : list A) (i : Z) (a : A) :
  at_index v i = Ok a ->
  0 <= i < Z.of_nat (length v) /\ nth_error v (Z.to_nat i) = Some a.
Proof.
  unfold at_index. destruct (i <? 0) eqn:Hneg; [discriminate|].
  apply Z.ltb_ge in Hneg.
  destruct (nth_error v (Z.to_nat i)) as [b|] eqn:Hnth; [|discriminate].
  intros H. injection H as ->. split; [|reflexivity].
  assert (Z.to_nat i < length v)%nat
    by (apply nth_error_Some; rewrite Hnth; discriminate).
  lia.
Qed.

Lemma at_index_in_range {A : Type} (v : list A) (i : Z) :
  0 <= i < Z.of_nat (length v) -> exists a, at_index v i = Ok a.
Proof.
  intros [Hlo Hhi]. unfold at_index.
  destruct (i <? 0) eqn:Hneg; [apply Z.ltb_lt in Hneg; lia|].
  destruct (nth_error v (Z.to_nat i)) as [b|] eqn:Hnth; [eauto|].
  apply nth_error_None in Hnth. lia.
Qed.

(** A property that every turn of the body preserves holds when the loop
    ends. *)
Lemma for_loop_invariant {S : Type} (P : S -> Prop)
    (body : Z -> S -> outcome (flow S)) :
  (forall j s f, P s -> body j s = Ok f -> P (left_by f)) ->
  forall js st st', P st -> for_loop body js st = Ok st' -> P st'.
Proof.
  intros Hbody js. induction js as [|j js IH]; intros st st' Hst; simpl.
  - intros H. injection H as <-. exact Hst.
  - destruct (body j st) as [[s1|s1]|] eqn:Hb; try discriminate.
    + apply IH. exact (Hbody _ _ _ Hst Hb).
    + intros H. injection H as <-. exact (Hbody _ _ _ Hst Hb).
Qed.

(** The same, for a body that is only known to preserve the property on the
    indices the loop visits. *)
Lemma for_loop_invariant_in {S : Type} (P : S -> Prop)
    (body : Z -> S -> outcome (flow S)) (js : list Z) :
  (forall j s f, In j js -> P s -> body j s = Ok f -> P (left_by f)) ->
  forall st st', P st -> for_loop body js st = Ok st' -> P st'.
Proof.
  induction js as [|j js IH]; intros Hbody st st' Hst; simpl.
  - intros H. injection H as <-. exact Hst.
  - destruct (body j st) as [[s1|s1]|] eqn:Hb; try discriminate.
    + apply IH.
      * intros j' s f Hin. apply Hbody. right. exact Hin.
      * exact (Hbody _ _ _ (or_introl eq_refl) Hst Hb).
    + intros H. injection H as <-.
      exact (Hbody _ _ _ (or_introl eq_refl) Hst Hb).
Qed.

(** A loop whose body never faults on the indices it visits ends. *)
Lemma for_loop_returns {S : Type} (body : Z -> S -> outcome (flow S))
    (js : list Z) :
  (forall j s, In j js -> exists f, body j s = Ok f) ->
  forall st, exists st', for_loop body js st = Ok st'.
Proof.
  induction js as [|j js IH]; intros Hbody st; simpl.
  - eauto.
  - destruct (Hbody j st (or_introl eq_refl)) as [[s1|s1] ->].
    + apply IH. intros j' s Hin. apply Hbody. right. exact Hin.
    + eauto.
Qed.

Lemma for_each_Ok {A B : Type} (f : A -> outcome B) (l : list A)
    (bs : list B) :
  for_each f l = Ok bs -> Forall2 (fun a b => f a = Ok b) l bs.
Proof.
  revert bs. induction l as [|a l IH]; intros bs; simpl.
  - intros H. injection H as <-. constructor.
  - destruct (f a) as [b|] eqn:Hfa; simpl; [|discriminate].
    destruct (for_each f l) as [bs'|] eqn:Hl; simpl; [|discriminate].
    intros H. injection H as <-. constructor; auto.
Qed.

Lemma for_each_returns {A B : Type} (f : A -> outcome B) (l : list A) :
  (forall a, In a l -> exists b, f a = Ok b) ->
  exists bs, for_each f l = Ok bs.
Proof.
  induction l as [|a l IH]; intros Hf; simpl.
  - eauto.
  - destruct (Hf a (or_introl eq_refl)) as [b ->]. simpl.
    destruct IH as [bs ->].
    + intros a' Hin. apply Hf. right. exact Hin.
    + simpl. eauto.
Qed.

Lemma Forall2_nth_error {A B : Type} (R : A -> B -> Prop) (l : list A)
    (l' : list B) :
  Forall2 R l l' ->
  forall i b, nth_error l' i = Some b ->
  exists a, nth_error l i = Some a /\ R a b.
Proof.
  induction 1 as [|a b0 l l' Hab _ IH]; intros i b.
  - destruct i; discriminate.
  - destruct i as [|i]; simpl.
    + intros H. injection H as <-. eauto.
    + apply IH.
Qed.

Lemma upto_spec (start : Z) (n : nat) (j : Z) :
  In j (upto start n) <-> 0 <= start <= j /\ j < Z.of_nat n.
Proof.
  unfold upto. destruct (start <? 0) eqn:Hneg.
  - apply Z.ltb_lt in Hneg. simpl. split; [tauto|lia].
  - apply Z.ltb_ge in Hneg. rewrite in_map_iff. split.
    + intros [k [<- Hk]]. apply in_seq in Hk. lia.
    + intros [H1 H2]. exists (Z.to_nat j). split; [lia|].
      apply in_seq. lia.
Qed.

Lemma downfrom_spec (start : Z) (j : Z) :
  In j (downfrom start) <-> 0 <= j <= start.
Proof.
  unfold downfrom. rewrite in_map_iff. split.
  - intros [k [<- Hk]]. apply in_rev in Hk. apply in_seq in Hk. lia.
  - intros H. exists (Z.to_nat j). split; [lia|].
    apply in_rev. rewrite rev_involutive. apply in_seq. lia.
Qed.

Lemma at_index_map {A B : Type} (f : A -> B) (l : list A) (i : Z) (b : B) :
  at_index (map f l) i = Ok b -> exists a, at_index l i = Ok a /\ b = f a.
Proof.
  unfold at_index. destruct (i <? 0); [discriminate|].
  rewrite nth_error_map.
  destruct (nth_error l (Z.to_nat i)) as [a|]; simpl; [|discriminate].
  intros H. injection H as <-. eauto.
Qed.

Lemma at_index_map_Ok {A B : Type} (f : A -> B) (l : list A) (i : Z) (a : A) :
  at_index l i = Ok a -> at_index (map f l) i = Ok (f a).
Proof.
  unfold at_index. destruct (i <? 0); [discriminate|].
  rewrite nth_error_map.
  destruct (nth_error l (Z.to_nat i)) as [a'|]; simpl; [|discriminate].
  intros H. injection H as <-. reflexivity.
Qed.

Lemma combine_seq_In {A : Type} (l : list A) (start : nat) (i : Z) (a : A) :
  In (i, a) (combine (map Z.of_nat (seq start (length l))) l) ->
  exists k, i = Z.of_nat (start + k) /\ nth_error l k = Some a.
Proof.
  revert start. induction l as [|x l IH]; intros start; simpl.
  - contradiction.
  - intros [H|H].
    + injection H as <- <-. exists 0%nat. split; [f_equal; lia|reflexivity].
    + destruct (IH _ H) as [k [-> Hk]]. exists (S k).
      split; [f_equal; lia|exact Hk].
Qed.

(** The pairs of [indexed l] are the positions of [l] with their elements. *)
Lemma indexed_In {A : Type} (l : list A) (i : Z) (a : A) :
  In (i, a) (indexed l) -> at_index l i = Ok a.
Proof.
  intros H. apply combine_seq_In in H as [k [-> Hk]]. simpl.
  unfold at_index.
  destruct (Z.of_nat k <? 0) eqn:Hneg; [apply Z.ltb_lt in Hneg; lia|].
  rewrite Nat2Z.id, Hk. reflexivity.
Qed.

Lemma Forall2_length_eq {A B : Type} (R : A -> B -> Prop) (l : list A)
    (l' : list B) :
  Forall2 R l l' -> length l' = length l.
Proof. induction 1; simpl; congruence. Qed.

End Loops.

(** ** Comparisons of binary32 values *)

Section FloatOrder.

Local Open Scope f32_scope.

Lemma SFcompare_antisym (a b : float) :
  SFcompare b a = option_map CompOpp (SFcompare a b).
Proof.
  destruct a as [sa|sa| |sa ma ea], b as [sb|sb| |sb mb eb]; simpl;
    try reflexivity;
    try (destruct sa; reflexivity);
    try (destruct sb; reflexivity);
    try (destruct sa, sb; reflexivity).
  destruct sa, sb; simpl; try reflexivity;
    rewrite (Z.compare_antisym ea eb);
    destruct (ea ?= eb)%Z; simpl; try reflexivity;
    rewrite (Pos.compare_cont_antisym ma mb Eq); simpl;
    try rewrite CompOpp_involutive; reflexivity.
Qed.

Lemma SFcompare_None (a b : float) :
  SFcompare a b = None -> F32.isnan a = true \/ F32.isnan b = true.
Proof.
  destruct a as [sa|sa| |sa ma ea], b as [sb|sb| |sb mb eb]; simpl;
    try (intros _; auto; fail); try discriminate;
    destruct sa; try destruct sb; discriminate.
Qed.

(** For numbers, [a <= b] is the negation of [a > b]. *)
Lemma leb_negb_gtb (a b : float) :
  F32.isnan a = false -> F32.isnan b = false ->
  (a <=? b) = negb (a >? b).
Proof.
  intros Ha Hb. unfold F32.leb, F32.gtb, SFleb, SFltb.
  rewrite (SFcompare_antisym a b).
  destruct (SFcompare a b) as [[]|] eqn:Hc; simpl; try reflexivity.
  apply SFcompare_None in Hc. destruct Hc; congruence.
Qed.

(** Adding a value to zero gives the value back, except that the sign of a
    negative zero is lost. *)
Lemma zero_add (x : float) :
  x <> S754_zero true -> F32.zero + x = x.
Proof.
  destruct x as [s|s| |s m e]; intros H; try reflexivity.
  destruct s; [contradiction H; reflexivity|reflexivity].
Qed.

(** The order of two finite values of the same sign is the lexicographic
    order of exponent and mantissa. *)
Lemma lex_Lt (e1 e2 : Z) (m1 m2 : positive) :
  match (e1 ?= e2)%Z with
  | Lt => Lt
  | Gt => Gt
  | Eq => Pos.compare_cont Eq m1 m2
  end = Lt
  <-> (e1 < e2)%Z \/ (e1 = e2 /\ (m1 < m2)%positive).
Proof.
  change (Pos.compare_cont Eq m1 m2) with (m1 ?= m2)%positive.
  destruct (Z.compare_spec e1 e2) as [He|He|He].
  - rewrite Pos.compare_lt_iff. intuition lia.
  - intuition lia.
  - split; [discriminate|]. intros [H|[H _]]; lia.
Qed.

(** The same for two negative values, whose order is reversed. *)
Lemma neglex_Lt (e1 e2 : Z) (m1 m2 : positive) :
  match (e1 ?= e2)%Z with
  | Lt => Gt
  | Gt => Lt
  | Eq => CompOpp (Pos.compare_cont Eq m1 m2)
  end = Lt
  <-> (e2 < e1)%Z \/ (e1 = e2 /\ (m2 < m1)%positive).
Proof.
  change (Pos.compare_cont Eq m1 m2) with (m1 ?= m2)%positive.
  destruct (Z.compare_spec e1 e2) as [He|He|He].
  - destruct (Pos.compare_spec m1 m2) as [Hm|Hm|Hm]; simpl;
      split; try discriminate; try (intros [H|[_ H]]; lia); intuition lia.
  - split; [discriminate|]. intros [H|[H _]]; lia.
  - intuition lia.
Qed.

(** [<] is transitive. *)
Lemma ltb_trans (a b c : float) :
  (a <? b) = true -> (b <? c) = true -> (a <? c) = true.
Proof.
  unfold F32.ltb, SFltb.
  destruct (SFcompare a b) as [[]|] eqn:Hab; try discriminate.
  destruct (SFcompare b c) as [[]|] eqn:Hbc; try discriminate.
  intros _ _.
  assert (H : SFcompare a c = Some Lt); [|rewrite H; reflexivity].
  destruct a as [sa|sa| |sa ma ea], b as [sb|sb| |sb mb eb],
           c as [sc|sc| |sc mc ec];
    simpl in *; try discriminate; try reflexivity;
    try (destruct sa; try discriminate; try reflexivity);
    try (destruct sb; try discriminate; try reflexivity);
    try (destruct sc; try discriminate; try reflexivity).
  - injection Hab as Hab. injection Hbc as Hbc. f_equal.
    apply neglex_Lt in Hab. apply neglex_Lt in Hbc. apply neglex_Lt.
    destruct Hab as [?|[? ?]], Hbc as [?|[? ?]]; try (left; lia).
    right. split; [lia|]. eapply Pos.lt_trans; eassumption.
  - injection Hab as Hab. injection Hbc as Hbc. f_equal.
    apply lex_Lt in Hab. apply lex_Lt in Hbc. apply lex_Lt.
    destruct Hab as [?|[? ?]], Hbc as [?|[? ?]]; try (left; lia).
    right. split; [lia|]. eapply Pos.lt_trans; eassumption.
Qed.

(** *** The ring window on small ring numbers

    The source compares ring numbers as [float]s, after adding or subtracting
    2.5.  On the ring numbers of a lidar the comparison is the one of the
    integers; it is checked here on every pair between -128 and 128. *)
Lemma in_ringRange (a : Z) : (-128 <= a <= 128)%Z -> In a ringRange.
Proof.
  intros H. unfold ringRange. apply in_map_iff.
  exists (Z.to_nat (a + 128)). split; [lia|]. apply in_seq. lia.
Qed.

Lemma windowCheckedOn_spec (l : list Z) :
  windowCheckedOn l = true ->
  forall a b, In a l -> In b l ->
  (F32.of_Z b >? F32.of_Z a + f_2_5) = (b >? a + 2)%Z
  /\ (F32.of_Z b <? F32.of_Z a - f_2_5) = (b <? a - 2)%Z.
Proof.
  unfold windowCheckedOn. intros H a b Ha Hb.
  rewrite forallb_forall in H. specialize (H a Ha).
  rewrite forallb_forall in H.
  specialize (H (b, F32.of_Z b) (in_map (fun b => (b, F32.of_Z b)) l b Hb)).
  unfold windowAgrees in H. cbn [fst snd] in H.
  apply andb_true_iff in H as [H1 H2].
  apply eqb_prop in H1. apply eqb_prop in H2. split; assumption.
Qed.

Lemma ringRange_checked : windowCheckedOn ringRange = true.
Proof. vm_compute. reflexivity. Qed.

Lemma ring_window (a b : Z) :
  (-128 <= a <= 128)%Z -> (-128 <= b <= 128)%Z ->
  (F32.of_Z b >? F32.of_Z a + f_2_5) = (b >? a + 2)%Z
  /\ (F32.of_Z b <? F32.of_Z a - f_2_5) = (b <? a - 2)%Z.
Proof.
  intros Ha Hb.
  exact (windowCheckedOn_spec ringRange ringRange_checked a b
           (in_ringRange Ha) (in_ringRange Hb)).
Qed.




End FloatOrder.

(** ** Motion compensation: [transformToStart] and [transformToEnd] *)

Section MotionCompensation.

Variable E : Externals.

Local Open Scope f32_scope.

Lemma rotateZXY_intensity (p : PointXYZI) (az ax ay : Angle) :
  intensity (rotateZXY E p az ax ay) = intensity p.
Proof. reflexivity. Qed.

Lemma rotateZXY_position (p : PointXYZI) (az ax ay : Angle) :
  position (rotateZXY E p az ax ay)
  = rotY E (rotX E (rotZ E (position p) az) ax) ay.
Proof.
  unfold rotateZXY, rotateZXY_vec, with_position, position. simpl.
  destruct (rotY E _ ay); reflexivity.
Qed.

(** C1, as amended.  For every input point, [transformToStart] removes the
    fraction [s = (1 / scanPeriod) * (intensity - (int) intensity)] of the
    incremental motion: the position is translated by [-s] times the
    incremental translation, then rotated about Z, then X, then Y by the
    Angles of [-s] times the incremental Euler angles; the intensity is
    unchanged. *)
Theorem transformToStart_removes_scaled_fraction
    (scanPeriod : float) (tr : Transform) (p : PointXYZI) :
  let s := (f_1_0 / scanPeriod)
           * (intensity p - F32.of_Z (F32.static_cast_int (intensity p))) in
  let translated := mkVec (px p - s * vx (pos tr))
                          (py p - s * vy (pos tr))
                          (pz p - s * vz (pos tr)) in
  position (transformToStart E scanPeriod tr p)
  = rotY E (rotX E (rotZ E translated (Angle_of E ((- s) * rad (rot_z tr))))
                   (Angle_of E ((- s) * rad (rot_x tr))))
           (Angle_of E ((- s) * rad (rot_y tr)))
  /\ intensity (transformToStart E scanPeriod tr p) = intensity p.
Proof.
  intros s translated. split.
  - unfold transformToStart. rewrite rotateZXY_position. reflexivity.
  - unfold transformToStart. rewrite rotateZXY_intensity. reflexivity.
Qed.



End MotionCompensation.

(** C1, as stated, fails.  With a scan period of 0.1 s and an increment of one
    metre along x, the point at the origin with intensity 3.05 is moved by
    about half a metre, not by the five centimetres of the fractional part of
    its intensity. *)
Lemma transformToStart_fraction_counterexample :
  transformToStart Examples.R f_0_1 Examples.oneMetreAlongX Examples.midSweepPoint
  = mkPoint (S754_finite true 16777200 (-25)) F32.zero F32.zero (F32.lit 305 100)
  /\ transformToStart_specified Examples.R Examples.oneMetreAlongX
       Examples.midSweepPoint
     = mkPoint (S754_finite true 13421760 (-28)) F32.zero F32.zero (F32.lit 305 100)
  /\ transformToStart Examples.R f_0_1 Examples.oneMetreAlongX Examples.midSweepPoint
     <> transformToStart_specified Examples.R Examples.oneMetreAlongX
          Examples.midSweepPoint.
Proof.
  assert (H1 : transformToStart Examples.R f_0_1 Examples.oneMetreAlongX
                 Examples.midSweepPoint
               = mkPoint (S754_finite true 16777200 (-25)) F32.zero F32.zero
                         (F32.lit 305 100)) by (vm_compute; reflexivity).
  assert (H2 : transformToStart_specified Examples.R Examples.oneMetreAlongX
                 Examples.midSweepPoint
               = mkPoint (S754_finite true 13421760 (-28)) F32.zero F32.zero
                         (F32.lit 305 100)) by (vm_compute; reflexivity).
  split; [exact H1|]. split; [exact H2|].
  rewrite H1, H2. intros H. discriminate H.
Qed.


(** ** The solver loop *)

Section Solver.

Variable E : Externals.

Local Open Scope f32_scope.

(** *** What the selection stage leaves alone *)

Lemma findCornerCorrespondence_shape (e e' : BasicLaserOdometry) :
  findCornerCorrespondence E e = Ok e' ->
  exists pairs,
    for_each (findCornerCorrespondence_point E (scanPeriod e) (transform e)
                (lastCornerKDTree e)
                (removeNaNFromPointCloud E (lastCornerCloud e))
                (length (cornerPointsSharp e)))
             (cornerPointsSharp e) = Ok pairs
    /\ e' = set_corr (set_lastCornerCloud e
                        (removeNaNFromPointCloud E (lastCornerCloud e)))
                     (mkCorr (map fst pairs) (map snd pairs)
                             (pointSearchSurfInd1 (corr e))
                             (pointSearchSurfInd2 (corr e))
                             (pointSearchSurfInd3 (corr e))).
Proof.
  unfold findCornerCorrespondence.
  destruct (for_each _ (cornerPointsSharp e)) as [pairs|] eqn:Hp; simpl;
    [|discriminate].
  intros H. injection H as <-. exists pairs. split; reflexivity.
Qed.

Lemma findPlaneCorrespondence_shape (e e' : BasicLaserOdometry) :
  findPlaneCorrespondence E e = Ok e' ->
  exists triples,
    for_each (findPlaneCorrespondence_point E (scanPeriod e) (transform e)
                (lastSurfaceKDTree e) (lastSurfaceCloud e)
                (length (surfPointsFlat e)))
             (surfPointsFlat e) = Ok triples
    /\ e' = set_corr e
              (mkCorr (pointSearchCornerInd1 (corr e))
                      (pointSearchCornerInd2 (corr e))
                      (map (fun t => fst (fst t)) triples)
                      (map (fun t => snd (fst t)) triples)
                      (map snd triples)).
Proof.
  unfold findPlaneCorrespondence.
  destruct (for_each _ (surfPointsFlat e)) as [triples|] eqn:Hp; simpl;
    [|discriminate].
  intros H. injection H as <-. exists triples. split; reflexivity.
Qed.

Lemma computeCornerDistances_transform (k : Z) (e e' : BasicLaserOdometry) :
  computeCornerDistances E k e = Ok e' -> transform e' = transform e.
Proof.
  unfold computeCornerDistances.
  destruct (Z.rem k 5 =? 0)%Z.
  - destruct (findCornerCorrespondence E e) as [e1|] eqn:H1; simpl;
      [|discriminate].
    apply findCornerCorrespondence_shape in H1 as [pairs [_ ->]].
    destruct (for_each _ _) as [ps|]; simpl; [|discriminate].
    intros H. injection H as <-. reflexivity.
  - simpl. destruct (for_each _ _) as [ps|]; simpl; [|discriminate].
    intros H. injection H as <-. reflexivity.
Qed.

Lemma computePlaneDistances_transform (k : Z) (e e' : BasicLaserOdometry) :
  computePlaneDistances E k e = Ok e' -> transform e' = transform e.
Proof.
  unfold computePlaneDistances.
  destruct (Z.rem k 5 =? 0)%Z.
  - destruct (findPlaneCorrespondence E e) as [e1|] eqn:H1; simpl;
      [|discriminate].
    apply findPlaneCorrespondence_shape in H1 as [triples [_ ->]].
    destruct (for_each _ _) as [ps|]; simpl; [|discriminate].
    intros H. injection H as <-. reflexivity.
  - simpl. destruct (for_each _ _) as [ps|]; simpl; [|discriminate].
    intros H. injection H as <-. reflexivity.
Qed.

Lemma selectPoints_transform (k : Z) (e e' : BasicLaserOdometry) :
  selectPoints E k e = Ok e' -> transform e' = transform e.
Proof.
  unfold selectPoints.
  destruct (computeCornerDistances E k _) as [e1|] eqn:H1; simpl;
    [|discriminate].
  intros H2. apply computePlaneDistances_transform in H2.
  apply computeCornerDistances_transform in H1.
  rewrite H2, H1. reflexivity.
Qed.

(** C3.  In an iteration whose selection stage retains fewer than 10 points
    (corner and plane selections together), nothing but the selection stage
    happens: the iteration does not fault, the loop is told to go on, the
    incremental transform and the two degeneracy locals are the ones the
    iteration started with, and the loop continues with the next iteration
    from there. *)
Theorem underconstrained_iteration_is_skipped
    (iterCount : Z) (st : SolverState) (e : BasicLaserOdometry) :
  selectPoints E iterCount (engine st) = Ok e ->
  (length (laserCloudOri e) < 10)%nat ->
  iteration E iterCount st
  = Ok (Continue (mkSolver e (isDegenerate st) (matP st)))
  /\ transform e = transform (engine st)
  /\ forall later,
       for_loop (iteration E) (iterCount :: later) st
       = for_loop (iteration E) later (mkSolver e (isDegenerate st) (matP st)).
Proof.
  intros Hsel Hfew.
  assert (Hit : iteration E iterCount st
                = Ok (Continue (mkSolver e (isDegenerate st) (matP st)))).
  { unfold iteration. rewrite Hsel. simpl.
    destruct (Z.of_nat (length (laserCloudOri e)) <? 10)%Z eqn:Hlt.
    - reflexivity.
    - apply Z.ltb_ge in Hlt. lia. }
  split; [exact Hit|]. split.
  - exact (selectPoints_transform _ _ Hsel).
  - intros later. simpl. rewrite Hit. reflexivity.
Qed.

(** *** The reset of non-finite components *)

(** C7.  An iteration that solves adds to each of the six parameters its
    entry of the increment - the solution of the normal equations, projected
    when the system is degenerate - and then tests each parameter on its
    own: a parameter whose updated value is finite keeps that value, one
    whose updated value is NaN or an infinity is zero; the test of one
    parameter does not look at the others, and nothing else is reset. *)
Theorem nonfinite_components_reset_independently
    (iterCount : Z) (st : SolverState) (f : flow SolverState) :
  solveAndUpdate E iterCount st = Ok f ->
  let matX := projected E (isDegenerate (left_by f)) (matP (left_by f))
                (rawSolution E (engine st)) in
  let old := transform (engine st) in
  let new := transform (engine (left_by f)) in
  let keep (a : Angle) := if F32.isfinite (rad a) then a else Angle_zero in
  let keepf (x : float) := if F32.isfinite x then x else F32.zero in
  rot_x new = keep (Angle_of E (rad (rot_x old) + coef matX 0))
  /\ rot_y new = keep (Angle_of E (rad (rot_y old) + coef matX 1))
  /\ rot_z new = keep (Angle_of E (rad (rot_z old) + coef matX 2))
  /\ vx (pos new) = keepf (vx (pos old) + coef matX 3)
  /\ vy (pos new) = keepf (vy (pos old) + coef matX 4)
  /\ vz (pos new) = keepf (vz (pos old) + coef matX 5).
Proof.
  unfold solveAndUpdate.
  destruct (degeneracyStep E iterCount st) as [[isDeg P]|] eqn:Hd; simpl;
    [|discriminate].
  intros H.
  assert (Hst : isDegenerate (left_by f) = isDeg /\ matP (left_by f) = P
                /\ transform (engine (left_by f))
                   = resetNonFinite
                       (applyIncrement E (transform (engine st))
                          (projected E isDeg P (rawSolution E (engine st))))).
  { destruct ((deltaR_of E (projected E isDeg P (rawSolution E (engine st)))
               <? deltaRAbort (engine st))
              && (deltaT_of (projected E isDeg P (rawSolution E (engine st)))
                  <? deltaTAbort (engine st)));
      injection H as <-; repeat split; reflexivity. }
  destruct Hst as [-> [-> Htr]].
  cbv zeta. rewrite Htr. unfold resetNonFinite, applyIncrement. simpl.
  repeat split;
    match goal with
    | |- context [F32.isfinite ?x] => destruct (F32.isfinite x); reflexivity
    end.
Qed.

(** *** The degeneracy check *)

Lemma setZeroRow_zeroFirstRows (i : nat) (m : Matrix6f) :
  setZeroRow (zeroFirstRows i m) i = zeroFirstRows (S i) m.
Proof.
  revert m. induction i as [|i IH]; intros [|r m]; simpl; try reflexivity.
  rewrite IH. destruct m; reflexivity.
Qed.

(** Row [r] of [zeroFirstRows k m] is zeroed exactly when [r < k]. *)
Lemma zeroFirstRows_row (k : nat) (m : Matrix6f) (r : nat) :
  nth r (zeroFirstRows k m) []
  = if (r <? k)%nat then map (fun _ => F32.zero) (nth r m []) else nth r m [].
Proof.
  revert m r. induction k as [|k IH]; intros m r.
  - simpl. reflexivity.
  - destruct m as [|row m]; simpl.
    + destruct r; destruct (_ <? _)%nat; reflexivity.
    + destruct r as [|r]; [reflexivity|]. simpl. rewrite IH.
      change (S r <? S k)%nat with (r <? k)%nat. reflexivity.
Qed.

(** [leadingBelow] counts the eigenvalues before the first one that is not
    below 10: position [k] is counted exactly when the eigenvalues up to and
    including [k] are all below 10. *)
Lemma leadingBelow_lt (matE : list float) (n i k : nat) :
  (k < leadingBelow matE i n)%nat
  <-> (k < n)%nat
      /\ forall j, (j <= k)%nat -> (coef matE (i + j) <? f_10) = true.
Proof.
  revert i k. induction n as [|n IH]; intros i k; simpl.
  - split; [lia|intros [H _]; lia].
  - destruct (coef matE i <? f_10) eqn:Hi.
    + destruct k as [|k].
      * split; [|lia]. intros _. split; [lia|].
        intros j Hj. replace j with 0%nat by lia.
        rewrite Nat.add_0_r. exact Hi.
      * rewrite <- Nat.succ_lt_mono, IH. split; intros [Hk Hall].
        -- split; [lia|]. intros [|j] Hj.
           ++ rewrite Nat.add_0_r. exact Hi.
           ++ rewrite Nat.add_succ_r. apply (Hall j). lia.
        -- split; [lia|]. intros j Hj.
           specialize (Hall (S j)). rewrite Nat.add_succ_r in Hall.
           apply Hall. lia.
    + split; [lia|]. intros [_ Hall].
      specialize (Hall 0%nat (Nat.le_0_l k)).
      rewrite Nat.add_0_r in Hall. congruence.
Qed.

(** The scan of the eigenvalues from index [i] on, for [n] more turns. *)
Lemma checkDegeneration_scan_from (matE : list float) (matV : Matrix6f)
    (n i : nat) (b : bool) :
  for_loop (checkDegenerationBody matE) (map Z.of_nat (seq i n))
           (zeroFirstRows i matV, b)
  = Ok (zeroFirstRows (i + leadingBelow matE i n) matV,
        b || (0 <? leadingBelow matE i n)%nat).
Proof.
  revert i b. induction n as [|n IH]; intros i b; simpl.
  - rewrite Nat.add_0_r, orb_false_r. reflexivity.
  - unfold checkDegenerationBody at 1. rewrite Nat2Z.id.
    destruct (coef matE i <? f_10).
    + simpl fst. rewrite setZeroRow_zeroFirstRows, IH.
      rewrite Nat.add_succ_r. simpl. rewrite orb_true_r. reflexivity.
    + rewrite Nat.add_0_r, orb_false_r. reflexivity.
Qed.

(** [checkDegeneration] zeroes the rows of the leading eigenvalues below 10,
    stops at the first eigenvalue that is not below 10, reports whether any
    row was zeroed, and builds the projection from the inverse of the
    eigenvector matrix and its zeroed copy. *)
Lemma checkDegeneration_spec (hessianMat : Matrix6f) :
  checkDegeneration E hessianMat
  = let '(matE, matV) := selfAdjointEigenSolver E hessianMat in
    let n := leadingBelow matE 0 6 in
    Ok (mul66 E (inverse6 E matV) (zeroFirstRows n matV), (0 <? n)%nat).
Proof.
  unfold checkDegeneration.
  destruct (selfAdjointEigenSolver E hessianMat) as [matE matV].
  change (upto 0 6) with (map Z.of_nat (seq 0 6)).
  change (matV, false) with (zeroFirstRows 0 matV, false).
  rewrite checkDegeneration_scan_from. reflexivity.
Qed.

Lemma solverStart_has_projection (e : BasicLaserOdometry) :
  has_projection (solverStart E e).
Proof. unfold has_projection, solverStart. simpl. discriminate. Qed.

Lemma solveAndUpdate_inv (iterCount : Z) (st : SolverState)
    (f : flow SolverState) :
  solveAndUpdate E iterCount st = Ok f ->
  exists isDeg P,
    degeneracyStep E iterCount st = Ok (isDeg, P)
    /\ isDegenerate (left_by f) = isDeg
    /\ matP (left_by f) = P
    /\ transform (engine (left_by f))
       = resetNonFinite
           (applyIncrement E (transform (engine st))
              (projected E isDeg P (rawSolution E (engine st)))).
Proof.
  unfold solveAndUpdate.
  destruct (degeneracyStep E iterCount st) as [[isDeg P]|] eqn:Hd; simpl;
    [|discriminate].
  intros H. exists isDeg, P. split; [reflexivity|].
  match type of H with
  | (if ?c then _ else _) = _ => destruct c
  end; injection H as <-; repeat split; reflexivity.
Qed.

(** Once the points are selected, the rest of an iteration cannot fault. *)
Lemma solveAndUpdate_returns (iterCount : Z) (st : SolverState) :
  exists f, solveAndUpdate E iterCount st = Ok f.
Proof.
  unfold solveAndUpdate, degeneracyStep.
  destruct (iterCount =? 0)%Z.
  - rewrite checkDegeneration_spec.
    destruct (selfAdjointEigenSolver E _) as [matE matV].
    cbv beta iota zeta delta [bind].
    match goal with
    | |- exists f, (if ?c then _ else _) = _ => destruct c; eauto
    end.
  - cbv beta iota zeta delta [bind].
    match goal with
    | |- exists f, (if ?c then _ else _) = _ => destruct c; eauto
    end.
Qed.

(** What an iteration does to the degeneracy locals and the transform, case
    by case. *)
Lemma iteration_degeneracy_cases
    (iterCount : Z) (st : SolverState) (f : flow SolverState) :
  iteration E iterCount st = Ok f ->
  has_projection st ->
  exists e,
    selectPoints E iterCount (engine st) = Ok e
    /\ let st' := left_by f in
       let x := rawSolution E e in
       ((length (laserCloudOri e) < 10)%nat ->
        isDegenerate st' = isDegenerate st /\ matP st' = matP st
        /\ transform (engine st') = transform (engine st))
       /\ ((10 <= length (laserCloudOri e))%nat -> iterCount <> 0%Z ->
           isDegenerate st' = isDegenerate st /\ matP st' = matP st)
       /\ ((10 <= length (laserCloudOri e))%nat -> iterCount = 0%Z ->
           exists matE matV,
             selfAdjointEigenSolver E (fst (normalEquations E e)) = (matE, matV)
             /\ isDegenerate st' = (0 <? leadingBelow matE 0 6)%nat
             /\ matP st' = Some (mul66 E (inverse6 E matV)
                                   (zeroFirstRows (leadingBelow matE 0 6) matV)))
       /\ ((10 <= length (laserCloudOri e))%nat ->
           (isDegenerate st' = false ->
            transform (engine st')
            = resetNonFinite (applyIncrement E (transform e) x))
           /\ (isDegenerate st' = true ->
               exists P,
                 matP st' = Some P
                 /\ transform (engine st')
                    = resetNonFinite
                        (applyIncrement E (transform e) (mul6v E P x))))
       /\ has_projection st'.
Proof.
  unfold iteration. intros Hit Hinv.
  destruct (selectPoints E iterCount (engine st)) as [e|] eqn:Hsel;
    simpl in Hit; [|discriminate].
  exists e. split; [reflexivity|]. cbv zeta.
  destruct (Z.of_nat (length (laserCloudOri e)) <? 10)%Z eqn:Hlt.
  - (* skipped *)
    apply Z.ltb_lt in Hlt. injection Hit as <-. simpl.
    repeat split; try (intros; lia); try exact Hinv.
    exact (selectPoints_transform _ _ Hsel).
  - (* solved *)
    apply Z.ltb_ge in Hlt.
    apply solveAndUpdate_inv in Hit
      as [isDeg [P [Hstep [HisDeg [HP Htr]]]]].
    cbn [engine] in Htr. unfold degeneracyStep in Hstep.
    cbn [engine isDegenerate matP] in Hstep.
    split; [intros; lia|].
    destruct (iterCount =? 0)%Z eqn:Hk.
    + (* the first iteration *)
      apply Z.eqb_eq in Hk.
      rewrite checkDegeneration_spec in Hstep.
      destruct (selfAdjointEigenSolver E (fst (normalEquations E e)))
        as [matE matV] eqn:Heig.
      cbv beta iota zeta delta [bind] in Hstep.
      remember (leadingBelow matE 0 6) as n eqn:Hn.
      injection Hstep as H1 H2. subst isDeg P.
      split; [intros; contradiction|].
      split; [intros _ _; exists matE, matV; rewrite <- Hn;
              repeat split; assumption|].
      split.
      * intros _. split; intros Hd; rewrite HisDeg in Hd.
        -- rewrite Htr. unfold projected. rewrite Hd. reflexivity.
        -- eexists. split; [exact HP|].
           rewrite Htr. unfold projected. rewrite Hd. reflexivity.
      * unfold has_projection. intros _. rewrite HP. discriminate.
    + (* a later iteration *)
      injection Hstep as H1 H2. subst isDeg P.
      split; [intros _ _; split; assumption|].
      split; [intros _ Hz; apply Z.eqb_neq in Hk; contradiction|].
      split.
      * intros _. split; intros Hd; rewrite HisDeg in Hd.
        -- rewrite Htr. unfold projected. rewrite Hd. reflexivity.
        -- destruct (matP st) as [P|] eqn:HmP;
             [|exfalso; apply (Hinv Hd); exact HmP].
           exists P. split; [exact HP|].
           rewrite Htr. unfold projected. rewrite Hd. reflexivity.
      * unfold has_projection. rewrite HisDeg, HP. exact Hinv.
Qed.

(** After the first iteration the flag and the projection never change. *)
Lemma degeneracy_locals_fixed_after_first (js : list Z) (st st' : SolverState) :
  (forall j, In j js -> j <> 0%Z) ->
  has_projection st ->
  for_loop (iteration E) js st = Ok st' ->
  isDegenerate st' = isDegenerate st /\ matP st' = matP st.
Proof.
  intros Hjs Hinv Hloop.
  assert (H : (isDegenerate st' = isDegenerate st /\ matP st' = matP st)
              /\ has_projection st').
  { refine (@for_loop_invariant_in _
              (fun s => (isDegenerate s = isDegenerate st /\ matP s = matP st)
                        /\ has_projection s)
              (iteration E) js _ st st' _ Hloop).
    - intros j s f Hin [[Hd HP] Hs] Hit.
      destruct (@iteration_degeneracy_cases j s f Hit Hs)
        as [e [_ [Hskip [Hlater [_ [_ Hinv']]]]]].
      split; [|exact Hinv'].
      destruct (Nat.lt_ge_cases (length (laserCloudOri e)) 10) as [Hl|Hl].
      + destruct (Hskip Hl) as [H1 [H2 _]]. rewrite H1, H2. tauto.
      + destruct (Hlater Hl (Hjs j Hin)) as [H1 H2]. rewrite H1, H2. tauto.
    - tauto. }
  tauto.
Qed.

(** C2, as amended.  In an iteration of the loop of [performOptimization]:
    the degeneracy check runs only if the iteration is the first one and
    retains at least 10 rows, and otherwise the flag and the projection are
    the ones the iteration started with (so the check runs at most once in a
    sweep, and never when the first iteration is skipped); when it runs, the
    eigenvalues are scanned in index order, every one below 10 zeroes its row
    of a copy of the eigenvector matrix, the scan stops at the first one that
    is not below 10, the flag says whether a row was zeroed and the
    projection is [V^-1 V']; and whenever an iteration solves with the flag
    set, the increment applied to the transform is [P x], not the raw
    solution [x].  The iterations that follow, none of which is the first,
    leave the flag and the projection as they are. *)
Theorem degeneracy_check_only_in_first_iteration
    (iterCount : Z) (st : SolverState) (f : flow SolverState) :
  iteration E iterCount st = Ok f ->
  has_projection st ->
  (exists e,
    selectPoints E iterCount (engine st) = Ok e
    /\ let st' := left_by f in
       let x := rawSolution E e in
       ((length (laserCloudOri e) < 10)%nat ->
        isDegenerate st' = isDegenerate st /\ matP st' = matP st
        /\ transform (engine st') = transform (engine st))
       /\ ((10 <= length (laserCloudOri e))%nat -> iterCount <> 0%Z ->
           isDegenerate st' = isDegenerate st /\ matP st' = matP st)
       /\ ((10 <= length (laserCloudOri e))%nat -> iterCount = 0%Z ->
           exists matE matV,
             selfAdjointEigenSolver E (fst (normalEquations E e)) = (matE, matV)
             /\ isDegenerate st' = (0 <? leadingBelow matE 0 6)%nat
             /\ matP st' = Some (mul66 E (inverse6 E matV)
                                   (zeroFirstRows (leadingBelow matE 0 6) matV)))
       /\ ((10 <= length (laserCloudOri e))%nat ->
           (isDegenerate st' = false ->
            transform (engine st')
            = resetNonFinite (applyIncrement E (transform e) x))
           /\ (isDegenerate st' = true ->
               exists P,
                 matP st' = Some P
                 /\ transform (engine st')
                    = resetNonFinite
                        (applyIncrement E (transform e) (mul6v E P x)))))
  /\ (forall later final,
        (forall j, In j later -> j <> 0%Z) ->
        for_loop (iteration E) later (left_by f) = Ok final ->
        isDegenerate final = isDegenerate (left_by f)
        /\ matP final = matP (left_by f)).
Proof.
  intros Hit Hinv.
  destruct (@iteration_degeneracy_cases iterCount st f Hit Hinv)
    as [e [Hsel [H1 [H2 [H3 [H4 H5]]]]]].
  split.
  - exists e. split; [exact Hsel|].
    exact (conj H1 (conj H2 (conj H3 H4))).
  - intros later final Hlater Hloop.
    exact (degeneracy_locals_fixed_after_first later Hlater H5 Hloop).
Qed.

End Solver.

(** The hypothesis of C3 is met by three returns above the floor. *)
Lemma underconstrained_iteration_is_skipped_witness :
  exists e,
    iteration Examples.R 0 (solverStart Examples.R (Examples.aboveFloor 3))
    = Ok (Continue (mkSolver e false None))
    /\ length (laserCloudOri e) = 3%nat
    /\ transform e = Transform_zero.
Proof.
  destruct (selectPoints Examples.R 0
              (engine (solverStart Examples.R (Examples.aboveFloor 3))))
    as [e|] eqn:Hsel; [|vm_compute in Hsel; discriminate Hsel].
  assert (Hlen : length (laserCloudOri e) = 3%nat).
  { apply (f_equal (fun o => match o with
                             | Ok e => length (laserCloudOri e)
                             | OutOfBounds _ _ => 0%nat
                             end)) in Hsel.
    vm_compute in Hsel. symmetry. exact Hsel. }
  exists e.
  destruct (@underconstrained_iteration_is_skipped Examples.R 0
              (solverStart Examples.R (Examples.aboveFloor 3)) e Hsel)
    as [Hit [Htr _]].
  - rewrite Hlen. lia.
  - split; [exact Hit|]. split; [exact Hlen|]. rewrite Htr. reflexivity.
Defined.

(** The hypothesis of C7 is met by a solve in which one row is NaN: the
    increment of the translation along x is NaN and that component is reset;
    the increments along y and z are finite and those components keep their
    updated values, 2 and 3. *)
Lemma nonfinite_components_reset_independently_witness :
  exists f,
    solveAndUpdate Examples.R 1 Examples.nanRowState = Ok f
    /\ (let matX := projected Examples.R (isDegenerate (left_by f))
                      (matP (left_by f))
                      (rawSolution Examples.R (engine Examples.nanRowState)) in
        F32.isfinite (F32.add (Examples.fz 1) (coef matX 3)) = false
        /\ F32.add (Examples.fz 2) (coef matX 4) = Examples.fz 2
        /\ F32.add (Examples.fz 3) (coef matX 5) = Examples.fz 3)
    /\ pos (transform (engine (left_by f)))
       = mkVec F32.zero (Examples.fz 2) (Examples.fz 3).
Proof.
  destruct (solveAndUpdate Examples.R 1 Examples.nanRowState) as [f|] eqn:Hs;
    [|vm_compute in Hs; discriminate Hs].
  exists f.
  destruct (@nonfinite_components_reset_independently Examples.R 1
              Examples.nanRowState f Hs) as [_ [_ [_ [Hx [Hy Hz]]]]].
  split; [reflexivity|].
  assert (Hinc : let matX := projected Examples.R (isDegenerate (left_by f))
                      (matP (left_by f))
                      (rawSolution Examples.R (engine Examples.nanRowState)) in
                 F32.isfinite (F32.add (Examples.fz 1) (coef matX 3)) = false
                 /\ F32.add (Examples.fz 2) (coef matX 4) = Examples.fz 2
                 /\ F32.add (Examples.fz 3) (coef matX 5) = Examples.fz 3).
  { vm_compute in Hs. injection Hs as <-. vm_compute.
    repeat split; reflexivity. }
  split; [exact Hinc|].
  cbv zeta in Hinc. destruct Hinc as [Hnx [Hny Hnz]].
  change (vx (pos (transform (engine Examples.nanRowState))))
    with (Examples.fz 1) in Hx.
  change (vy (pos (transform (engine Examples.nanRowState))))
    with (Examples.fz 2) in Hy.
  change (vz (pos (transform (engine Examples.nanRowState))))
    with (Examples.fz 3) in Hz.
  rewrite Hnx in Hx. rewrite Hny in Hy. rewrite Hnz in Hz.
  destruct (pos (transform (engine (left_by f)))) as [x y z].
  cbn [vx vy vz] in Hx, Hy, Hz. rewrite Hx, Hy, Hz.
  reflexivity.
Defined.

(** The hypotheses of C2 are met by the first iteration over ten returns above
    the floor: the check runs, finds five eigenvalues below 10, and the
    projection keeps the translation along z only. *)
Lemma degeneracy_check_only_in_first_iteration_witness :
  exists f,
    iteration Examples.R 0 (solverStart Examples.R (Examples.aboveFloor 10))
    = Ok f
    /\ isDegenerate (left_by f) = true
    /\ (exists e,
          selectPoints Examples.R 0 (Examples.aboveFloor 10) = Ok e
          /\ length (laserCloudOri e) = 10%nat)
    /\ (forall later final,
          (forall j, In j later -> j <> 0%Z) ->
          for_loop (iteration Examples.R) later (left_by f) = Ok final ->
          isDegenerate final = isDegenerate (left_by f)
          /\ matP final = matP (left_by f)).
Proof.
  destruct (iteration Examples.R 0
              (solverStart Examples.R (Examples.aboveFloor 10)))
    as [f|] eqn:Hit; [|vm_compute in Hit; discriminate Hit].
  exists f. split; [reflexivity|].
  assert (Hdeg : isDegenerate (left_by f) = true).
  { apply (f_equal (fun o => match o with
                             | Ok f => isDegenerate (left_by f)
                             | OutOfBounds _ _ => false
                             end)) in Hit.
    vm_compute in Hit. symmetry. exact Hit. }
  split; [exact Hdeg|].
  destruct (@degeneracy_check_only_in_first_iteration Examples.R 0
              (solverStart Examples.R (Examples.aboveFloor 10)) f Hit
              (@solverStart_has_projection Examples.R (Examples.aboveFloor 10)))
    as [[e [Hsel _]] Hlater].
  split; [|exact Hlater].
  exists e. split.
  - exact Hsel.
  - change (engine (solverStart Examples.R (Examples.aboveFloor 10)))
      with (Examples.aboveFloor 10) in Hsel.
    apply (f_equal (fun o => match o with
                             | Ok e => length (laserCloudOri e)
                             | OutOfBounds _ _ => 0%nat
                             end)) in Hsel.
    vm_compute in Hsel. symmetry. exact Hsel.
Defined.

(** C2, as stated, fails.  Over three returns above the floor the reference
    clouds are large enough for [process] to optimise, the loop runs its 25
    iterations, each retains fewer than 10 rows and is skipped, and the check
    has not run once: the projection is still unwritten when the loop ends. *)
Lemma degeneracy_check_never_runs_counterexample :
  referenceLargeEnough (Examples.aboveFloor 3) = true
  /\ maxIterations (Examples.aboveFloor 3) = 25%nat
  /\ exists final,
       for_loop (iteration Examples.R) (upto 0 25)
                (solverStart Examples.R (Examples.aboveFloor 3)) = Ok final
       /\ (length (laserCloudOri (engine final)) < 10)%nat
       /\ transform (engine final) = Transform_zero
       /\ isDegenerate final = false
       /\ matP final = None.
Proof.
  split; [vm_compute; reflexivity|]. split; [reflexivity|].
  destruct (for_loop (iteration Examples.R) (upto 0 25)
              (solverStart Examples.R (Examples.aboveFloor 3)))
    as [final|] eqn:Hloop; [|vm_compute in Hloop; discriminate Hloop].
  exists final. split; [reflexivity|].
  vm_compute in Hloop. injection Hloop as <-.
  split; [vm_compute; lia|]. repeat split; vm_compute; reflexivity.
Qed.

(** ** Weights and selection of the residual builders *)

Section Residuals.

Variable E : Externals.

Local Open Scope f32_scope.

(** When the weight is a number, "not [s <= 0.1] and not [d == 0]" is
    "[s > 0.1] and [d] not zero". *)
Lemma discarded_of_number (r : Residual) :
  F32.isnan (weight r) = false ->
  discarded r = negb (contributes_specified r).
Proof.
  intros Hw. unfold discarded, contributes_specified.
  rewrite (leb_negb_gtb (weight r) f_0_1 Hw eq_refl).
  rewrite negb_andb, negb_involutive. reflexivity.
Qed.

(** A NaN weight passes the test [s <= 0.1]. *)
Lemma discarded_of_nan (r : Residual) :
  F32.isnan (weight r) = true ->
  discarded r = (distance r =? F32.zero)
  /\ contributes_specified r = false.
Proof.
  unfold discarded, contributes_specified.
  destruct (weight r) as [s|s| |s m e]; try discriminate.
  intros _. split; reflexivity.
Qed.

(** C4, as amended.  The weight of a correspondence is 1.0 when the iteration
    count is below 5; from iteration 5 on it is [1 - 1.8 |d|] for an edge
    correspondence with point-to-line distance [d], and
    [1 - 1.8 |d| / sqrt D] for a plane correspondence with signed
    point-to-plane distance [d], where [D] is what [calcPointDistance] returns
    for the reprojected query point.  The stored coefficient is the normal
    scaled by the weight, with weight times distance as its intensity.  The
    pair is stored unless [s <= 0.1] or [d == 0] holds: when the weight is a
    number, exactly when [s > 0.1] and [d] is not zero; when the weight is
    NaN, whenever [d == 0] fails. *)
Theorem residual_weights_and_selection
    (iterCount : Z) (pt pointSel tripod1 tripod2 tripod3 : PointXYZI) :
  let rc := cornerResidual E iterCount pointSel tripod1 tripod2 in
  let rp := planeResidual E iterCount pointSel tripod1 tripod2 tripod3 in
  let vecIJ := vsub (position pointSel) (position tripod1) in
  let vecIL := vsub (position pointSel) (position tripod2) in
  let vecJL := vsub (position tripod1) (position tripod2) in
  let vecJM := vsub (position tripod1) (position tripod3) in
  let edgeCross := cross3 E vecIJ vecIL in
  let edgeNormal := vdiv (vdiv (cross3 E vecJL edgeCross) (norm3 E edgeCross))
                         (norm3 E vecJL) in
  let planeCross := cross3 E vecJL vecJM in
  let planeNormal := vdiv planeCross (norm3 E planeCross) in
  let kept (r : Residual) :=
    if F32.isnan (weight r)
    then negb (distance r =? F32.zero)
    else (weight r >? f_0_1) && negb (distance r =? F32.zero) in
  (* distances *)
  distance rc = norm3 E edgeCross / norm3 E vecJL
  /\ distance rp = dot3 E vecIJ planeNormal
  (* weights *)
  /\ weight rc = (if (iterCount <? 5)%Z then f_1_0
                  else f_1_0 - f_1_8 * F32.fabs (distance rc))
  /\ weight rp = (if (iterCount <? 5)%Z then f_1_0
                  else f_1_0 - f_1_8 * F32.fabs (distance rp)
                               / F32.sqrt (calcPointDistance E pointSel))
  (* coefficients *)
  /\ position (coeff rc) = vscale (weight rc) edgeNormal
  /\ intensity (coeff rc) = weight rc * distance rc
  /\ position (coeff rp) = vscale (weight rp) planeNormal
  /\ intensity (coeff rp) = weight rp * distance rp
  (* selection *)
  /\ stored pt rc = (if kept rc then Some (pt, coeff rc) else None)
  /\ stored pt rp = (if kept rp then Some (pt, coeff rp) else None).
Proof.
  intros rc rp vecIJ vecIL vecJL vecJM edgeCross edgeNormal planeCross
         planeNormal kept.
  assert (Hstored : forall r, stored pt r
                              = if kept r then Some (pt, coeff r) else None).
  { intros r. unfold stored, kept.
    destruct (F32.isnan (weight r)) eqn:Hn.
    - destruct (discarded_of_nan r Hn) as [-> _].
      destruct (distance r =? F32.zero); reflexivity.
    - rewrite (discarded_of_number r Hn). unfold contributes_specified.
      destruct ((weight r >? f_0_1) && negb (distance r =? F32.zero));
        reflexivity. }
  repeat split; try reflexivity; apply Hstored.
Qed.

End Residuals.

(** C4, as stated, fails.  At iteration 5, three reference points in a line
    give a plane residual whose distance and weight are NaN; the weight does
    not exceed 0.1, and the pair is stored all the same. *)
Lemma nan_weight_is_stored_counterexample :
  let r := planeResidual Examples.R 5 Examples.besideLine
             Examples.collinearJ Examples.collinearL Examples.collinearM in
  weight r = F32.nan
  /\ distance r = F32.nan
  /\ contributes_specified r = false
  /\ stored Examples.besideLine r = Some (Examples.besideLine, coeff r).
Proof. vm_compute. repeat split; reflexivity. Qed.

(** With the Euclidean distance to the origin for [calcPointDistance], as in
    the reference instance, the plane weight is not the specified one: 4 m off
    the plane at a range of 16 m, the source divides by the square root of
    the range, gets a negative weight and discards a pair that the specified
    weight, 0.55, keeps. *)
Remark plane_weight_divides_by_root_of_range :
  let r := planeResidual Examples.R 5 Examples.sixteenAway
             Examples.planeJ Examples.planeL Examples.planeM in
  calcPointDistance Examples.R Examples.sixteenAway = Examples.fz 16
  /\ distance r = Examples.fz 4
  /\ weight r = F32.sub f_1_0 (F32.div (F32.mul f_1_8 (Examples.fz 4))
                                       (Examples.fz 4))
  /\ F32.ltb (weight r) F32.zero = true
  /\ stored Examples.sixteenAway r = None
  /\ F32.gtb (planeWeight_specified 5 (distance r) (Examples.fz 16)) f_0_1
     = true.
Proof. vm_compute. repeat split; reflexivity. Qed.

(** ** Correspondence search *)

Section Search.

Variable E : Externals.

Local Open Scope f32_scope.

Lemma passesRingTests_window (c : Z) (p : PointXYZI) :
  (-128 <= c <= 128)%Z -> (-128 <= scanIdOf p <= 128)%Z ->
  passesRingTests c p -> inRingWindow c (scanIdOf p).
Proof.
  intros Hc Hp. destruct (ring_window Hc Hp) as [Hhi Hlo].
  unfold passesRingTests, inRingWindow. rewrite Hhi, Hlo.
  intros [[H1 H2]|[H1 H2]].
  - rewrite Z.gtb_ltb in H2. apply Z.ltb_ge in H2. lia.
  - apply Z.ltb_ge in H2. lia.
Qed.

Lemma closer_ok (lastCorner : cloud) (pointSel : PointXYZI) (c j : Z)
    (p : PointXYZI) (best : candidate) :
  cornerCandidateOk E lastCorner pointSel c best ->
  at_index lastCorner j = Ok p ->
  passesRingTests c p ->
  cornerCandidateOk E lastCorner pointSel c
    (closer j (calcSquaredDiff E p pointSel) best).
Proof.
  intros Hbest Hj Hring. unfold closer.
  destruct (calcSquaredDiff E p pointSel <? snd best) eqn:Hlt; [|exact Hbest].
  right. exists p. cbn [fst snd]. repeat split; try assumption.
  destruct Hbest as [->|[p' [_ [_ [_ H25]]]]].
  - exact Hlt.
  - exact (ltb_trans _ _ _ Hlt H25).
Qed.

Lemma cornerForwardBody_ok (lastCorner : cloud) (pointSel : PointXYZI)
    (c j : Z) (best : candidate) (f : flow candidate) :
  cornerCandidateOk E lastCorner pointSel c best ->
  cornerForwardBody E lastCorner pointSel c j best = Ok f ->
  cornerCandidateOk E lastCorner pointSel c (left_by f).
Proof.
  intros Hbest. unfold cornerForwardBody.
  destruct (at_index lastCorner j) as [p|] eqn:Hj; simpl; [|discriminate].
  destruct (F32.of_Z (scanIdOf p) >? F32.of_Z c + f_2_5) eqn:Hhi.
  - intros H. injection H as <-. exact Hbest.
  - destruct (scanIdOf p <=? c)%Z eqn:Hle; intros H; injection H as <-.
    + exact Hbest.
    + apply Z.leb_gt in Hle. simpl. apply closer_ok; try assumption.
      left. split; assumption.
Qed.

Lemma cornerBackwardBody_ok (lastCorner : cloud) (pointSel : PointXYZI)
    (c j : Z) (best : candidate) (f : flow candidate) :
  cornerCandidateOk E lastCorner pointSel c best ->
  cornerBackwardBody E lastCorner pointSel c j best = Ok f ->
  cornerCandidateOk E lastCorner pointSel c (left_by f).
Proof.
  intros Hbest. unfold cornerBackwardBody.
  destruct (at_index lastCorner j) as [p|] eqn:Hj; simpl; [|discriminate].
  destruct (F32.of_Z (scanIdOf p) <? F32.of_Z c - f_2_5) eqn:Hlo.
  - intros H. injection H as <-. exact Hbest.
  - destruct (scanIdOf p >=? c)%Z eqn:Hge; intros H; injection H as <-.
    + exact Hbest.
    + rewrite Z.geb_leb in Hge. apply Z.leb_gt in Hge. simpl.
      apply closer_ok; try assumption. right. split; assumption.
Qed.

(** What a successful corner search returns for one feature point: either the
    sentinel as second index, or two indices read from the reference cloud,
    the second one of a point that passed the ring tests and lies at a
    squared distance below 25 from the reprojected query. *)
Lemma findCornerCorrespondence_point_sound (sp : float) (tr : Transform)
    (kdtree lastCorner : cloud) (num : nat) (pt : PointXYZI) (i1 i2 : Z) :
  findCornerCorrespondence_point E sp tr kdtree lastCorner num pt = Ok (i1, i2) ->
  i2 = (-1)%Z
  \/ exists p1 p2,
       at_index lastCorner i1 = Ok p1
       /\ at_index lastCorner i2 = Ok p2
       /\ passesRingTests (scanIdOf p1) p2
       /\ (calcSquaredDiff E p2 (transformToStart E sp tr pt) <? f_25_0) = true.
Proof.
  unfold findCornerCorrespondence_point.
  set (q := transformToStart E sp tr pt).
  destruct (nearestKSearch E kdtree q) as [c d].
  destruct (d >=? f_25_0).
  - intros H. injection H as <- <-. left. reflexivity.
  - destruct (at_index lastCorner c) as [p1|] eqn:Hc; simpl; [|discriminate].
    destruct (for_loop (cornerForwardBody E lastCorner q (scanIdOf p1))
                (upto (c + 1) num) no_candidate) as [b1|] eqn:Hf; simpl;
      [|discriminate].
    destruct (for_loop (cornerBackwardBody E lastCorner q (scanIdOf p1))
                (downfrom (c - 1)) b1) as [b2|] eqn:Hb; simpl; [|discriminate].
    intros H. injection H as <- <-.
    assert (H1 : cornerCandidateOk E lastCorner q (scanIdOf p1) b1).
    { refine (@for_loop_invariant _
                (cornerCandidateOk E lastCorner q (scanIdOf p1)) _ _ _ _ _ _ Hf).
      - intros j s f Hs Hj. exact (@cornerForwardBody_ok _ _ _ _ _ _ Hs Hj).
      - left. reflexivity. }
    assert (H2 : cornerCandidateOk E lastCorner q (scanIdOf p1) b2).
    { refine (@for_loop_invariant _
                (cornerCandidateOk E lastCorner q (scanIdOf p1)) _ _ _ _ _ H1 Hb).
      intros j s f Hs Hj. exact (@cornerBackwardBody_ok _ _ _ _ _ _ Hs Hj). }
    destruct H2 as [->|[p2 [Hp2 [Hring [Hd H25]]]]].
    + left. reflexivity.
    + right. exists p1, p2. rewrite <- Hd. repeat split; assumption.
Qed.

(** The plane search: both candidates keep indices that were read. *)
Lemma closer_plane_ok (lastSurface : cloud) (j : Z) (p : PointXYZI)
    (d : float) (best : candidate) :
  planeCandidateOk lastSurface best ->
  at_index lastSurface j = Ok p ->
  planeCandidateOk lastSurface (closer j d best).
Proof.
  intros Hbest Hj. unfold closer. destruct (d <? snd best); [|exact Hbest].
  right. exists p. exact Hj.
Qed.

Lemma planeForwardBody_ok (lastSurface : cloud) (pointSel : PointXYZI)
    (c j : Z) (best : candidates) (f : flow candidates) :
  planeCandidateOk lastSurface (fst best) /\ planeCandidateOk lastSurface (snd best) ->
  planeForwardBody E lastSurface pointSel c j best = Ok f ->
  planeCandidateOk lastSurface (fst (left_by f))
  /\ planeCandidateOk lastSurface (snd (left_by f)).
Proof.
  intros [H2 H3]. unfold planeForwardBody.
  destruct (at_index lastSurface j) as [p|] eqn:Hj; simpl; [|discriminate].
  destruct (F32.of_Z (scanIdOf p) >? F32.of_Z c + f_2_5).
  - intros H. injection H as <-. split; assumption.
  - destruct (scanIdOf p <=? c)%Z; intros H; injection H as <-; simpl;
      split; try assumption; eapply closer_plane_ok; eassumption.
Qed.

Lemma planeBackwardBody_ok (lastSurface : cloud) (pointSel : PointXYZI)
    (c j : Z) (best : candidates) (f : flow candidates) :
  planeCandidateOk lastSurface (fst best) /\ planeCandidateOk lastSurface (snd best) ->
  planeBackwardBody E lastSurface pointSel c j best = Ok f ->
  planeCandidateOk lastSurface (fst (left_by f))
  /\ planeCandidateOk lastSurface (snd (left_by f)).
Proof.
  intros [H2 H3]. unfold planeBackwardBody.
  destruct (at_index lastSurface j) as [p|] eqn:Hj; simpl; [|discriminate].
  destruct (F32.of_Z (scanIdOf p) <? F32.of_Z c - f_2_5).
  - intros H. injection H as <-. split; assumption.
  - destruct (scanIdOf p >=? c)%Z; intros H; injection H as <-; simpl;
      split; try assumption; eapply closer_plane_ok; eassumption.
Qed.

Lemma findPlaneCorrespondence_point_sound (sp : float) (tr : Transform)
    (kdtree lastSurface : cloud) (num : nat) (pt : PointXYZI) (i1 i2 i3 : Z) :
  findPlaneCorrespondence_point E sp tr kdtree lastSurface num pt
  = Ok (i1, i2, i3) ->
  (i1 = (-1)%Z /\ i2 = (-1)%Z /\ i3 = (-1)%Z)
  \/ ((exists p1, at_index lastSurface i1 = Ok p1)
      /\ planeCandidateOk lastSurface (i2, F32.zero)
      /\ planeCandidateOk lastSurface (i3, F32.zero)).
Proof.
  unfold findPlaneCorrespondence_point.
  set (q := transformToStart E sp tr pt).
  destruct (nearestKSearch E kdtree q) as [c d].
  destruct (d >=? f_25_0).
  - intros H. injection H as <- <- <-. left. repeat split; reflexivity.
  - destruct (at_index lastSurface c) as [p1|] eqn:Hc; simpl; [|discriminate].
    destruct (for_loop (planeForwardBody E lastSurface q (scanIdOf p1))
                (upto (c + 1) num) (no_candidate, no_candidate))
      as [b1|] eqn:Hf; simpl; [|discriminate].
    destruct (for_loop (planeBackwardBody E lastSurface q (scanIdOf p1))
                (downfrom (c - 1)) b1) as [b2|] eqn:Hb; simpl; [|discriminate].
    intros H. injection H as <- <- <-.
    set (P := fun b : candidates =>
                planeCandidateOk lastSurface (fst b)
                /\ planeCandidateOk lastSurface (snd b)).
    assert (H1 : P b1).
    { refine (@for_loop_invariant _ P _ _ _ _ _ _ Hf).
      - intros j s f Hs Hj. exact (@planeForwardBody_ok _ _ _ _ _ _ Hs Hj).
      - split; left; reflexivity. }
    assert (H2 : P b2).
    { refine (@for_loop_invariant _ P _ _ _ _ _ H1 Hb).
      intros j s f Hs Hj. exact (@planeBackwardBody_ok _ _ _ _ _ _ Hs Hj). }
    right. split; [eauto|]. destruct H2 as [Ha Hb']. split.
    + destruct Ha as [Ha|Ha]; [left|right]; exact Ha.
    + destruct Hb' as [Hb'|Hb']; [left|right]; exact Hb'.
Qed.

(** What a corner search that read inside the cloud has found, on the ring
    numbers of a lidar: a second point one or two rings away from the first
    one, at a squared distance below 25 from the reprojected query. *)
Lemma corner_result_in_ring_window (sp : float) (tr : Transform)
    (kdtree lastCorner : cloud) (num : nat) (pt : PointXYZI) (i1 i2 : Z) :
  findCornerCorrespondence_point E sp tr kdtree lastCorner num pt = Ok (i1, i2) ->
  (0 <= i2)%Z ->
  Forall (fun p => (-128 <= scanIdOf p <= 128)%Z) lastCorner ->
  exists p1 p2,
    at_index lastCorner i1 = Ok p1
    /\ at_index lastCorner i2 = Ok p2
    /\ inRingWindow (scanIdOf p1) (scanIdOf p2)
    /\ scanIdOf p1 <> scanIdOf p2
    /\ (calcSquaredDiff E p2 (transformToStart E sp tr pt) <? f_25_0) = true.
Proof.
  intros Hpt Hpos Hrings.
  apply findCornerCorrespondence_point_sound in Hpt
    as [Hm|[p1 [p2 [H1 [H2 [Hring H25]]]]]]; [lia|].
  exists p1, p2.
  assert (Hin : forall i p, at_index lastCorner i = Ok p ->
                            (-128 <= scanIdOf p <= 128)%Z).
  { intros i p Hi. apply at_index_Ok in Hi as [_ Hnth].
    apply nth_error_In in Hnth. rewrite Forall_forall in Hrings.
    exact (Hrings p Hnth). }
  pose proof (passesRingTests_window (Hin _ _ H1) (Hin _ _ H2) Hring) as Hw.
  split; [exact H1|]. split; [exact H2|]. split; [exact Hw|].
  split; [|exact H25].
  intros Heq. unfold inRingWindow in Hw. lia.
Qed.

(** *** When the searches return

    The searches return as soon as the k-d tree answers with a position of
    the reference cloud and the current sweep has no more feature points
    than the reference cloud has points. *)
Lemma findCornerCorrespondence_point_returns (sp : float) (tr : Transform)
    (kdtree lastCorner : cloud) (num : nat) (pt : PointXYZI) :
  (forall q c d, nearestKSearch E kdtree q = (c, d) -> (d >=? f_25_0) = false ->
                 (0 <= c < Z.of_nat (length lastCorner))%Z) ->
  (num <= length lastCorner)%nat ->
  exists r, findCornerCorrespondence_point E sp tr kdtree lastCorner num pt = Ok r.
Proof.
  intros Hkd Hnum. unfold findCornerCorrespondence_point.
  set (q := transformToStart E sp tr pt).
  destruct (nearestKSearch E kdtree q) as [c d] eqn:Hq.
  destruct (d >=? f_25_0) eqn:Hd; [eauto|].
  pose proof (Hkd q c d Hq Hd) as Hc.
  destruct (@at_index_in_range _ lastCorner c Hc) as [p1 ->]. simpl.
  destruct (@for_loop_returns _
              (cornerForwardBody E lastCorner q (scanIdOf p1))
              (upto (c + 1) num)) with (st := no_candidate) as [b1 ->].
  { intros j s Hj. apply upto_spec in Hj. unfold cornerForwardBody.
    destruct (@at_index_in_range _ lastCorner j) as [p ->]; [lia|]. simpl.
    destruct (_ >? _); [eauto|]. destruct (_ <=? _)%Z; eauto. }
  simpl.
  destruct (@for_loop_returns _
              (cornerBackwardBody E lastCorner q (scanIdOf p1))
              (downfrom (c - 1))) with (st := b1) as [b2 ->].
  { intros j s Hj. apply downfrom_spec in Hj. unfold cornerBackwardBody.
    destruct (@at_index_in_range _ lastCorner j) as [p ->]; [lia|]. simpl.
    destruct (_ <? _); [eauto|]. destruct (_ >=? _)%Z; eauto. }
  simpl. eauto.
Qed.

Lemma findPlaneCorrespondence_point_returns (sp : float) (tr : Transform)
    (kdtree lastSurface : cloud) (num : nat) (pt : PointXYZI) :
  (forall q c d, nearestKSearch E kdtree q = (c, d) -> (d >=? f_25_0) = false ->
                 (0 <= c < Z.of_nat (length lastSurface))%Z) ->
  (num <= length lastSurface)%nat ->
  exists r, findPlaneCorrespondence_point E sp tr kdtree lastSurface num pt = Ok r.
Proof.
  intros Hkd Hnum. unfold findPlaneCorrespondence_point.
  set (q := transformToStart E sp tr pt).
  destruct (nearestKSearch E kdtree q) as [c d] eqn:Hq.
  destruct (d >=? f_25_0) eqn:Hd; [eauto|].
  pose proof (Hkd q c d Hq Hd) as Hc.
  destruct (@at_index_in_range _ lastSurface c Hc) as [p1 ->]. simpl.
  destruct (@for_loop_returns _
              (planeForwardBody E lastSurface q (scanIdOf p1))
              (upto (c + 1) num)) with (st := (no_candidate, no_candidate))
    as [b1 ->].
  { intros j s Hj. apply upto_spec in Hj. unfold planeForwardBody.
    destruct (@at_index_in_range _ lastSurface j) as [p ->]; [lia|]. simpl.
    destruct (_ >? _); [eauto|]. destruct (_ <=? _)%Z; eauto. }
  simpl.
  destruct (@for_loop_returns _
              (planeBackwardBody E lastSurface q (scanIdOf p1))
              (downfrom (c - 1))) with (st := b1) as [b2 ->].
  { intros j s Hj. apply downfrom_spec in Hj. unfold planeBackwardBody.
    destruct (@at_index_in_range _ lastSurface j) as [p ->]; [lia|]. simpl.
    destruct (_ <? _); [eauto|]. destruct (_ >=? _)%Z; eauto. }
  simpl. eauto.
Qed.

(** Both searches of an engine return under these conditions. *)
Lemma correspondence_searches_return (e : BasicLaserOdometry) :
  let lastCorner := removeNaNFromPointCloud E (lastCornerCloud e) in
  (forall q c d, nearestKSearch E (lastCornerKDTree e) q = (c, d) ->
                 (d >=? f_25_0) = false ->
                 (0 <= c < Z.of_nat (length lastCorner))%Z) ->
  (forall q c d, nearestKSearch E (lastSurfaceKDTree e) q = (c, d) ->
                 (d >=? f_25_0) = false ->
                 (0 <= c < Z.of_nat (length (lastSurfaceCloud e)))%Z) ->
  (length (cornerPointsSharp e) <= length lastCorner)%nat ->
  (length (surfPointsFlat e) <= length (lastSurfaceCloud e))%nat ->
  exists ec ep,
    findCornerCorrespondence E e = Ok ec
    /\ findPlaneCorrespondence E ec = Ok ep.
Proof.
  intros lastCorner Hkc Hks Hnc Hns.
  destruct (@for_each_returns _ _
              (findCornerCorrespondence_point E (scanPeriod e) (transform e)
                 (lastCornerKDTree e) lastCorner (length (cornerPointsSharp e)))
              (cornerPointsSharp e)) as [pairs Hpairs].
  { intros pt _. apply findCornerCorrespondence_point_returns; assumption. }
  destruct (@for_each_returns _ _
              (findPlaneCorrespondence_point E (scanPeriod e) (transform e)
                 (lastSurfaceKDTree e) (lastSurfaceCloud e)
                 (length (surfPointsFlat e)))
              (surfPointsFlat e)) as [triples Htriples].
  { intros pt _. apply findPlaneCorrespondence_point_returns; assumption. }
  eexists. eexists. split.
  - unfold findCornerCorrespondence. fold lastCorner. rewrite Hpairs.
    reflexivity.
  - unfold findPlaneCorrespondence. cbn. rewrite Htriples. reflexivity.
Qed.

(** *** The index vectors after the two searches *)

Lemma corner_indices_sound (e ec : BasicLaserOdometry) (i ind2 : Z) :
  findCornerCorrespondence E e = Ok ec ->
  at_index (pointSearchCornerInd2 (corr ec)) i = Ok ind2 ->
  (0 <= ind2)%Z ->
  exists ind1 p1 p2,
    at_index (pointSearchCornerInd1 (corr ec)) i = Ok ind1
    /\ at_index (lastCornerCloud ec) ind1 = Ok p1
    /\ at_index (lastCornerCloud ec) ind2 = Ok p2.
Proof.
  intros Hfind Hi Hpos.
  apply findCornerCorrespondence_shape in Hfind as [pairs [Hpairs ->]].
  cbn [corr set_corr pointSearchCornerInd1 pointSearchCornerInd2
       lastCornerCloud set_lastCornerCloud] in *.
  apply at_index_map in Hi as [[i1 i2] [Hi ->]]. cbn [snd] in Hpos.
  pose proof (@at_index_map_Ok _ _ fst _ _ _ Hi) as Hi1. cbn [fst] in Hi1.
  apply at_index_Ok in Hi as [_ Hnth].
  apply for_each_Ok in Hpairs.
  destruct (@Forall2_nth_error _ _ _ _ _ Hpairs _ _ Hnth) as [pt [_ Hpt]].
  apply findCornerCorrespondence_point_sound in Hpt
    as [Hm|[p1 [p2 [H1 [H2 _]]]]].
  - cbn [snd] in Hm. lia.
  - exists i1, p1, p2. cbn [snd]. repeat split; assumption.
Qed.

Lemma plane_indices_sound (e ep : BasicLaserOdometry) (i ind2 ind3 : Z) :
  findPlaneCorrespondence E e = Ok ep ->
  at_index (pointSearchSurfInd2 (corr ep)) i = Ok ind2 ->
  at_index (pointSearchSurfInd3 (corr ep)) i = Ok ind3 ->
  (0 <= ind2)%Z -> (0 <= ind3)%Z ->
  exists ind1 p1 p2 p3,
    at_index (pointSearchSurfInd1 (corr ep)) i = Ok ind1
    /\ at_index (lastSurfaceCloud ep) ind1 = Ok p1
    /\ at_index (lastSurfaceCloud ep) ind2 = Ok p2
    /\ at_index (lastSurfaceCloud ep) ind3 = Ok p3.
Proof.
  intros Hfind Hi2 Hi3 Hpos2 Hpos3.
  apply findPlaneCorrespondence_shape in Hfind as [triples [Htriples ->]].
  cbn [corr set_corr pointSearchSurfInd1 pointSearchSurfInd2
       pointSearchSurfInd3 lastSurfaceCloud] in *.
  apply at_index_map in Hi2 as [[[i1 i2] i3] [Hi ->]].
  apply at_index_map in Hi3 as [t' [Hi' ->]].
  rewrite Hi in Hi'. injection Hi' as <-. cbn [fst snd] in *.
  pose proof (@at_index_map_Ok _ _ (fun t : Z * Z * Z => fst (fst t)) _ _ _ Hi)
    as Hi1. cbn [fst] in Hi1.
  apply at_index_Ok in Hi as [_ Hnth].
  apply for_each_Ok in Htriples.
  destruct (@Forall2_nth_error _ _ _ _ _ Htriples _ _ Hnth) as [pt [_ Hpt]].
  apply findPlaneCorrespondence_point_sound in Hpt
    as [[_ [Hm _]]|[[p1 H1] [[Hm|[p2 H2]] [Hm'|[p3 H3]]]]];
    cbn [fst] in *; try lia.
  exists i1, p1, p2, p3. repeat split; assumption.
Qed.

Lemma findCornerCorrespondence_lengths (e ec : BasicLaserOdometry) :
  findCornerCorrespondence E e = Ok ec ->
  length (pointSearchCornerInd2 (corr ec)) = length (cornerPointsSharp ec).
Proof.
  intros Hfind.
  apply findCornerCorrespondence_shape in Hfind as [pairs [Hpairs ->]].
  cbn. rewrite length_map. apply for_each_Ok in Hpairs.
  exact (@Forall2_length_eq _ _ _ _ _ Hpairs).
Qed.

Lemma findPlaneCorrespondence_lengths (e ep : BasicLaserOdometry) :
  findPlaneCorrespondence E e = Ok ep ->
  length (pointSearchSurfInd2 (corr ep)) = length (surfPointsFlat ep)
  /\ length (pointSearchSurfInd3 (corr ep)) = length (surfPointsFlat ep).
Proof.
  intros Hfind.
  apply findPlaneCorrespondence_shape in Hfind as [triples [Htriples ->]].
  cbn. rewrite !length_map. apply for_each_Ok in Htriples.
  split; exact (@Forall2_length_eq _ _ _ _ _ Htriples).
Qed.

Lemma findPlaneCorrespondence_keeps_corners (e ep : BasicLaserOdometry) :
  findPlaneCorrespondence E e = Ok ep ->
  pointSearchCornerInd1 (corr ep) = pointSearchCornerInd1 (corr e)
  /\ pointSearchCornerInd2 (corr ep) = pointSearchCornerInd2 (corr e)
  /\ lastCornerCloud ep = lastCornerCloud e
  /\ cornerPointsSharp ep = cornerPointsSharp e.
Proof.
  intros Hfind.
  apply findPlaneCorrespondence_shape in Hfind as [triples [_ ->]].
  repeat split; reflexivity.
Qed.

End Search.

(** C5 at a failing input.  The sharp point at [x = 2] on the middle ring has
    the reference point 8 as its closest point.  The forward scan is bounded
    by the number of sharp points, 3, and does not run; the backward scan
    settles on point 2 of ring 0, at squared distance 4.  Point 14 of ring 2,
    one ring away from ring 1 and at squared distance 1, is never looked
    at. *)
Lemma corner_search_misses_closer_point :
  let q := transformToStart Examples.R (scanPeriod Examples.ridge)
             (transform Examples.ridge) (Examples.pt 2 0 2 1) in
  length (cornerPointsSharp Examples.ridge) = 3%nat
  /\ length (lastCornerCloud Examples.ridge) = 18%nat
  /\ (exists ec,
        findCornerCorrespondence Examples.R Examples.ridge = Ok ec
        /\ pointSearchCornerInd1 (corr ec) = [8; -1; -1]%Z
        /\ pointSearchCornerInd2 (corr ec) = [2; -1; -1]%Z)
  /\ (exists p8 p2 p14,
        at_index Examples.threeRings 8 = Ok p8
        /\ at_index Examples.threeRings 2 = Ok p2
        /\ at_index Examples.threeRings 14 = Ok p14
        /\ scanIdOf p8 = 1%Z /\ scanIdOf p2 = 0%Z /\ scanIdOf p14 = 2%Z
        /\ calcSquaredDiff Examples.R p2 q = Examples.fz 4
        /\ calcSquaredDiff Examples.R p14 q = Examples.fz 1
        /\ F32.ltb (calcSquaredDiff Examples.R p14 q)
                   (calcSquaredDiff Examples.R p2 q) = true).
Proof.
  cbv zeta. split; [reflexivity|]. split; [reflexivity|]. split.
  - destruct (findCornerCorrespondence Examples.R Examples.ridge)
      as [ec|] eqn:Hc; [|vm_compute in Hc; discriminate Hc].
    exists ec. split; [reflexivity|].
    vm_compute in Hc. injection Hc as <-. split; reflexivity.
  - exists (Examples.pt 2 0 2 1), (Examples.pt 2 0 0 0), (Examples.pt 2 0 3 2).
    vm_compute. repeat split; reflexivity.
Qed.

(** C6 at a failing input.  After a first sweep that leaves 11 reference
    corner points and 101 reference surface points, a sweep with 12 sharp
    points next to the last corner point makes the forward scan of
    [findCornerCorrespondence] read position 11 of the 11 corner points, and
    102 flat points next to the last surface point make the forward scan of
    [findPlaneCorrespondence] read position 101 of the 101 surface points;
    [process] itself stops at the first of these reads. *)
Lemma forward_scan_reads_past_reference_cloud :
  exists e,
    process Examples.R Examples.firstSweep = Ok e
    /\ length (lastCornerCloud e) = 11%nat
    /\ length (lastSurfaceCloud e) = 101%nat
    /\ length (cornerPointsSharp (Examples.secondSweep e)) = 12%nat
    /\ length (surfPointsFlat (Examples.secondSweep e)) = 102%nat
    /\ findCornerCorrespondence Examples.R (Examples.secondSweep e)
       = OutOfBounds 11 11
    /\ findPlaneCorrespondence Examples.R (Examples.secondSweep e)
       = OutOfBounds 101 101
    /\ process Examples.R (Examples.secondSweep e) = OutOfBounds 11 11.
Proof.
  destruct (process Examples.R Examples.firstSweep) as [e|] eqn:He;
    [|vm_compute in He; discriminate He].
  exists e. split; [reflexivity|].
  vm_compute in He. injection He as <-.
  repeat split; vm_compute; reflexivity.
Qed.


(** ** The sweep pipeline *)

Section Pipeline.

Variable E : Externals.

Local Open Scope f32_scope.

(** C8.  The first call to [process], on an engine that is not initialised
    and whose cumulative pose is still the default one, returns without
    optimising: the incremental transform, the correspondences, the selection
    buffers and the frame count are untouched; the less-sharp and less-flat
    clouds become the reference clouds and both k-d trees are built on them;
    the cumulative pose has the Angle of [0 + pitch] as [rot_x] and of
    [0 + roll] as [rot_z], with pitch and roll the IMU start attitude, and
    keeps a zero [rot_y] and a zero translation; the engine is initialised
    when the call returns. *)
Theorem first_sweep_bootstraps (e : BasicLaserOdometry) :
  systemInited e = false ->
  transformSum e = Transform_zero ->
  exists e',
    process E e = Ok e'
    /\ systemInited e' = true
    /\ transform e' = transform e
    /\ frameCount e' = frameCount e
    /\ corr e' = corr e
    /\ laserCloudOri e' = laserCloudOri e
    /\ coeffSel e' = coeffSel e
    /\ lastCornerCloud e' = cornerPointsLessSharp e
    /\ lastSurfaceCloud e' = surfPointsLessFlat e
    /\ lastCornerKDTree e' = cornerPointsLessSharp e
    /\ lastSurfaceKDTree e' = surfPointsLessFlat e
    /\ rot_x (transformSum e')
       = Angle_of E (F32.zero + rad (imuPitchStart (imu e)))
    /\ rot_z (transformSum e')
       = Angle_of E (F32.zero + rad (imuRollStart (imu e)))
    /\ rot_y (transformSum e') = Angle_zero
    /\ pos (transformSum e') = mkVec F32.zero F32.zero F32.zero.
Proof.
  intros Hinit Hsum. exists (processFirst E e).
  unfold process. rewrite Hinit. simpl. split; [reflexivity|].
  unfold processFirst. simpl. rewrite Hsum. simpl.
  repeat split; reflexivity.
Qed.

(** X13.  On the first call of an engine whose cumulative pose is the
    default one, the pitch and roll that seed the pose are the IMU's start
    pitch and roll exactly, whatever their value - NaN and the infinities
    included - except that a negative zero is seeded as a positive zero. *)
Lemma first_sweep_seed (e : BasicLaserOdometry) :
  systemInited e = false ->
  transformSum e = Transform_zero ->
  rad (imuPitchStart (imu e)) <> S754_zero true ->
  rad (imuRollStart (imu e)) <> S754_zero true ->
  process E e
  = Ok (processFirst E e)
  /\ rot_x (transformSum (processFirst E e))
     = Angle_of E (rad (imuPitchStart (imu e)))
  /\ rot_z (transformSum (processFirst E e))
     = Angle_of E (rad (imuRollStart (imu e))).
Proof.
  intros Hinit Hsum Hp Hr.
  split; [unfold process; rewrite Hinit; reflexivity|].
  assert (Hx : rot_x (transformSum (processFirst E e))
               = Angle_of E (F32.zero + rad (imuPitchStart (imu e))))
    by (unfold processFirst; simpl; rewrite Hsum; reflexivity).
  assert (Hz : rot_z (transformSum (processFirst E e))
               = Angle_of E (F32.zero + rad (imuRollStart (imu e))))
    by (unfold processFirst; simpl; rewrite Hsum; reflexivity).
  rewrite Hx, Hz, (zero_add Hp), (zero_add Hr). split; reflexivity.
Qed.

End Pipeline.

(** The hypotheses of C8 are met by the engine as constructed, once it was
    given the clouds and the IMU summary of a first sweep: the pose is seeded
    with a pitch of 1/8 and a roll of 1/2, the yaw of 1/4 is not used. *)
Lemma first_sweep_bootstraps_witness :
  exists e',
    process Examples.R Examples.beforeFirstSweep = Ok e'
    /\ systemInited e' = true
    /\ length (lastCornerCloud e') = 11%nat
    /\ length (lastSurfaceCloud e') = 101%nat
    /\ rad (rot_x (transformSum e')) = F32.lit 1 8
    /\ rad (rot_y (transformSum e')) = F32.zero
    /\ rad (rot_z (transformSum e')) = F32.lit 1 2.
Proof.
  destruct (@first_sweep_bootstraps Examples.R Examples.beforeFirstSweep
              eq_refl eq_refl)
    as [e' [Hp [Hi [_ [_ [_ [_ [_ [Hc [Hs [_ [_ [Hx [Hz [Hy _]]]]]]]]]]]]]]].
  exists e'. split; [exact Hp|]. split; [exact Hi|].
  rewrite Hc, Hs, Hx, Hy, Hz. repeat split; vm_compute; reflexivity.
Defined.

(** ** The selection stage of an iteration *)

Section Selection.

Variable E : Externals.

Local Open Scope f32_scope.

Lemma indexed_In_snd {A : Type} (l : list A) (i : Z) (a : A) :
  In (i, a) (indexed l) -> In a l.
Proof.
  intros H. apply indexed_In in H. apply at_index_Ok in H as [_ H].
  exact (nth_error_In _ _ H).
Qed.

Lemma indexed_length {A : Type} (l : list A) : length (indexed l) = length l.
Proof.
  unfold indexed. rewrite length_combine, length_map, length_seq.
  apply Nat.min_id.
Qed.

Lemma pushed_length {A : Type} (l : list (option A)) :
  (length (pushed l) <= length l)%nat.
Proof. induction l as [|[a|] l IH]; simpl; lia. Qed.

Lemma pushed_In {A : Type} (l : list (option A)) (a : A) :
  In a (pushed l) -> In (Some a) l.
Proof.
  induction l as [|[b|] l IH]; simpl; [tauto| |auto].
  intros [->|H]; auto.
Qed.

Lemma Forall2_In_r {A B : Type} (R : A -> B -> Prop) (l : list A)
    (l' : list B) (b : B) :
  Forall2 R l l' -> In b l' -> exists a, In a l /\ R a b.
Proof.
  induction 1 as [|a b0 l l' Hab _ IH]; simpl; [tauto|].
  intros [->|H]; [eauto|]. destruct (IH H) as [a' [Ha' HR]]. eauto.
Qed.

(** A residual builder stores a feature point only under its own name. *)
Lemma computeCornerDistances_point_Some (e : BasicLaserOdometry) (k : Z)
    (ip : Z * PointXYZI) (pc : PointXYZI * PointXYZI) :
  computeCornerDistances_point E e k ip = Ok (Some pc) -> fst pc = snd ip.
Proof.
  destruct ip as [i pt]. unfold computeCornerDistances_point.
  destruct (cornerTripods e i) as [[[t1 t2]|]|]; simpl; try discriminate.
  unfold stored. destruct (discarded _); [discriminate|].
  intros H. injection H as <-. reflexivity.
Qed.

Lemma computePlaneDistances_point_Some (e : BasicLaserOdometry) (k : Z)
    (ip : Z * PointXYZI) (pc : PointXYZI * PointXYZI) :
  computePlaneDistances_point E e k ip = Ok (Some pc) -> fst pc = snd ip.
Proof.
  destruct ip as [i pt]. unfold computePlaneDistances_point.
  destruct (planeTripods e i) as [[[[t1 t2] t3]|]|]; simpl; try discriminate.
  unfold stored. destruct (discarded _); [discriminate|].
  intros H. injection H as <-. reflexivity.
Qed.

(** What a residual builder leaves: the engine after the refresh of the
    correspondences, if it was due, with the stored pairs appended. *)
Lemma computeCornerDistances_shape (k : Z) (e e' : BasicLaserOdometry) :
  computeCornerDistances E k e = Ok e' ->
  exists e1 ps,
    (if (Z.rem k 5 =? 0)%Z then findCornerCorrespondence E e = Ok e1 else e1 = e)
    /\ for_each (computeCornerDistances_point E e1 k)
                (indexed (cornerPointsSharp e1)) = Ok ps
    /\ e' = push_all e1 (pushed ps).
Proof.
  unfold computeCornerDistances. destruct (Z.rem k 5 =? 0)%Z.
  - destruct (findCornerCorrespondence E e) as [e1|]; simpl; [|discriminate].
    destruct (for_each _ _) as [ps|] eqn:Hps; simpl; [|discriminate].
    intros H. injection H as <-. exists e1, ps. auto.
  - simpl. destruct (for_each _ _) as [ps|] eqn:Hps; simpl; [|discriminate].
    intros H. injection H as <-. exists e, ps. auto.
Qed.

Lemma computePlaneDistances_shape (k : Z) (e e' : BasicLaserOdometry) :
  computePlaneDistances E k e = Ok e' ->
  exists e1 ps,
    (if (Z.rem k 5 =? 0)%Z then findPlaneCorrespondence E e = Ok e1 else e1 = e)
    /\ for_each (computePlaneDistances_point E e1 k)
                (indexed (surfPointsFlat e1)) = Ok ps
    /\ e' = push_all e1 (pushed ps).
Proof.
  unfold computePlaneDistances. destruct (Z.rem k 5 =? 0)%Z.
  - destruct (findPlaneCorrespondence E e) as [e1|]; simpl; [|discriminate].
    destruct (for_each _ _) as [ps|] eqn:Hps; simpl; [|discriminate].
    intros H. injection H as <-. exists e1, ps. auto.
  - simpl. destruct (for_each _ _) as [ps|] eqn:Hps; simpl; [|discriminate].
    intros H. injection H as <-. exists e, ps. auto.
Qed.

(** The refresh of the corner correspondences writes the two corner index
    vectors and filters the reference corner cloud; nothing else. *)
Lemma cornerRefresh_frame (k : Z) (e e1 : BasicLaserOdometry) :
  (if (Z.rem k 5 =? 0)%Z then findCornerCorrespondence E e = Ok e1 else e1 = e) ->
  solverFrame e1 = solverFrame e
  /\ transform e1 = transform e
  /\ laserCloudOri e1 = laserCloudOri e
  /\ coeffSel e1 = coeffSel e
  /\ pointSearchSurfInd1 (corr e1) = pointSearchSurfInd1 (corr e)
  /\ pointSearchSurfInd2 (corr e1) = pointSearchSurfInd2 (corr e)
  /\ pointSearchSurfInd3 (corr e1) = pointSearchSurfInd3 (corr e).
Proof.
  destruct (Z.rem k 5 =? 0)%Z.
  - intros H. apply findCornerCorrespondence_shape in H as [pairs [_ ->]].
    repeat split; reflexivity.
  - intros ->. repeat split; reflexivity.
Qed.

Lemma planeRefresh_frame (k : Z) (e e1 : BasicLaserOdometry) :
  (if (Z.rem k 5 =? 0)%Z then findPlaneCorrespondence E e = Ok e1 else e1 = e) ->
  solverFrame e1 = solverFrame e
  /\ transform e1 = transform e
  /\ laserCloudOri e1 = laserCloudOri e
  /\ coeffSel e1 = coeffSel e
  /\ lastCornerCloud e1 = lastCornerCloud e
  /\ pointSearchCornerInd1 (corr e1) = pointSearchCornerInd1 (corr e)
  /\ pointSearchCornerInd2 (corr e1) = pointSearchCornerInd2 (corr e).
Proof.
  destruct (Z.rem k 5 =? 0)%Z.
  - intros H. apply findPlaneCorrespondence_shape in H as [triples [_ ->]].
    repeat split; reflexivity.
  - intros ->. repeat split; reflexivity.
Qed.

(** The selection stage, stage by stage. *)
Lemma selectPoints_shape (k : Z) (e e' : BasicLaserOdometry) :
  selectPoints E k e = Ok e' ->
  exists ec pc ep pp,
    (if (Z.rem k 5 =? 0)%Z
     then findCornerCorrespondence E (set_coeffSel (set_laserCloudOri e []) [])
          = Ok ec
     else ec = set_coeffSel (set_laserCloudOri e []) [])
    /\ for_each (computeCornerDistances_point E ec k)
                (indexed (cornerPointsSharp ec)) = Ok pc
    /\ (if (Z.rem k 5 =? 0)%Z
        then findPlaneCorrespondence E (push_all ec (pushed pc)) = Ok ep
        else ep = push_all ec (pushed pc))
    /\ for_each (computePlaneDistances_point E ep k)
                (indexed (surfPointsFlat ep)) = Ok pp
    /\ e' = push_all ep (pushed pp).
Proof.
  unfold selectPoints.
  destruct (computeCornerDistances E k _) as [e1|] eqn:Hc; simpl;
    [|discriminate].
  intros Hp.
  apply computeCornerDistances_shape in Hc as [ec [pc [Hec [Hpc ->]]]].
  apply computePlaneDistances_shape in Hp as [ep [pp [Hep [Hpp ->]]]].
  exists ec, pc, ep, pp. auto.
Qed.

Lemma solverFrame_fields (e1 e : BasicLaserOdometry) :
  solverFrame e1 = solverFrame e ->
  scanPeriod e1 = scanPeriod e
  /\ systemInited e1 = systemInited e
  /\ frameCount e1 = frameCount e
  /\ maxIterations e1 = maxIterations e
  /\ deltaTAbort e1 = deltaTAbort e
  /\ deltaRAbort e1 = deltaRAbort e
  /\ transformSum e1 = transformSum e
  /\ imu e1 = imu e
  /\ cornerPointsSharp e1 = cornerPointsSharp e
  /\ cornerPointsLessSharp e1 = cornerPointsLessSharp e
  /\ surfPointsFlat e1 = surfPointsFlat e
  /\ surfPointsLessFlat e1 = surfPointsLessFlat e
  /\ laserCloud e1 = laserCloud e
  /\ lastSurfaceCloud e1 = lastSurfaceCloud e
  /\ lastCornerKDTree e1 = lastCornerKDTree e
  /\ lastSurfaceKDTree e1 = lastSurfaceKDTree e.
Proof.
  unfold solverFrame. intros H. injection H. intros.
  repeat split; assumption.
Qed.

Lemma selectPoints_frame (k : Z) (e e' : BasicLaserOdometry) :
  selectPoints E k e = Ok e' -> solverFrame e' = solverFrame e.
Proof.
  intros H.
  apply selectPoints_shape in H
    as [ec [pc [ep [pp [Hec [_ [Hep [_ ->]]]]]]]].
  apply cornerRefresh_frame in Hec as [Hfc _].
  apply planeRefresh_frame in Hep as [Hfp _].
  change (solverFrame (push_all ep (pushed pp))) with (solverFrame ep).
  rewrite Hfp.
  change (solverFrame (push_all ec (pushed pc))) with (solverFrame ec).
  rewrite Hfc. reflexivity.
Qed.

(** The selected points and their coefficients, as lists of the stored
    pairs. *)
Lemma selectPoints_buffers (k : Z) (e e' : BasicLaserOdometry) :
  selectPoints E k e = Ok e' ->
  exists ec pc ep pp,
    for_each (computeCornerDistances_point E ec k)
             (indexed (cornerPointsSharp e)) = Ok pc
    /\ for_each (computePlaneDistances_point E ep k)
                (indexed (surfPointsFlat e)) = Ok pp
    /\ laserCloudOri e' = map fst (pushed pc) ++ map fst (pushed pp)
    /\ coeffSel e' = map snd (pushed pc) ++ map snd (pushed pp).
Proof.
  intros H.
  apply selectPoints_shape in H
    as [ec [pc [ep [pp [Hec [Hpc [Hep [Hpp ->]]]]]]]].
  pose proof (cornerRefresh_frame _ _ _ Hec)
    as [Hfc [_ [Hoc [Hcc _]]]].
  pose proof (planeRefresh_frame _ _ _ Hep)
    as [Hfp [_ [Hop [Hcp _]]]].
  apply solverFrame_fields in Hfc
    as [_ [_ [_ [_ [_ [_ [_ [_ [Hsharp [_ [Hflatc _]]]]]]]]]]].
  apply solverFrame_fields in Hfp
    as [_ [_ [_ [_ [_ [_ [_ [_ [_ [_ [Hflat _]]]]]]]]]]].
  cbn [push_all surfPointsFlat cornerPointsSharp laserCloudOri coeffSel
       set_coeffSel set_laserCloudOri] in *.
  exists ec, pc, ep, pp.
  rewrite Hsharp in Hpc. rewrite Hflat, Hflatc in Hpp.
  split; [exact Hpc|]. split; [exact Hpp|].
  rewrite Hop, Hcp, Hoc, Hcc. split; reflexivity.
Qed.

(** X1.  Whatever the selection buffers held before, after the selection stage of
    an iteration [_laserCloudOri] and [_coeffSel] have the same length, at
    most the number of feature points of the sweep, and every selected point
    is a sharp corner point or a flat surface point of the sweep. *)
Theorem selected_points_are_feature_points
    (iterCount : Z) (e e' : BasicLaserOdometry) :
  selectPoints E iterCount e = Ok e' ->
  length (laserCloudOri e') = length (coeffSel e')
  /\ (length (laserCloudOri e')
      <= length (cornerPointsSharp e) + length (surfPointsFlat e))%nat
  /\ (forall p, In p (laserCloudOri e') ->
                In p (cornerPointsSharp e) \/ In p (surfPointsFlat e)).
Proof.
  intros H.
  apply selectPoints_buffers in H
    as [ec [pc [ep [pp [Hpc [Hpp [-> ->]]]]]]].
  apply for_each_Ok in Hpc. apply for_each_Ok in Hpp.
  pose proof (@Forall2_length_eq _ _ _ _ _ Hpc) as Hlc.
  pose proof (@Forall2_length_eq _ _ _ _ _ Hpp) as Hlp.
  rewrite indexed_length in Hlc, Hlp.
  pose proof (pushed_length pc). pose proof (pushed_length pp).
  split; [rewrite !length_app, !length_map; reflexivity|]. split.
  - rewrite length_app, !length_map. lia.
  - intros p Hin. apply in_app_or in Hin as [Hin|Hin];
      apply in_map_iff in Hin as [pc0 [<- Hin]]; apply pushed_In in Hin.
    + destruct (@Forall2_In_r _ _ _ _ _ _ Hpc Hin) as [[i pt] [Hip Hpt]].
      apply computeCornerDistances_point_Some in Hpt. rewrite Hpt.
      left. exact (indexed_In_snd _ _ _ Hip).
    + destruct (@Forall2_In_r _ _ _ _ _ _ Hpp Hin) as [[i pt] [Hip Hpt]].
      apply computePlaneDistances_point_Some in Hpt. rewrite Hpt.
      right. exact (indexed_In_snd _ _ _ Hip).
Qed.

(** X2.  The correspondences are searched again only in the iterations whose count
    is a multiple of 5.  In any other iteration the five index vectors and
    the reference corner cloud are the ones the iteration started with; in an
    iteration that searches, each index vector gets one entry per feature
    point and the reference corner cloud is filtered once more.  No iteration
    writes the reference surface cloud. *)
Theorem correspondences_refreshed_every_fifth
    (iterCount : Z) (e e' : BasicLaserOdometry) :
  selectPoints E iterCount e = Ok e' ->
  lastSurfaceCloud e' = lastSurfaceCloud e
  /\ (Z.rem iterCount 5 <> 0%Z ->
      corr e' = corr e /\ lastCornerCloud e' = lastCornerCloud e)
  /\ (Z.rem iterCount 5 = 0%Z ->
      lastCornerCloud e' = removeNaNFromPointCloud E (lastCornerCloud e)
      /\ length (pointSearchCornerInd1 (corr e')) = length (cornerPointsSharp e)
      /\ length (pointSearchCornerInd2 (corr e')) = length (cornerPointsSharp e)
      /\ length (pointSearchSurfInd1 (corr e')) = length (surfPointsFlat e)
      /\ length (pointSearchSurfInd2 (corr e')) = length (surfPointsFlat e)
      /\ length (pointSearchSurfInd3 (corr e')) = length (surfPointsFlat e)).
Proof.
  intros H.
  apply selectPoints_shape in H
    as [ec [pc [ep [pp [Hec [_ [Hep [_ ->]]]]]]]].
  destruct (Z.rem iterCount 5 =? 0)%Z eqn:Hk.
  - apply Z.eqb_eq in Hk.
    apply findCornerCorrespondence_shape in Hec as [pairs [Hpairs ->]].
    apply findPlaneCorrespondence_shape in Hep as [triples [Htriples ->]].
    apply for_each_Ok in Hpairs. apply for_each_Ok in Htriples.
    pose proof (@Forall2_length_eq _ _ _ _ _ Hpairs) as Hlc.
    pose proof (@Forall2_length_eq _ _ _ _ _ Htriples) as Hlp.
    cbn in Hlc, Hlp. cbn.
    split; [reflexivity|]. split; [intros Hn; contradiction|].
    intros _. rewrite !length_map.
    repeat split; assumption.
  - apply Z.eqb_neq in Hk. subst ep ec. cbn.
    split; [reflexivity|]. split; [intros _; split; reflexivity|].
    intros Hz. contradiction.
Qed.

End Selection.

(** The hypothesis of the two theorems on the selection stage is met by the
    first iteration over the three rings and the floor: the three plane
    triples are stored (the corner pair, at distance zero, is not), of a sweep
    with six feature points. *)
Lemma selected_points_are_feature_points_witness :
  exists e',
    selectPoints Examples.R 0 Examples.ridge = Ok e'
    /\ length (laserCloudOri e') = 3%nat
    /\ length (coeffSel e') = 3%nat
    /\ (forall p, In p (laserCloudOri e') ->
                  In p Examples.threeSharp \/ In p (repeat (Examples.pt 0 0 0 1) 3)).
Proof.
  destruct (selectPoints Examples.R 0 Examples.ridge) as [e'|] eqn:Hsel;
    [|vm_compute in Hsel; discriminate Hsel].
  exists e'. split; [reflexivity|].
  destruct (@selected_points_are_feature_points Examples.R 0 Examples.ridge
              e' Hsel) as [Hlen [_ Hin]].
  assert (H4 : length (laserCloudOri e') = 3%nat).
  { apply (f_equal (fun o => match o with
                             | Ok e => length (laserCloudOri e)
                             | OutOfBounds _ _ => 0%nat
                             end)) in Hsel.
    vm_compute in Hsel. symmetry. exact Hsel. }
  split; [exact H4|]. split; [rewrite <- Hlen; exact H4|]. exact Hin.
Defined.

Lemma correspondences_refreshed_every_fifth_witness :
  exists e' e'',
    selectPoints Examples.R 0 Examples.ridge = Ok e'
    /\ selectPoints Examples.R 1 e' = Ok e''
    /\ length (pointSearchSurfInd3 (corr e')) = 3%nat
    /\ corr e'' = corr e'.
Proof.
  destruct (selectPoints Examples.R 0 Examples.ridge) as [e'|] eqn:H0;
    [|vm_compute in H0; discriminate H0].
  destruct (selectPoints Examples.R 1 e') as [e''|] eqn:H1;
    [|vm_compute in H0; injection H0 as <-; vm_compute in H1; discriminate H1].
  exists e', e''. split; [reflexivity|]. split; [exact H1|].
  destruct (@correspondences_refreshed_every_fifth Examples.R 0
              Examples.ridge e' H0) as [_ [_ Hrefresh]].
  destruct (@correspondences_refreshed_every_fifth Examples.R 1 e' e'' H1)
    as [_ [Hkeep _]].
  split.
  - destruct (Hrefresh eq_refl) as [_ [_ [_ [_ [_ H]]]]]. exact H.
  - destruct Hkeep as [H _]; [discriminate|exact H].
Defined.

(** ** The loop of [performOptimization] as a whole *)

Section Loop.

Variable E : Externals.

Local Open Scope f32_scope.

Lemma resetNonFinite_finite (tr : Transform) :
  finiteTransform (resetNonFinite tr).
Proof.
  unfold finiteTransform, resetNonFinite. simpl.
  repeat split;
    match goal with
    | |- context [negb (F32.isfinite ?x)] =>
        destruct (F32.isfinite x) eqn:Hx; simpl; [exact Hx|reflexivity]
    end.
Qed.

(** The part of an iteration after the selection assigns the transform and
    the two degeneracy locals only. *)
Lemma solveAndUpdate_engine (k : Z) (st : SolverState) (f : flow SolverState) :
  solveAndUpdate E k st = Ok f ->
  exists matX,
    engine (left_by f)
    = set_transform (engine st)
        (resetNonFinite (applyIncrement E (transform (engine st)) matX)).
Proof.
  unfold solveAndUpdate.
  destruct (degeneracyStep E k st) as [[isDeg P]|]; simpl; [|discriminate].
  intros H. eexists.
  match type of H with
  | (if ?c then _ else _) = _ => destruct c
  end; injection H as <-; reflexivity.
Qed.

Lemma iteration_engine (k : Z) (st : SolverState) (f : flow SolverState) :
  iteration E k st = Ok f ->
  exists e,
    selectPoints E k (engine st) = Ok e
    /\ (engine (left_by f) = e
        \/ exists matX,
             engine (left_by f)
             = set_transform e
                 (resetNonFinite (applyIncrement E (transform e) matX))).
Proof.
  unfold iteration.
  destruct (selectPoints E k (engine st)) as [e|]; simpl; [|discriminate].
  intros H. exists e. split; [reflexivity|].
  destruct (_ <? 10)%Z.
  - injection H as <-. left. reflexivity.
  - apply solveAndUpdate_engine in H as [matX H]. right. exists matX. exact H.
Qed.

Lemma iteration_frame (k : Z) (st : SolverState) (f : flow SolverState) :
  iteration E k st = Ok f ->
  solverFrame (engine (left_by f)) = solverFrame (engine st).
Proof.
  intros H. apply iteration_engine in H as [e [Hsel [->|[matX ->]]]].
  - exact (selectPoints_frame _ _ _ Hsel).
  - rewrite <- (selectPoints_frame _ _ _ Hsel). reflexivity.
Qed.

Lemma iteration_finite (k : Z) (st : SolverState) (f : flow SolverState) :
  iteration E k st = Ok f ->
  finiteTransform (transform (engine st)) ->
  finiteTransform (transform (engine (left_by f))).
Proof.
  intros H Hfin. apply iteration_engine in H as [e [Hsel [->|[matX ->]]]].
  - rewrite (selectPoints_transform _ _ _ Hsel). exact Hfin.
  - apply resetNonFinite_finite.
Qed.

(** The members outside the solver's state are the same after the loop,
    but for the sharp corner cloud, which is filtered before it. *)
Lemma performOptimization_frame (e e' : BasicLaserOdometry) :
  performOptimization E e = Ok e' ->
  solverFrame e'
  = solverFrame (set_cornerPointsSharp e
                   (removeNaNFromPointCloud E (cornerPointsSharp e))).
Proof.
  unfold performOptimization.
  destruct (for_loop (iteration E) (upto 0 (maxIterations e)) (solverStart E e))
    as [st|] eqn:Hloop; simpl; [|discriminate].
  intros H. injection H as <-.
  refine (@for_loop_invariant _
            (fun s => solverFrame (engine s)
                      = solverFrame (engine (solverStart E e)))
            (iteration E) _ _ _ _ eq_refl Hloop).
  intros j s f Hs Hit. rewrite (iteration_frame _ _ Hit). exact Hs.
Qed.

(** X3.  [performOptimization] assigns the incremental transform, the
    correspondences, the selection buffers and the reference corner cloud,
    and filters the sharp corner cloud once, before the loop; every other
    member of the engine - the scan period, the thresholds, the frame count,
    the cumulative pose, the IMU summary, the other feature clouds, the
    reference surface cloud and both k-d trees - is the same when it
    returns. *)
Theorem performOptimization_writes_only_solver_state
    (e e' : BasicLaserOdometry) :
  performOptimization E e = Ok e' ->
  cornerPointsSharp e' = removeNaNFromPointCloud E (cornerPointsSharp e)
  /\ scanPeriod e' = scanPeriod e
  /\ systemInited e' = systemInited e
  /\ frameCount e' = frameCount e
  /\ maxIterations e' = maxIterations e
  /\ deltaTAbort e' = deltaTAbort e
  /\ deltaRAbort e' = deltaRAbort e
  /\ transformSum e' = transformSum e
  /\ imu e' = imu e
  /\ cornerPointsLessSharp e' = cornerPointsLessSharp e
  /\ surfPointsFlat e' = surfPointsFlat e
  /\ surfPointsLessFlat e' = surfPointsLessFlat e
  /\ laserCloud e' = laserCloud e
  /\ lastSurfaceCloud e' = lastSurfaceCloud e
  /\ lastCornerKDTree e' = lastCornerKDTree e
  /\ lastSurfaceKDTree e' = lastSurfaceKDTree e.
Proof.
  intros H. apply performOptimization_frame in H.
  apply solverFrame_fields in H. cbn in H.
  destruct H as [H1 [H2 [H3 [H4 [H5 [H6 [H7 [H8 [H9 [H10 [H11 [H12
                  [H13 [H14 [H15 H16]]]]]]]]]]]]]]].
  repeat split; assumption.
Qed.

(** X4.  When [performOptimization] is entered with a finite incremental
    transform, the transform it leaves is finite as well: no rotation angle
    and no translation component is NaN or an infinity, whatever the linear
    algebra returned on the way. *)
Theorem performOptimization_keeps_transform_finite
    (e e' : BasicLaserOdometry) :
  performOptimization E e = Ok e' ->
  finiteTransform (transform e) ->
  finiteTransform (transform e').
Proof.
  unfold performOptimization.
  destruct (for_loop (iteration E) (upto 0 (maxIterations e)) (solverStart E e))
    as [st|] eqn:Hloop; simpl; [|discriminate].
  intros H Hfin. injection H as <-.
  refine (@for_loop_invariant _
            (fun s => finiteTransform (transform (engine s)))
            (iteration E) _ _ _ _ _ Hloop).
  - intros j s f Hs Hit. exact (iteration_finite _ _ Hit Hs).
  - exact Hfin.
Qed.

End Loop.

Lemma performOptimization_writes_only_solver_state_witness :
  exists e',
    performOptimization Examples.R Examples.ridge = Ok e'
    /\ cornerPointsSharp e' = Examples.threeSharp
    /\ transformSum e' = transformSum Examples.ridge
    /\ lastSurfaceKDTree e' = Examples.floorCloud.
Proof.
  destruct (performOptimization Examples.R Examples.ridge) as [e'|] eqn:Hrun;
    [|vm_compute in Hrun; discriminate Hrun].
  exists e'. split; [reflexivity|].
  destruct (@performOptimization_writes_only_solver_state Examples.R
              Examples.ridge e' Hrun)
    as [Hsharp [_ [_ [_ [_ [_ [_ [Hsum [_ [_ [_ [_ [_ [_ [_ Htree]]]]]]]]]]]]]]].
  split; [rewrite Hsharp; vm_compute; reflexivity|].
  split; [exact Hsum|]. rewrite Htree. reflexivity.
Defined.

Lemma performOptimization_keeps_transform_finite_witness :
  exists e',
    performOptimization Examples.R (Examples.aboveFloor 10) = Ok e'
    /\ finiteTransform (transform e').
Proof.
  destruct (performOptimization Examples.R (Examples.aboveFloor 10))
    as [e'|] eqn:Hrun; [|vm_compute in Hrun; discriminate Hrun].
  exists e'. split; [reflexivity|].
  apply (@performOptimization_keeps_transform_finite Examples.R
           (Examples.aboveFloor 10) e' Hrun).
  unfold finiteTransform. vm_compute. repeat split.
Defined.

(** ** Later sweeps: the steady branch of [process] *)

Section Sweep.

Variable E : Externals.

Local Open Scope f32_scope.

(** The engine when the optimisation is reached, lines 207-213. *)
Lemma processSteady_inv (e e' : BasicLaserOdometry) :
  processSteady E e = Ok e' ->
  exists eo,
    (if referenceLargeEnough e
     then performOptimization E
            (set_transform (set_frameCount e (frameCount e + 1)%Z)
                           (motionPrior e))
     else Ok (set_transform (set_frameCount e (frameCount e + 1)%Z)
                            (motionPrior e))) = Ok eo
    /\ transform e' = transform eo
    /\ frameCount e' = frameCount eo
    /\ systemInited e' = systemInited eo
    /\ scanPeriod e' = scanPeriod eo
    /\ imu e' = imu eo
    /\ corr e' = corr eo
    /\ laserCloudOri e' = laserCloudOri eo
    /\ coeffSel e' = coeffSel eo
    /\ cornerPointsSharp e' = cornerPointsSharp eo
    /\ surfPointsFlat e' = surfPointsFlat eo
    /\ lastCornerCloud e'
       = map (transformToEnd_point E (scanPeriod eo) (transform eo) (imu eo))
             (cornerPointsLessSharp eo)
    /\ lastSurfaceCloud e'
       = map (transformToEnd_point E (scanPeriod eo) (transform eo) (imu eo))
             (surfPointsLessFlat eo)
    /\ cornerPointsLessSharp e' = lastCornerCloud eo
    /\ surfPointsLessFlat e' = lastSurfaceCloud eo
    /\ (referenceLargeEnough e' = true -> treesMatch e')
    /\ (referenceLargeEnough e' = false ->
        lastCornerKDTree e' = lastCornerKDTree eo
        /\ lastSurfaceKDTree e' = lastSurfaceKDTree eo).
Proof.
  unfold processSteady.
  change (referenceLargeEnough
            (set_transform (set_frameCount e (frameCount e + 1)%Z) _))
    with (referenceLargeEnough e).
  match goal with
  | |- bind ?m _ = _ -> _ => change m with
      (if referenceLargeEnough e
       then performOptimization E
              (set_transform (set_frameCount e (frameCount e + 1)%Z)
                             (motionPrior e))
       else Ok (set_transform (set_frameCount e (frameCount e + 1)%Z)
                              (motionPrior e)));
      destruct (if referenceLargeEnough e
       then performOptimization E
              (set_transform (set_frameCount e (frameCount e + 1)%Z)
                             (motionPrior e))
       else Ok (set_transform (set_frameCount e (frameCount e + 1)%Z)
                              (motionPrior e))) as [eo|] eqn:Hopt
  end; [|discriminate].
  cbv beta iota zeta delta [bind].
  destruct (accumulateRotation _ _ _ _ _ _ _) as [[rx ry] rz].
  destruct (pluginIMURotation _ _ _ _ _ _ _ _ _ _) as [[rx' ry'] rz'].
  match goal with
  | |- (if referenceLargeEnough ?e1 then _ else _) = _ -> _ =>
      destruct (referenceLargeEnough e1) eqn:Hbig
  end; intros H; injection H as <-; exists eo;
    (split; [reflexivity|]);
    unfold treesMatch, referenceLargeEnough in *;
    cbn in *; unfold transformToEnd; cbn;
    repeat split; try reflexivity; try congruence.
Qed.

(** X5.  A later call to [process] that returns has counted one more
    frame and rolled the clouds over: the reference clouds of the next sweep
    are the less-sharp and less-flat clouds of this one, every point moved to
    the end of the sweep under the increment the call leaves in
    [_transform]; the less-flat cloud holds the previous reference surface
    cloud, which the optimisation never writes; the sharp and the flat
    clouds are kept, the sharp one filtered if the optimisation ran. *)
Theorem later_sweep_rolls_reference_clouds (e e' : BasicLaserOdometry) :
  systemInited e = true ->
  process E e = Ok e' ->
  systemInited e' = true
  /\ frameCount e' = (frameCount e + 1)%Z
  /\ scanPeriod e' = scanPeriod e
  /\ imu e' = imu e
  /\ lastCornerCloud e'
     = map (transformToEnd_point E (scanPeriod e) (transform e') (imu e))
           (cornerPointsLessSharp e)
  /\ lastSurfaceCloud e'
     = map (transformToEnd_point E (scanPeriod e) (transform e') (imu e))
           (surfPointsLessFlat e)
  /\ surfPointsLessFlat e' = lastSurfaceCloud e
  /\ surfPointsFlat e' = surfPointsFlat e
  /\ cornerPointsSharp e'
     = (if referenceLargeEnough e
        then removeNaNFromPointCloud E (cornerPointsSharp e)
        else cornerPointsSharp e).
Proof.
  intros Hinit. unfold process. rewrite Hinit. cbn [negb].
  intros H. apply processSteady_inv in H
    as [eo [Hopt [Htr [Hfc [Hsi [Hsp [Himu [_ [_ [_ [Hsharp [Hflat [Hcc [Hsc [_ [Hlf _]]]]]]]]]]]]]]]].
  rewrite Hsi, Hfc, Hsp, Himu, Hcc, Hsc, Hlf, Hflat, Hsharp, Htr.
  destruct (referenceLargeEnough e).
  - apply performOptimization_frame in Hopt.
    apply solverFrame_fields in Hopt. cbn in Hopt.
    destruct Hopt as [H1 [H2 [H3 [H4 [H5 [H6 [H7 [H8 [H9 [H10 [H11 [H12
                       [H13 [H14 [H15 H16]]]]]]]]]]]]]]].
    rewrite H1, H2, H3, H8, H9, H10, H11, H12, H14.
    repeat split; assumption.
  - injection Hopt as <-. cbn. repeat split; assumption.
Qed.

(** X6.  While the reference clouds are too small - at most 10 corner
    points or at most 100 surface points - a later call to [process] runs no
    optimisation and cannot fault: the increment it leaves is the
    constant-velocity prior, the translation of the previous sweep less the
    IMU velocity times the scan period, with the rotation of the previous
    sweep; the correspondences and the selection buffers are untouched and
    the old reference corner cloud is handed back unfiltered. *)
Theorem small_reference_skips_optimisation (e : BasicLaserOdometry) :
  systemInited e = true ->
  referenceLargeEnough e = false ->
  exists e',
    process E e = Ok e'
    /\ transform e' = motionPrior e
    /\ corr e' = corr e
    /\ laserCloudOri e' = laserCloudOri e
    /\ coeffSel e' = coeffSel e
    /\ cornerPointsSharp e' = cornerPointsSharp e
    /\ cornerPointsLessSharp e' = lastCornerCloud e.
Proof.
  intros Hinit Hsmall.
  destruct (process E e) as [e'|i n] eqn:Hp.
  - exists e'. split; [reflexivity|].
    unfold process in Hp. rewrite Hinit in Hp. cbn [negb] in Hp.
    apply processSteady_inv in Hp
      as [eo [Hopt [Htr [_ [_ [_ [_ [Hcorr [Hori [Hcoef [Hsharp [_ [_ [_ [Hls _]]]]]]]]]]]]]]].
    rewrite Hsmall in Hopt. injection Hopt as <-.
    rewrite Htr, Hcorr, Hori, Hcoef, Hsharp, Hls. cbn.
    repeat split; reflexivity.
  - exfalso. unfold process in Hp. rewrite Hinit in Hp. cbn [negb] in Hp.
    unfold processSteady in Hp.
    change (referenceLargeEnough
              (set_transform (set_frameCount e (frameCount e + 1)%Z) _))
      with (referenceLargeEnough e) in Hp.
    rewrite Hsmall in Hp.
    cbv beta iota zeta delta [bind] in Hp.
    destruct (accumulateRotation _ _ _ _ _ _ _) as [[rx ry] rz].
    destruct (pluginIMURotation _ _ _ _ _ _ _ _ _ _) as [[rx' ry'] rz'].
    match type of Hp with
    | (if ?c then _ else _) = _ => destruct c
    end; discriminate Hp.
Qed.

(** X7.  After any call to [process] that returns, the first one included,
    reference clouds large enough for the next optimisation to run are the
    clouds both k-d trees were built on; when a later call leaves them too
    small, the trees are the ones of the call before, built on other
    clouds. *)
Theorem trees_index_reference_clouds (e e' : BasicLaserOdometry) :
  process E e = Ok e' ->
  (referenceLargeEnough e' = true -> treesMatch e')
  /\ (systemInited e = true -> referenceLargeEnough e' = false ->
      lastCornerKDTree e' = lastCornerKDTree e
      /\ lastSurfaceKDTree e' = lastSurfaceKDTree e).
Proof.
  unfold process. destruct (systemInited e) eqn:Hinit; cbn [negb].
  - intros H. apply processSteady_inv in H
      as [eo [Hopt [_ [_ [_ [_ [_ [_ [_ [_ [_ [_ [_ [_ [_ [_ [Hbig Hsmall]]]]]]]]]]]]]]]]].
    split; [exact Hbig|]. intros _ Hs. destruct (Hsmall Hs) as [Hc Hf].
    rewrite Hc, Hf. destruct (referenceLargeEnough e).
    + apply performOptimization_frame in Hopt.
      apply solverFrame_fields in Hopt. cbn in Hopt.
      destruct Hopt as [_ [_ [_ [_ [_ [_ [_ [_ [_ [_ [_ [_
                         [_ [_ [H15 H16]]]]]]]]]]]]]]].
      split; assumption.
    + injection Hopt as <-. split; reflexivity.
  - intros H. injection H as <-. split; [|discriminate].
    intros _. unfold treesMatch, processFirst. cbn. split; reflexivity.
Qed.

End Sweep.

(** On the sensor above the floor the second call counts frame 1 and makes
    the eleven less-sharp points the reference corner cloud. *)
Lemma later_sweep_rolls_reference_clouds_witness :
  exists e',
    process Examples.R Sweeps.nextSweep = Ok e'
    /\ frameCount e' = 1%Z
    /\ length (lastCornerCloud e') = 11%nat
    /\ surfPointsLessFlat e' = Examples.floorCloud.
Proof.
  destruct (process Examples.R Sweeps.nextSweep) as [e'|] eqn:Hrun;
    [|vm_compute in Hrun; discriminate Hrun].
  exists e'. split; [reflexivity|].
  destruct (@later_sweep_rolls_reference_clouds Examples.R Sweeps.nextSweep e'
              eq_refl Hrun)
    as [_ [Hfc [_ [_ [Hcc [_ [Hlf _]]]]]]].
  split; [rewrite Hfc; reflexivity|].
  split; [rewrite Hcc, length_map; reflexivity|].
  rewrite Hlf. reflexivity.
Defined.

(** With three reference corner points the call returns with the prior:
    one metre less 2 m/s times 0.1 s along x. *)
Lemma small_reference_skips_optimisation_witness :
  exists e',
    process Examples.R Sweeps.sparse = Ok e'
    /\ vx (pos (transform e')) = F32.sub f_1_0 (F32.mul (Examples.fz 2) f_0_1)
    /\ cornerPointsLessSharp e' = Examples.threeSharp.
Proof.
  destruct (@small_reference_skips_optimisation Examples.R Sweeps.sparse
              eq_refl eq_refl)
    as [e' [Hrun [Htr [_ [_ [_ [_ Hls]]]]]]].
  exists e'. split; [exact Hrun|].
  rewrite Htr, Hls. split; reflexivity.
Defined.

(** After the second call on the sensor above the floor the reference clouds
    are large enough and the trees index them. *)
Lemma trees_index_reference_clouds_witness :
  exists e',
    process Examples.R Sweeps.nextSweep = Ok e'
    /\ referenceLargeEnough e' = true
    /\ lastCornerKDTree e' = lastCornerCloud e'
    /\ lastSurfaceKDTree e' = lastSurfaceCloud e'.
Proof.
  destruct (process Examples.R Sweeps.nextSweep) as [e'|] eqn:Hrun;
    [|vm_compute in Hrun; discriminate Hrun].
  exists e'. split; [reflexivity|].
  destruct (@trees_index_reference_clouds Examples.R Sweeps.nextSweep e' Hrun)
    as [Hbig _].
  assert (Hlarge : referenceLargeEnough e' = true).
  { apply (f_equal (fun o => match o with
                             | Ok e => referenceLargeEnough e
                             | OutOfBounds _ _ => false
                             end)) in Hrun.
    vm_compute in Hrun. symmetry. exact Hrun. }
  split; [exact Hlarge|]. exact (Hbig Hlarge).
Defined.

(** The engine before its first sweep is seeded with the pitch of 1/8 and
    the roll of 1/2 of its IMU summary. *)
Lemma first_sweep_seed_witness :
  process Examples.R Examples.beforeFirstSweep
  = Ok (processFirst Examples.R Examples.beforeFirstSweep)
  /\ rad (rot_x (transformSum (processFirst Examples.R Examples.beforeFirstSweep)))
     = F32.lit 1 8
  /\ rad (rot_z (transformSum (processFirst Examples.R Examples.beforeFirstSweep)))
     = F32.lit 1 2.
Proof.
  destruct (@first_sweep_seed Examples.R Examples.beforeFirstSweep)
    as [Hrun [Hx Hz]].
  - reflexivity.
  - reflexivity.
  - vm_compute. discriminate.
  - vm_compute. discriminate.
  - split; [exact Hrun|]. rewrite Hx, Hz. split; vm_compute; reflexivity.
Defined.

(** ** When the optimisation reads inside its vectors *)

Section NoFault.

Variable E : Externals.

Local Open Scope f32_scope.

Lemma for_loop_returns_inv {S : Type} (P : S -> Prop)
    (body : Z -> S -> outcome (flow S)) (js : list Z) :
  (forall j s, In j js -> P s -> exists f, body j s = Ok f /\ P (left_by f)) ->
  forall st, P st -> exists st', for_loop body js st = Ok st' /\ P st'.
Proof.
  induction js as [|j js IH]; intros Hbody st Hst; simpl; [eauto|].
  destruct (Hbody j st (or_introl eq_refl) Hst) as [f [-> Hf]].
  destruct f as [s|s]; [|eauto].
  apply IH; [|exact Hf].
  intros j' s' Hin. apply Hbody. right. exact Hin.
Qed.

Lemma upto_0_S (n : nat) : upto 0 (S n) = 0%Z :: upto 1 (S n).
Proof.
  unfold upto. simpl. rewrite Nat.sub_0_r. reflexivity.
Qed.

(** The vectors the residual loop of the corners reads, after a search. *)
Lemma cornerTripods_readable (e ec : BasicLaserOdometry) :
  findCornerCorrespondence E e = Ok ec -> cornersReadable ec.
Proof.
  intros Hfind i Hi.
  pose proof (@findCornerCorrespondence_lengths E _ _ Hfind) as Hlen.
  destruct (@at_index_in_range _ (pointSearchCornerInd2 (corr ec)) i)
    as [ind2 Hind2]; [rewrite Hlen; exact Hi|].
  unfold cornerTripods. rewrite Hind2. cbv beta iota zeta delta [bind].
  destruct (ind2 <? 0)%Z eqn:Hneg; [eauto|].
  destruct (@corner_indices_sound E e ec i ind2 Hfind Hind2)
    as [ind1 [p1 [p2 [-> [H1 H2]]]]]; [lia|].
  rewrite H1, H2. eauto.
Qed.

Lemma planeTripods_readable (e ep : BasicLaserOdometry) :
  findPlaneCorrespondence E e = Ok ep -> planesReadable ep.
Proof.
  intros Hfind i Hi.
  pose proof (@findPlaneCorrespondence_lengths E _ _ Hfind) as [Hlen2 Hlen3].
  destruct (@at_index_in_range _ (pointSearchSurfInd2 (corr ep)) i)
    as [ind2 Hind2]; [rewrite Hlen2; exact Hi|].
  destruct (@at_index_in_range _ (pointSearchSurfInd3 (corr ep)) i)
    as [ind3 Hind3]; [rewrite Hlen3; exact Hi|].
  unfold planeTripods. rewrite Hind2. cbv beta iota zeta delta [bind].
  destruct (ind2 <? 0)%Z eqn:Hneg2; [eauto|].
  rewrite Hind3.
  destruct (ind3 <? 0)%Z eqn:Hneg3; [eauto|].
  destruct (@plane_indices_sound E e ep i ind2 ind3 Hfind Hind2 Hind3)
    as [ind1 [p1 [p2 [p3 [-> [H1 [H2 H3]]]]]]]; [lia|lia|].
  rewrite H1, H2, H3. eauto.
Qed.

Lemma cornerResiduals_return (k : Z) (e : BasicLaserOdometry) :
  cornersReadable e ->
  exists ps, for_each (computeCornerDistances_point E e k)
                      (indexed (cornerPointsSharp e)) = Ok ps.
Proof.
  intros Hread. apply for_each_returns. intros [i pt] Hin.
  apply indexed_In in Hin. apply at_index_Ok in Hin as [Hi _].
  destruct (Hread i Hi) as [r Hr].
  unfold computeCornerDistances_point. rewrite Hr.
  cbv beta iota zeta delta [bind].
  destruct r as [[t1 t2]|]; eauto.
Qed.

Lemma planeResiduals_return (k : Z) (e : BasicLaserOdometry) :
  planesReadable e ->
  exists ps, for_each (computePlaneDistances_point E e k)
                      (indexed (surfPointsFlat e)) = Ok ps.
Proof.
  intros Hread. apply for_each_returns. intros [i pt] Hin.
  apply indexed_In in Hin. apply at_index_Ok in Hin as [Hi _].
  destruct (Hread i Hi) as [r Hr].
  unfold computePlaneDistances_point. rewrite Hr.
  cbv beta iota zeta delta [bind].
  destruct r as [[[t1 t2] t3]|]; eauto.
Qed.

Lemma findCornerCorrespondence_returns (e : BasicLaserOdometry) :
  searchable E e ->
  exists ec,
    findCornerCorrespondence E e = Ok ec
    /\ searchable E ec
    /\ (planesReadable e -> planesReadable ec).
Proof.
  intros [Hnan [Hkc [Hks [Hnc Hns]]]].
  destruct (@for_each_returns _ _
              (findCornerCorrespondence_point E (scanPeriod e) (transform e)
                 (lastCornerKDTree e)
                 (removeNaNFromPointCloud E (lastCornerCloud e))
                 (length (cornerPointsSharp e)))
              (cornerPointsSharp e)) as [pairs Hpairs].
  { intros pt _. rewrite Hnan.
    apply findCornerCorrespondence_point_returns; assumption. }
  eexists. split.
  - unfold findCornerCorrespondence. rewrite Hpairs. reflexivity.
  - split.
    + unfold searchable. cbn. rewrite !Hnan.
      exact (conj eq_refl (conj Hkc (conj Hks (conj Hnc Hns)))).
    + intros Hp. exact Hp.
Qed.

Lemma findPlaneCorrespondence_returns (e : BasicLaserOdometry) :
  searchable E e ->
  exists ep,
    findPlaneCorrespondence E e = Ok ep
    /\ searchable E ep
    /\ (cornersReadable e -> cornersReadable ep).
Proof.
  intros [Hnan [Hkc [Hks [Hnc Hns]]]].
  destruct (@for_each_returns _ _
              (findPlaneCorrespondence_point E (scanPeriod e) (transform e)
                 (lastSurfaceKDTree e) (lastSurfaceCloud e)
                 (length (surfPointsFlat e)))
              (surfPointsFlat e)) as [triples Htriples].
  { intros pt _. apply findPlaneCorrespondence_point_returns; assumption. }
  eexists. split.
  - unfold findPlaneCorrespondence. rewrite Htriples. reflexivity.
  - split.
    + exact (conj Hnan (conj Hkc (conj Hks (conj Hnc Hns)))).
    + intros Hc. exact Hc.
Qed.

Lemma computeCornerDistances_returns (k : Z) (e : BasicLaserOdometry) :
  searchable E e ->
  (Z.rem k 5 <> 0%Z -> cornersReadable e) ->
  exists e',
    computeCornerDistances E k e = Ok e'
    /\ searchable E e'
    /\ cornersReadable e'
    /\ (planesReadable e -> planesReadable e').
Proof.
  intros Hs Hc. unfold computeCornerDistances.
  destruct (Z.rem k 5 =? 0)%Z eqn:Hk.
  - destruct (@findCornerCorrespondence_returns e Hs) as [ec [Hfind [Hsc Hpc]]].
    rewrite Hfind. cbv beta iota zeta delta [bind].
    pose proof (@cornerTripods_readable e ec Hfind) as Hcc.
    destruct (@cornerResiduals_return k ec Hcc) as [ps ->].
    eexists. split; [reflexivity|].
    split; [exact Hsc|]. split; [exact Hcc|]. exact Hpc.
  - apply Z.eqb_neq in Hk. specialize (Hc Hk).
    cbv beta iota zeta delta [bind].
    destruct (@cornerResiduals_return k e Hc) as [ps ->].
    eexists. split; [reflexivity|].
    split; [exact Hs|]. split; [exact Hc|]. intros Hp. exact Hp.
Qed.

Lemma computePlaneDistances_returns (k : Z) (e : BasicLaserOdometry) :
  searchable E e ->
  (Z.rem k 5 <> 0%Z -> planesReadable e) ->
  cornersReadable e ->
  exists e',
    computePlaneDistances E k e = Ok e'
    /\ searchable E e'
    /\ cornersReadable e'
    /\ planesReadable e'.
Proof.
  intros Hs Hp Hc. unfold computePlaneDistances.
  destruct (Z.rem k 5 =? 0)%Z eqn:Hk.
  - destruct (@findPlaneCorrespondence_returns e Hs) as [ep [Hfind [Hsp Hcp]]].
    rewrite Hfind. cbv beta iota zeta delta [bind].
    pose proof (@planeTripods_readable e ep Hfind) as Hpp.
    destruct (@planeResiduals_return k ep Hpp) as [ps ->].
    eexists. split; [reflexivity|].
    split; [exact Hsp|]. split; [exact (Hcp Hc)|]. exact Hpp.
  - apply Z.eqb_neq in Hk. specialize (Hp Hk).
    cbv beta iota zeta delta [bind].
    destruct (@planeResiduals_return k e Hp) as [ps ->].
    eexists. split; [reflexivity|].
    split; [exact Hs|]. split; [exact Hc|]. exact Hp.
Qed.

Lemma selectPoints_returns (k : Z) (e : BasicLaserOdometry) :
  searchable E e ->
  (Z.rem k 5 <> 0%Z -> cornersReadable e /\ planesReadable e) ->
  exists e',
    selectPoints E k e = Ok e'
    /\ searchable E e'
    /\ cornersReadable e'
    /\ planesReadable e'.
Proof.
  intros Hs Hr. unfold selectPoints.
  destruct (@computeCornerDistances_returns k
              (set_coeffSel (set_laserCloudOri e []) []))
    as [e1 [-> [Hs1 [Hc1 Hp1]]]].
  { exact Hs. }
  { intros Hk. exact (proj1 (Hr Hk)). }
  cbv beta iota zeta delta [bind].
  apply computePlaneDistances_returns; [exact Hs1| |exact Hc1].
  intros Hk. apply Hp1. exact (proj2 (Hr Hk)).
Qed.

Lemma iteration_returns (k : Z) (st : SolverState) :
  searchable E (engine st) ->
  (Z.rem k 5 <> 0%Z ->
   cornersReadable (engine st) /\ planesReadable (engine st)) ->
  exists f,
    iteration E k st = Ok f
    /\ searchable E (engine (left_by f))
    /\ cornersReadable (engine (left_by f))
    /\ planesReadable (engine (left_by f)).
Proof.
  intros Hs Hr.
  destruct (@selectPoints_returns k (engine st) Hs Hr) as [e' [Hsel [Hs' [Hc' Hp']]]].
  unfold iteration. rewrite Hsel. cbv beta iota zeta delta [bind].
  destruct (_ <? 10)%Z.
  - eexists. split; [reflexivity|]. cbn. auto.
  - destruct (@solveAndUpdate_returns E k
                (mkSolver e' (isDegenerate st) (matP st))) as [f Hf].
    exists f. split; [exact Hf|].
    apply solveAndUpdate_engine in Hf as [matX ->]. cbn. auto.
Qed.

(** Whatever the optimisation returned, the rest of [process] returns. *)
Lemma processSteady_returns (e eo : BasicLaserOdometry) :
  (if referenceLargeEnough e
   then performOptimization E
          (set_transform (set_frameCount e (frameCount e + 1)%Z)
                         (motionPrior e))
   else Ok (set_transform (set_frameCount e (frameCount e + 1)%Z)
                          (motionPrior e))) = Ok eo ->
  exists e', processSteady E e = Ok e'.
Proof.
  intros Hopt. unfold processSteady.
  change (referenceLargeEnough
            (set_transform (set_frameCount e (frameCount e + 1)%Z) _))
    with (referenceLargeEnough e).
  match goal with
  | |- exists e', bind ?m _ = _ => change m with
      (if referenceLargeEnough e
       then performOptimization E
              (set_transform (set_frameCount e (frameCount e + 1)%Z)
                             (motionPrior e))
       else Ok (set_transform (set_frameCount e (frameCount e + 1)%Z)
                              (motionPrior e)))
  end.
  rewrite Hopt. cbv beta iota zeta delta [bind].
  destruct (accumulateRotation _ _ _ _ _ _ _) as [[rx ry] rz].
  destruct (pluginIMURotation _ _ _ _ _ _ _ _ _ _) as [[rx' ry'] rz'].
  match goal with
  | |- exists e', (if ?c then _ else _) = _ => destruct c; eauto
  end.
Qed.

Lemma performOptimization_returns_when_searchable (e : BasicLaserOdometry) :
  searchable E (engine (solverStart E e)) ->
  exists e', performOptimization E e = Ok e'.
Proof.
  intros Hs. unfold performOptimization.
  enough (exists st, for_loop (iteration E) (upto 0 (maxIterations e))
                              (solverStart E e) = Ok st) as [st ->]
    by (cbv beta iota zeta delta [bind]; eauto).
  destruct (maxIterations e) as [|n]; [simpl; eauto|].
  rewrite upto_0_S. cbn [for_loop].
  destruct (@iteration_returns 0 (solverStart E e) Hs)
    as [f [-> [Hs1 [Hc1 Hp1]]]]; [intros H; exfalso; apply H; reflexivity|].
  destruct f as [s|s]; [|eauto]. cbn [left_by] in *.
  destruct (@for_loop_returns_inv _
              (fun s => searchable E (engine s)
                        /\ cornersReadable (engine s)
                        /\ planesReadable (engine s))
              (iteration E) (upto 1 (S n))) with (st := s) as [st' [Hst' _]];
    [|auto|eauto].
  intros j s' _ [Hs' [Hc' Hp']].
  destruct (@iteration_returns j s' Hs') as [f [Hf Hinv]]; [auto|].
  exists f. split; [exact Hf|exact Hinv].
Qed.

(** X8.  The optimisation and the call to [process] around it return - no
    vector is read outside its bounds - whenever the reference corner
    cloud has no point for the NaN filter to remove, both k-d trees answer
    with positions of their reference cloud, and the sweep has no more
    sharp points, once filtered, than the reference corner cloud has
    points and no more flat points than the reference surface cloud has. *)
Theorem optimisation_reads_inside_its_vectors (e : BasicLaserOdometry) :
  removeNaNFromPointCloud E (lastCornerCloud e) = lastCornerCloud e ->
  answersWithin E (lastCornerKDTree e) (lastCornerCloud e) ->
  answersWithin E (lastSurfaceKDTree e) (lastSurfaceCloud e) ->
  (length (removeNaNFromPointCloud E (cornerPointsSharp e))
   <= length (lastCornerCloud e))%nat ->
  (length (surfPointsFlat e) <= length (lastSurfaceCloud e))%nat ->
  (exists e', performOptimization E e = Ok e')
  /\ (exists e', process E e = Ok e').
Proof.
  intros Hnan Hkc Hks Hnc Hns. split.
  - apply performOptimization_returns_when_searchable.
    exact (conj Hnan (conj Hkc (conj Hks (conj Hnc Hns)))).
  - unfold process. destruct (systemInited e); cbn [negb]; [|eauto].
    destruct (referenceLargeEnough e) eqn:Hbig.
    + destruct (@performOptimization_returns_when_searchable
                  (set_transform (set_frameCount e (frameCount e + 1)%Z)
                                 (motionPrior e))) as [eo Hopt].
      { exact (conj Hnan (conj Hkc (conj Hks (conj Hnc Hns)))). }
      apply (@processSteady_returns e eo). rewrite Hbig. exact Hopt.
    + apply (@processSteady_returns e
               (set_transform (set_frameCount e (frameCount e + 1)%Z)
                              (motionPrior e))).
      rewrite Hbig. reflexivity.
Qed.

End NoFault.

(** The linear scan that stands for the k-d tree in the closed examples
    answers with a position of the cloud it was built on. *)
Lemma nearest_from_range (q : PointXYZI) (c : cloud) (i : Z)
    (best : Z * float) (j : Z) (d : float) :
  Reference.nearest_from q c i best = (j, d) ->
  (j, d) = best \/ (i <= j < i + Z.of_nat (length c))%Z.
Proof.
  revert i best. induction c as [|p c IH]; intros i best H.
  - left. symmetry. exact H.
  - cbn [Reference.nearest_from] in H. cbv zeta in H.
    apply IH in H as [H|H].
    + destruct (F32.ltb _ _).
      * injection H as -> _. right. cbn [length]. lia.
      * left. exact H.
    + right. cbn [length]. lia.
Qed.

Lemma reference_answersWithin (c : cloud) : answersWithin Examples.R c c.
Proof.
  intros q i d H Hd.
  change (Reference.nearest_from q c 0%Z (0%Z, S754_infinity false) = (i, d))
    in H.
  apply nearest_from_range in H as [H|H]; [|lia].
  injection H as -> ->. vm_compute in Hd. discriminate Hd.
Qed.

(** The ridge meets the conditions: three sharp points for eighteen
    reference corner points, three flat points for a hundred and one
    reference surface points. *)
Lemma optimisation_reads_inside_its_vectors_witness :
  (exists e', performOptimization Examples.R Examples.ridge = Ok e')
  /\ (exists e', process Examples.R Examples.ridge = Ok e').
Proof.
  apply (@optimisation_reads_inside_its_vectors Examples.R Examples.ridge).
  - vm_compute. reflexivity.
  - apply reference_answersWithin.
  - apply reference_answersWithin.
  - vm_compute. lia.
  - vm_compute. lia.
Defined.

(** ** Features far from the reference clouds *)

Section Far.

Variable E : Externals.

Local Open Scope f32_scope.

Lemma for_each_const {A B : Type} (f : A -> outcome B) (l : list A) (b : B) :
  (forall a, In a l -> f a = Ok b) ->
  for_each f l = Ok (repeat b (length l)).
Proof.
  induction l as [|a l IH]; intros H; [reflexivity|].
  cbn [for_each length repeat].
  rewrite (H a (or_introl eq_refl)). cbv beta iota zeta delta [bind].
  rewrite IH; [reflexivity|]. intros a' Ha'. apply H. right. exact Ha'.
Qed.

Lemma pushed_repeat_None {A : Type} (n : nat) :
  pushed (repeat (@None A) n) = [].
Proof. induction n as [|n IH]; [reflexivity|exact IH]. Qed.

Lemma at_index_repeat {A : Type} (a : A) (n : nat) (i : Z) :
  (0 <= i < Z.of_nat n)%Z -> at_index (repeat a n) i = Ok a.
Proof.
  intros Hi.
  destruct (@at_index_in_range _ (repeat a n) i) as [b Hb];
    [rewrite repeat_length; exact Hi|].
  rewrite Hb. f_equal.
  apply at_index_Ok in Hb as [_ Hnth]. apply nth_error_In in Hnth.
  exact (repeat_spec _ _ _ Hnth).
Qed.

Lemma far_corner_point (sp : float) (tr : Transform) (kdtree lastCorner : cloud)
    (num : nat) (pt : PointXYZI) :
  (snd (nearestKSearch E kdtree (transformToStart E sp tr pt)) >=? f_25_0)
  = true ->
  findCornerCorrespondence_point E sp tr kdtree lastCorner num pt
  = Ok (-1, -1)%Z.
Proof.
  intros H. unfold findCornerCorrespondence_point.
  destruct (nearestKSearch E kdtree _) as [c d]. cbn [snd] in H.
  rewrite H. reflexivity.
Qed.

Lemma far_plane_point (sp : float) (tr : Transform) (kdtree lastSurface : cloud)
    (num : nat) (pt : PointXYZI) :
  (snd (nearestKSearch E kdtree (transformToStart E sp tr pt)) >=? f_25_0)
  = true ->
  findPlaneCorrespondence_point E sp tr kdtree lastSurface num pt
  = Ok (-1, -1, -1)%Z.
Proof.
  intros H. unfold findPlaneCorrespondence_point.
  destruct (nearestKSearch E kdtree _) as [c d]. cbn [snd] in H.
  rewrite H. reflexivity.
Qed.

Lemma far_corner_stage (k : Z) (e : BasicLaserOdometry) :
  farFromReference E e ->
  (Z.rem k 5 <> 0%Z -> noCornerPair e) ->
  exists e',
    computeCornerDistances E k e = Ok e'
    /\ solverFrame e' = solverFrame e
    /\ transform e' = transform e
    /\ laserCloudOri e' = laserCloudOri e
    /\ coeffSel e' = coeffSel e
    /\ noCornerPair e'
    /\ (noPlaneTriple e -> noPlaneTriple e').
Proof.
  intros [Hfc Hfp] Hnone. unfold computeCornerDistances.
  assert (Hres : forall e1, noCornerPair e1 ->
            for_each (computeCornerDistances_point E e1 k)
                     (indexed (cornerPointsSharp e1))
            = Ok (repeat None (length (indexed (cornerPointsSharp e1))))).
  { intros e1 H1. apply for_each_const. intros [i pt] Hin.
    apply indexed_In in Hin. apply at_index_Ok in Hin as [Hi _].
    unfold computeCornerDistances_point. rewrite (H1 i Hi). reflexivity. }
  destruct (Z.rem k 5 =? 0)%Z eqn:Hk.
  - unfold findCornerCorrespondence.
    rewrite (@for_each_const _ _ _ (cornerPointsSharp e) (-1, -1)%Z);
      [|intros pt Hpt; apply far_corner_point; apply Hfc; exact Hpt].
    cbv beta iota zeta delta [bind].
    match goal with
    | |- context [for_each (computeCornerDistances_point E ?e1 k) _] =>
        assert (H1 : noCornerPair e1)
    end.
    { intros i Hi. unfold cornerTripods. cbn in Hi |- *.
      rewrite map_repeat, at_index_repeat by exact Hi. reflexivity. }
    rewrite (Hres _ H1). cbv beta iota zeta delta [bind].
    rewrite pushed_repeat_None. eexists. split; [reflexivity|].
    cbn. rewrite !app_nil_r.
    split; [reflexivity|]. split; [reflexivity|]. split; [reflexivity|].
    split; [reflexivity|]. split; [exact H1|]. intros Hp. exact Hp.
  - apply Z.eqb_neq in Hk. specialize (Hnone Hk).
    cbv beta iota zeta delta [bind].
    rewrite (Hres _ Hnone). cbv beta iota zeta delta [bind].
    rewrite pushed_repeat_None. eexists. split; [reflexivity|].
    cbn. rewrite !app_nil_r.
    split; [reflexivity|]. split; [reflexivity|]. split; [reflexivity|].
    split; [reflexivity|]. split; [exact Hnone|]. intros Hp. exact Hp.
Qed.

Lemma far_plane_stage (k : Z) (e : BasicLaserOdometry) :
  farFromReference E e ->
  (Z.rem k 5 <> 0%Z -> noPlaneTriple e) ->
  exists e',
    computePlaneDistances E k e = Ok e'
    /\ solverFrame e' = solverFrame e
    /\ transform e' = transform e
    /\ laserCloudOri e' = laserCloudOri e
    /\ coeffSel e' = coeffSel e
    /\ noPlaneTriple e'
    /\ (noCornerPair e -> noCornerPair e').
Proof.
  intros [Hfc Hfp] Hnone. unfold computePlaneDistances.
  assert (Hres : forall e1, noPlaneTriple e1 ->
            for_each (computePlaneDistances_point E e1 k)
                     (indexed (surfPointsFlat e1))
            = Ok (repeat None (length (indexed (surfPointsFlat e1))))).
  { intros e1 H1. apply for_each_const. intros [i pt] Hin.
    apply indexed_In in Hin. apply at_index_Ok in Hin as [Hi _].
    unfold computePlaneDistances_point. rewrite (H1 i Hi). reflexivity. }
  destruct (Z.rem k 5 =? 0)%Z eqn:Hk.
  - unfold findPlaneCorrespondence.
    rewrite (@for_each_const _ _ _ (surfPointsFlat e) (-1, -1, -1)%Z);
      [|intros pt Hpt; apply far_plane_point; apply Hfp; exact Hpt].
    cbv beta iota zeta delta [bind].
    match goal with
    | |- context [for_each (computePlaneDistances_point E ?e1 k) _] =>
        assert (H1 : noPlaneTriple e1)
    end.
    { intros i Hi. unfold planeTripods. cbn in Hi |- *.
      rewrite map_repeat, at_index_repeat by exact Hi. reflexivity. }
    rewrite (Hres _ H1). cbv beta iota zeta delta [bind].
    rewrite pushed_repeat_None. eexists. split; [reflexivity|].
    cbn. rewrite !app_nil_r.
    split; [reflexivity|]. split; [reflexivity|]. split; [reflexivity|].
    split; [reflexivity|]. split; [exact H1|]. intros Hc. exact Hc.
  - apply Z.eqb_neq in Hk. specialize (Hnone Hk).
    cbv beta iota zeta delta [bind].
    rewrite (Hres _ Hnone). cbv beta iota zeta delta [bind].
    rewrite pushed_repeat_None. eexists. split; [reflexivity|].
    cbn. rewrite !app_nil_r.
    split; [reflexivity|]. split; [reflexivity|]. split; [reflexivity|].
    split; [reflexivity|]. split; [exact Hnone|]. intros Hc. exact Hc.
Qed.

Lemma farFromReference_ext (e e' : BasicLaserOdometry) :
  solverFrame e' = solverFrame e ->
  transform e' = transform e ->
  farFromReference E e -> farFromReference E e'.
Proof.
  intros Hf Ht [Hc Hp]. apply solverFrame_fields in Hf.
  destruct Hf as [H1 [_ [_ [_ [_ [_ [_ [_ [H9 [_ [H11 [_ [_ [_ [H15 H16]]]]]]]]]]]]]]].
  unfold farFromReference. rewrite H1, H9, H11, H15, H16, Ht.
  split; assumption.
Qed.

Lemma far_iteration (k : Z) (st : SolverState) :
  farFromReference E (engine st) ->
  (Z.rem k 5 <> 0%Z ->
   noCornerPair (engine st) /\ noPlaneTriple (engine st)) ->
  exists e',
    iteration E k st = Ok (Continue (mkSolver e' (isDegenerate st) (matP st)))
    /\ solverFrame e' = solverFrame (engine st)
    /\ transform e' = transform (engine st)
    /\ laserCloudOri e' = []
    /\ coeffSel e' = []
    /\ noCornerPair e'
    /\ noPlaneTriple e'.
Proof.
  intros Hfar Hnone. unfold iteration, selectPoints.
  destruct (@far_corner_stage k
              (set_coeffSel (set_laserCloudOri (engine st) []) []))
    as [e1 [-> [Hf1 [Ht1 [Ho1 [Hc1 [Hn1 Hp1]]]]]]].
  { exact Hfar. }
  { intros Hk. exact (proj1 (Hnone Hk)). }
  cbv beta iota zeta delta [bind].
  destruct (@far_plane_stage k e1)
    as [e2 [-> [Hf2 [Ht2 [Ho2 [Hc2 [Hn2 Hp2]]]]]]].
  { exact (@farFromReference_ext
             (set_coeffSel (set_laserCloudOri (engine st) []) []) e1
             Hf1 Ht1 Hfar). }
  { intros Hk. apply Hp1. exact (proj2 (Hnone Hk)). }
  rewrite Ho2, Ho1. cbn [laserCloudOri set_coeffSel set_laserCloudOri length].
  cbn [Z.of_nat Z.ltb Z.compare].
  exists e2. split; [reflexivity|].
  split; [rewrite Hf2, Hf1; reflexivity|].
  split; [rewrite Ht2, Ht1; reflexivity|].
  split; [rewrite Ho2, Ho1; reflexivity|].
  split; [rewrite Hc2, Hc1; reflexivity|].
  split; [exact (Hp2 Hn1)|exact Hn2].
Qed.

(** X9.  When, under the prior the optimisation starts from, the nearest
    reference point of every sharp point that passes the NaN filter and of
    every flat point is reported at a squared distance of 25 or more, no
    point is selected in any iteration: [performOptimization] returns, the
    incremental transform is the prior, and - if at least one iteration was
    allowed - the selection buffers are empty and no feature point has a
    correspondence. *)
Theorem far_features_leave_prior (e : BasicLaserOdometry) :
  farFromReference E
    (set_cornerPointsSharp e
       (removeNaNFromPointCloud E (cornerPointsSharp e))) ->
  exists e',
    performOptimization E e = Ok e'
    /\ transform e' = transform e
    /\ (maxIterations e <> 0%nat ->
        laserCloudOri e' = [] /\ coeffSel e' = []
        /\ noCornerPair e' /\ noPlaneTriple e').
Proof.
  intros Hfar. unfold performOptimization.
  destruct (maxIterations e) as [|n].
  { eexists. split; [reflexivity|]. split; [reflexivity|].
    intros H. exfalso. apply H. reflexivity. }
  rewrite upto_0_S. cbn [for_loop].
  destruct (@far_iteration 0 (solverStart E e) Hfar)
    as [e1 [-> [Hf1 [Ht1 [Ho1 [Hc1 [Hn1 Hp1]]]]]]];
    [intros H; exfalso; apply H; reflexivity|].
  destruct (@for_loop_returns_inv _
              (fun s => farFromReference E (engine s)
                        /\ transform (engine s) = transform e
                        /\ laserCloudOri (engine s) = []
                        /\ coeffSel (engine s) = []
                        /\ noCornerPair (engine s)
                        /\ noPlaneTriple (engine s))
              (iteration E) (upto 1 (S n)))
    with (st := mkSolver e1 (isDegenerate (solverStart E e))
                         (matP (solverStart E e)))
    as [st' [-> [_ [Ht [Ho [Hc [Hn Hp]]]]]]].
  - intros j s _ [Hfs [Hts [_ [_ [Hns Hps]]]]].
    destruct (@far_iteration j s Hfs (fun _ => conj Hns Hps))
      as [e2 [-> [Hf2 [Ht2 [Ho2 [Hc2 [Hn2 Hp2]]]]]]].
    eexists. split; [reflexivity|]. cbn [left_by engine].
    split; [exact (@farFromReference_ext (engine s) e2 Hf2 Ht2 Hfs)|].
    split; [rewrite Ht2; exact Hts|]. auto.
  - cbn [engine].
    split; [exact (@farFromReference_ext _ e1 Hf1 Ht1 Hfar)|].
    split; [rewrite Ht1; reflexivity|]. auto.
  - cbv beta iota zeta delta [bind]. exists (engine st').
    split; [reflexivity|]. split; [exact Ht|]. intros _. auto.
Qed.

End Far.

(** The far sweep: twenty-five iterations select nothing and the zero
    prior is what the optimisation returns. *)
Lemma far_features_leave_prior_witness :
  exists e',
    performOptimization Examples.R Sweeps.farSweep = Ok e'
    /\ transform e' = Transform_zero
    /\ laserCloudOri e' = []
    /\ coeffSel e' = [].
Proof.
  destruct (@far_features_leave_prior Examples.R Sweeps.farSweep)
    as [e' [Hrun [Htr Hsel]]].
  - split.
    + intros pt [<-|[]]. vm_compute. reflexivity.
    + intros pt [<-|[<-|[]]]; vm_compute; reflexivity.
  - exists e'. split; [exact Hrun|]. split; [exact Htr|].
    destruct Hsel as [Ho [Hc _]]; [discriminate|]. split; assumption.
Defined.

(** ** The rings of the points a search settles on *)

Lemma lidarRingsb_spec (c : cloud) : lidarRingsb c = true -> lidarRings c.
Proof.
  unfold lidarRingsb, lidarRings. rewrite forallb_forall, Forall_forall.
  intros H p Hp. specialize (H p Hp).
  apply andb_prop in H as [H1 H2].
  apply Z.leb_le in H1. apply Z.leb_le in H2. lia.
Qed.

Lemma ringsAscend_nth (c : cloud) :
  ringsAscend c = true ->
  forall n m p q, (n <= m)%nat ->
    nth_error c n = Some p -> nth_error c m = Some q ->
    (scanIdOf p <= scanIdOf q)%Z.
Proof.
  induction c as [|a c IH]; intros H n m p q Hnm Hn Hm.
  - destruct n; discriminate Hn.
  - cbn [ringsAscend] in H. apply andb_prop in H as [Ha Hc].
    destruct n as [|n]; destruct m as [|m]; cbn [nth_error] in Hn, Hm.
    + injection Hn as <-. injection Hm as <-. lia.
    + injection Hn as <-. apply nth_error_In in Hm.
      rewrite forallb_forall in Ha. apply Z.leb_le. exact (Ha q Hm).
    + lia.
    + apply (IH Hc n m p q); [lia|assumption|assumption].
Qed.

Lemma ringsAscend_sorted (c : cloud) : ringsAscend c = true -> sortedByRing c.
Proof.
  intros H i j p q Hij Hi Hj.
  apply at_index_Ok in Hi as [Hri Hi]. apply at_index_Ok in Hj as [Hrj Hj].
  apply (@ringsAscend_nth c H (Z.to_nat i) (Z.to_nat j) p q);
    [lia|assumption|assumption].
Qed.

Section Rings.

Variable E : Externals.

Local Open Scope f32_scope.

Lemma closer_second_ok (lastSurface : cloud) (pointSel : PointXYZI)
    (ci cs j : Z) (p : PointXYZI) (best : candidate) :
  planeSecondOk E lastSurface pointSel ci cs best ->
  at_index lastSurface j = Ok p ->
  ((ci < j /\ scanIdOf p <= cs)%Z \/ (j < ci /\ cs <= scanIdOf p)%Z) ->
  planeSecondOk E lastSurface pointSel ci cs
    (closer j (calcSquaredDiff E p pointSel) best).
Proof.
  intros Hbest Hj Hside. unfold closer.
  destruct (calcSquaredDiff E p pointSel <? snd best) eqn:Hlt; [|exact Hbest].
  right. exists p. cbn [fst snd].
  split; [exact Hj|]. split; [reflexivity|]. split; [|exact Hside].
  destruct Hbest as [->|[p' [_ [_ [H25 _]]]]].
  - exact Hlt.
  - exact (ltb_trans _ _ _ Hlt H25).
Qed.

Lemma planeForwardBody_rings (lastSurface : cloud) (pointSel : PointXYZI)
    (ci cs j : Z) (best : candidates) (f : flow candidates) :
  (ci < j)%Z ->
  planeSecondOk E lastSurface pointSel ci cs (fst best)
  /\ cornerCandidateOk E lastSurface pointSel cs (snd best) ->
  planeForwardBody E lastSurface pointSel cs j best = Ok f ->
  planeSecondOk E lastSurface pointSel ci cs (fst (left_by f))
  /\ cornerCandidateOk E lastSurface pointSel cs (snd (left_by f)).
Proof.
  intros Hj [H2 H3]. unfold planeForwardBody.
  destruct (at_index lastSurface j) as [p|] eqn:Hp; simpl; [|discriminate].
  destruct (F32.of_Z (scanIdOf p) >? F32.of_Z cs + f_2_5) eqn:Hhi.
  - intros H. injection H as <-. split; assumption.
  - destruct (scanIdOf p <=? cs)%Z eqn:Hle; intros H; injection H as <-;
      cbn [left_by fst snd].
    + apply Z.leb_le in Hle. split; [|exact H3].
      apply closer_second_ok; [assumption|assumption|]. left. lia.
    + apply Z.leb_gt in Hle. split; [exact H2|].
      apply closer_ok; [assumption|assumption|]. left. split; assumption.
Qed.

Lemma planeBackwardBody_rings (lastSurface : cloud) (pointSel : PointXYZI)
    (ci cs j : Z) (best : candidates) (f : flow candidates) :
  (j < ci)%Z ->
  planeSecondOk E lastSurface pointSel ci cs (fst best)
  /\ cornerCandidateOk E lastSurface pointSel cs (snd best) ->
  planeBackwardBody E lastSurface pointSel cs j best = Ok f ->
  planeSecondOk E lastSurface pointSel ci cs (fst (left_by f))
  /\ cornerCandidateOk E lastSurface pointSel cs (snd (left_by f)).
Proof.
  intros Hj [H2 H3]. unfold planeBackwardBody.
  destruct (at_index lastSurface j) as [p|] eqn:Hp; simpl; [|discriminate].
  destruct (F32.of_Z (scanIdOf p) <? F32.of_Z cs - f_2_5) eqn:Hlo.
  - intros H. injection H as <-. split; assumption.
  - destruct (scanIdOf p >=? cs)%Z eqn:Hge; intros H; injection H as <-;
      cbn [left_by fst snd]; rewrite Z.geb_leb in Hge.
    + apply Z.leb_le in Hge. split; [|exact H3].
      apply closer_second_ok; [assumption|assumption|]. right. lia.
    + apply Z.leb_gt in Hge. split; [exact H2|].
      apply closer_ok; [assumption|assumption|]. right. split; assumption.
Qed.

(** What the plane search has found when it returns with a closest point. *)
Lemma findPlaneCorrespondence_point_rings (sp : float) (tr : Transform)
    (kdtree lastSurface : cloud) (num : nat) (pt : PointXYZI) (i1 i2 i3 : Z) :
  findPlaneCorrespondence_point E sp tr kdtree lastSurface num pt
  = Ok (i1, i2, i3) ->
  (i1 = (-1) /\ i2 = (-1) /\ i3 = (-1))%Z
  \/ exists p1 d2 d3,
       at_index lastSurface i1 = Ok p1
       /\ planeSecondOk E lastSurface (transformToStart E sp tr pt) i1
            (scanIdOf p1) (i2, d2)
       /\ cornerCandidateOk E lastSurface (transformToStart E sp tr pt)
            (scanIdOf p1) (i3, d3).
Proof.
  unfold findPlaneCorrespondence_point.
  set (q := transformToStart E sp tr pt).
  destruct (nearestKSearch E kdtree q) as [c d].
  destruct (d >=? f_25_0).
  - intros H. injection H as <- <- <-. left. auto.
  - destruct (at_index lastSurface c) as [p1|] eqn:Hc; simpl; [|discriminate].
    destruct (for_loop (planeForwardBody E lastSurface q (scanIdOf p1))
                (upto (c + 1) num) (no_candidate, no_candidate))
      as [b1|] eqn:Hf; simpl; [|discriminate].
    destruct (for_loop (planeBackwardBody E lastSurface q (scanIdOf p1))
                (downfrom (c - 1)) b1) as [b2|] eqn:Hb; simpl; [|discriminate].
    intros H. injection H as <- <- <-.
    set (P := fun b : candidates =>
                planeSecondOk E lastSurface q c (scanIdOf p1) (fst b)
                /\ cornerCandidateOk E lastSurface q (scanIdOf p1) (snd b)).
    assert (H1 : P b1).
    { refine (@for_loop_invariant_in _ P _ _ _ _ _ _ Hf).
      - intros j s f Hin Hs Hj. apply upto_spec in Hin.
        refine (@planeForwardBody_rings _ _ c _ j _ _ _ Hs Hj). lia.
      - split; left; reflexivity. }
    assert (H2 : P b2).
    { refine (@for_loop_invariant_in _ P _ _ _ _ _ H1 Hb).
      intros j s f Hin Hs Hj. apply downfrom_spec in Hin.
      refine (@planeBackwardBody_rings _ _ c _ j _ _ _ Hs Hj). lia. }
    right. exists p1, (snd (fst b2)), (snd (snd b2)).
    split; [exact Hc|]. destruct H2 as [Ha Hb'].
    rewrite <- !surjective_pairing. split; assumption.
Qed.

(** What a plane search that read inside the cloud has found, on the ring
    numbers of a lidar. *)
Lemma plane_result_rings (sp : float) (tr : Transform)
    (kdtree lastSurface : cloud) (num : nat) (pt : PointXYZI) (i1 i2 i3 : Z) :
  findPlaneCorrespondence_point E sp tr kdtree lastSurface num pt
  = Ok (i1, i2, i3) ->
  lidarRings lastSurface ->
  ((0 <= i3)%Z ->
   exists p1 p3,
     at_index lastSurface i1 = Ok p1
     /\ at_index lastSurface i3 = Ok p3
     /\ inRingWindow (scanIdOf p1) (scanIdOf p3)
     /\ (calcSquaredDiff E p3 (transformToStart E sp tr pt) <? f_25_0) = true)
  /\ ((0 <= i2)%Z ->
      exists p1 p2,
        at_index lastSurface i1 = Ok p1
        /\ at_index lastSurface i2 = Ok p2
        /\ i2 <> i1
        /\ (calcSquaredDiff E p2 (transformToStart E sp tr pt) <? f_25_0)
           = true
        /\ ((i1 < i2 /\ scanIdOf p2 <= scanIdOf p1)%Z
            \/ (i2 < i1 /\ scanIdOf p1 <= scanIdOf p2)%Z)
        /\ (sortedByRing lastSurface -> scanIdOf p2 = scanIdOf p1)).
Proof.
  intros Hpt Hrings.
  assert (Hin : forall i p, at_index lastSurface i = Ok p ->
                            (-128 <= scanIdOf p <= 128)%Z).
  { intros i p Hi. apply at_index_Ok in Hi as [_ Hnth].
    apply nth_error_In in Hnth. unfold lidarRings in Hrings.
    rewrite Forall_forall in Hrings. exact (Hrings p Hnth). }
  apply findPlaneCorrespondence_point_rings in Hpt
    as [[_ [Hm2 Hm3]]|[p1 [d2 [d3 [H1 [H2 H3]]]]]].
  { split; intros; lia. }
  split.
  - intros Hpos. destruct H3 as [H3|[p3 [Hp3 [Hring [Hd H25]]]]].
    + injection H3 as -> _. lia.
    + cbn [fst snd] in *. exists p1, p3.
      split; [exact H1|]. split; [exact Hp3|].
      split; [|rewrite <- Hd; exact H25].
      exact (@passesRingTests_window _ _ (Hin _ _ H1) (Hin _ _ Hp3) Hring).
  - intros Hpos. destruct H2 as [H2|[p2 [Hp2 [Hd [H25 Hside]]]]].
    + injection H2 as -> _. lia.
    + cbn [fst snd] in *. exists p1, p2.
      split; [exact H1|]. split; [exact Hp2|].
      split; [lia|]. split; [rewrite <- Hd; exact H25|].
      split; [destruct Hside as [Hs|Hs]; [left|right]; lia|].
      intros Hsorted. destruct Hside as [[Hi Hs]|[Hi Hs]].
      * pose proof (Hsorted i1 i2 p1 p2 (Z.lt_le_incl _ _ Hi) H1 Hp2). lia.
      * pose proof (Hsorted i2 i1 p2 p1 (Z.lt_le_incl _ _ Hi) Hp2 H1). lia.
Qed.

(** X10.  For one sharp point, when the k-d tree answers with positions of
    the reference corner cloud, the bound of the forward scan is within the
    cloud and the reference points have the ring numbers of a lidar, the
    corner search returns, having read inside the cloud only, and either has
    found no second point and stored the sentinel, or has stored two
    positions of the cloud: the closest point's, and that of a point one or
    two rings away from it, never on the same ring, at a squared distance
    below 25 from the reprojected query. *)
Theorem corner_pair_in_ring_window (sp : float) (tr : Transform)
    (kdtree lastCorner : cloud) (num : nat) (pt : PointXYZI) :
  answersWithin E kdtree lastCorner ->
  (num <= length lastCorner)%nat ->
  lidarRings lastCorner ->
  exists i1 i2,
    findCornerCorrespondence_point E sp tr kdtree lastCorner num pt
    = Ok (i1, i2)
    /\ (i2 = (-1)%Z
        \/ exists p1 p2,
             (0 <= i1 < Z.of_nat (length lastCorner))%Z
             /\ (0 <= i2 < Z.of_nat (length lastCorner))%Z
             /\ at_index lastCorner i1 = Ok p1
             /\ at_index lastCorner i2 = Ok p2
             /\ inRingWindow (scanIdOf p1) (scanIdOf p2)
             /\ scanIdOf p1 <> scanIdOf p2
             /\ (calcSquaredDiff E p2 (transformToStart E sp tr pt) <? f_25_0)
                = true).
Proof.
  intros Hkd Hnum Hrings.
  destruct (@findCornerCorrespondence_point_returns E sp tr kdtree lastCorner
              num pt Hkd Hnum) as [[i1 i2] Hrun].
  exists i1, i2. split; [exact Hrun|].
  destruct (Z_lt_le_dec i2 0) as [Hneg|Hpos].
  - left. apply findCornerCorrespondence_point_sound in Hrun
      as [Hm|[p1 [p2 [_ [H2 _]]]]]; [exact Hm|].
    apply at_index_Ok in H2 as [H2 _]. lia.
  - right.
    destruct (@corner_result_in_ring_window E sp tr kdtree lastCorner num pt
                i1 i2 Hrun Hpos Hrings)
      as [p1 [p2 [H1 [H2 [Hw [Hne H25]]]]]].
    exists p1, p2.
    split; [exact (proj1 (@at_index_Ok _ _ _ _ H1))|].
    split; [exact (proj1 (@at_index_Ok _ _ _ _ H2))|].
    auto.
Qed.

(** X11.  For one flat point, when the k-d tree answers with positions of
    the reference surface cloud, the bound of the forward scan is within the
    cloud and the reference points have the ring numbers of a lidar, the
    plane search returns, having read inside the cloud only.  A third index
    that is not the sentinel is then the position of a point one or two
    rings away from the closest point, at a squared distance below 25 from
    the reprojected query; a second index that is not the sentinel is
    another position than the closest point's, of a point at a squared
    distance below 25 whose ring is not above the closest point's if it
    comes later in the cloud and not below it if it comes earlier - the same
    ring as soon as the reference cloud is in ascending ring order, and not
    otherwise guaranteed. *)
Theorem plane_triple_rings (sp : float) (tr : Transform)
    (kdtree lastSurface : cloud) (num : nat) (pt : PointXYZI) :
  answersWithin E kdtree lastSurface ->
  (num <= length lastSurface)%nat ->
  lidarRings lastSurface ->
  exists i1 i2 i3,
    findPlaneCorrespondence_point E sp tr kdtree lastSurface num pt
    = Ok (i1, i2, i3)
    /\ ((0 <= i3)%Z ->
        exists p1 p3,
          (0 <= i1 < Z.of_nat (length lastSurface))%Z
          /\ (i3 < Z.of_nat (length lastSurface))%Z
          /\ at_index lastSurface i1 = Ok p1
          /\ at_index lastSurface i3 = Ok p3
          /\ inRingWindow (scanIdOf p1) (scanIdOf p3)
          /\ (calcSquaredDiff E p3 (transformToStart E sp tr pt) <? f_25_0)
             = true)
    /\ ((0 <= i2)%Z ->
        exists p1 p2,
          (0 <= i1 < Z.of_nat (length lastSurface))%Z
          /\ (i2 < Z.of_nat (length lastSurface))%Z
          /\ at_index lastSurface i1 = Ok p1
          /\ at_index lastSurface i2 = Ok p2
          /\ i2 <> i1
          /\ (calcSquaredDiff E p2 (transformToStart E sp tr pt) <? f_25_0)
             = true
          /\ ((i1 < i2 /\ scanIdOf p2 <= scanIdOf p1)%Z
              \/ (i2 < i1 /\ scanIdOf p1 <= scanIdOf p2)%Z)
          /\ (sortedByRing lastSurface -> scanIdOf p2 = scanIdOf p1))
    /\ ((i2 < 0)%Z -> i2 = (-1)%Z)
    /\ ((i3 < 0)%Z -> i3 = (-1)%Z).
Proof.
  intros Hkd Hnum Hrings.
  destruct (@findPlaneCorrespondence_point_returns E sp tr kdtree lastSurface
              num pt Hkd Hnum) as [[[i1 i2] i3] Hrun].
  exists i1, i2, i3. split; [exact Hrun|].
  destruct (@plane_result_rings sp tr kdtree lastSurface num pt i1 i2 i3
              Hrun Hrings) as [Hthird Hsecond].
  split; [|split; [|split]].
  - intros Hpos.
    destruct (Hthird Hpos) as [p1 [p3 [H1 [H3 [Hw H25]]]]].
    exists p1, p3.
    split; [exact (proj1 (@at_index_Ok _ _ _ _ H1))|].
    split; [exact (proj2 (proj1 (@at_index_Ok _ _ _ _ H3)))|].
    auto.
  - intros Hpos.
    destruct (Hsecond Hpos) as [p1 [p2 [H1 [H2 Hrest]]]].
    exists p1, p2.
    split; [exact (proj1 (@at_index_Ok _ _ _ _ H1))|].
    split; [exact (proj2 (proj1 (@at_index_Ok _ _ _ _ H2)))|].
    auto.
  - intros Hneg.
    apply findPlaneCorrespondence_point_sound in Hrun
      as [[_ [Hm _]]|[_ [[Hm|[p H]] _]]]; cbn [fst] in *;
      [exact Hm|exact Hm|].
    apply at_index_Ok in H as [H _]. lia.
  - intros Hneg.
    apply findPlaneCorrespondence_point_sound in Hrun
      as [[_ [_ Hm]]|[_ [_ [Hm|[p H]]]]]; cbn [fst] in *;
      [exact Hm|exact Hm|].
    apply at_index_Ok in H as [H _]. lia.
Qed.

End Rings.

(** Over the ridge's eighteen corner points in three rings, searched with
    the bound the full cloud gives, the sharp point of the middle ring is
    paired with point 8 of its own ring and point 14 of the ring above. *)
Lemma corner_pair_in_ring_window_witness :
  exists p1 p2,
    findCornerCorrespondence_point Examples.R f_0_1 Transform_zero
      Examples.threeRings Examples.threeRings 18 (Examples.pt 2 0 2 1)
    = Ok (8, 14)%Z
    /\ at_index Examples.threeRings 8 = Ok p1
    /\ at_index Examples.threeRings 14 = Ok p2
    /\ scanIdOf p1 = 1%Z /\ scanIdOf p2 = 2%Z
    /\ inRingWindow (scanIdOf p1) (scanIdOf p2).
Proof.
  destruct (@corner_pair_in_ring_window Examples.R f_0_1 Transform_zero
              Examples.threeRings Examples.threeRings 18
              (Examples.pt 2 0 2 1))
    as [i1 [i2 [Hrun Hpair]]].
  - apply reference_answersWithin.
  - vm_compute. lia.
  - apply lidarRingsb_spec. vm_compute. reflexivity.
  - assert (Hval : findCornerCorrespondence_point Examples.R f_0_1
                     Transform_zero Examples.threeRings Examples.threeRings 18
                     (Examples.pt 2 0 2 1) = Ok (8, 14)%Z)
      by (vm_compute; reflexivity).
    rewrite Hval in Hrun. injection Hrun as <- <-.
    destruct Hpair as [Hm|[p1 [p2 [_ [_ [H1 [H2 [Hw _]]]]]]]];
      [discriminate Hm|].
    exists p1, p2. split; [exact Hval|]. split; [exact H1|].
    split; [exact H2|].
    vm_compute in H1. injection H1 as <-.
    vm_compute in H2. injection H2 as <-.
    split; [vm_compute; reflexivity|]. split; [vm_compute; reflexivity|].
    exact Hw.
Defined.

(** Over the floor patch, which is in ring order, the query above the last
    point gets that point, its neighbour on the same ring and the point of
    the ring below. *)
Lemma plane_triple_rings_witness :
  exists p1 p2 p3,
    findPlaneCorrespondence_point Examples.R f_0_1 Transform_zero
      Sweeps.floorPatch Sweeps.floorPatch 3 (Examples.pt 0 0 0 1)
    = Ok (2, 1, 0)%Z
    /\ at_index Sweeps.floorPatch 2 = Ok p1
    /\ at_index Sweeps.floorPatch 1 = Ok p2
    /\ at_index Sweeps.floorPatch 0 = Ok p3
    /\ scanIdOf p2 = scanIdOf p1
    /\ inRingWindow (scanIdOf p1) (scanIdOf p3).
Proof.
  destruct (@plane_triple_rings Examples.R f_0_1 Transform_zero
              Sweeps.floorPatch Sweeps.floorPatch 3 (Examples.pt 0 0 0 1))
    as [i1 [i2 [i3 [Hrun [Hthird [Hsecond _]]]]]].
  - apply reference_answersWithin.
  - vm_compute. lia.
  - apply lidarRingsb_spec. vm_compute. reflexivity.
  - assert (Hval : findPlaneCorrespondence_point Examples.R f_0_1
                     Transform_zero Sweeps.floorPatch Sweeps.floorPatch 3
                     (Examples.pt 0 0 0 1) = Ok (2, 1, 0)%Z)
      by (vm_compute; reflexivity).
    rewrite Hval in Hrun. injection Hrun as <- <- <-.
    destruct Hthird as [p1 [p3 [_ [_ [H1 [H3 [Hw _]]]]]]]; [lia|].
    destruct Hsecond as [p1' [p2 [_ [_ [H1' [H2 [_ [_ [_ Hsame]]]]]]]]];
      [lia|].
    rewrite H1 in H1'. injection H1' as <-.
    exists p1, p2, p3.
    split; [exact Hval|]. split; [exact H1|]. split; [exact H2|].
    split; [exact H3|]. split; [|exact Hw].
    apply Hsame. apply ringsAscend_sorted. vm_compute. reflexivity.
Defined.

(** ** The degeneracy check as a whole *)

Section Degeneracy.

Variable E : Externals.

Local Open Scope f32_scope.

(** X12.  [checkDegeneration] always returns.  With [matE] the eigenvalues
    and [matV] the eigenvectors the solver gave for the matrix: the flag it
    returns says whether the first eigenvalue is below 10, whatever the
    others are, and a NaN first eigenvalue is not below 10; the projection is
    the inverse of [matV] times a copy of [matV] in which row [r] is zero
    when the eigenvalues 0 to [r] are all below 10 and is the row of [matV]
    as soon as one of them is not - an eigenvalue below 10 that comes after
    one that is not zeroes nothing. *)
Theorem checkDegeneration_zeroes_leading_rows (hessianMat : Matrix6f) :
  let matE := fst (selfAdjointEigenSolver E hessianMat) in
  let matV := snd (selfAdjointEigenSolver E hessianMat) in
  exists matV2,
    checkDegeneration E hessianMat
    = Ok (mul66 E (inverse6 E matV) matV2, coef matE 0 <? f_10)
    /\ (F32.isnan (coef matE 0) = true -> (coef matE 0 <? f_10) = false)
    /\ ((coef matE 0 <? f_10) = false -> matV2 = matV)
    /\ forall r, (r < 6)%nat ->
         ((forall j, (j <= r)%nat -> (coef matE j <? f_10) = true) ->
          nth r matV2 [] = map (fun _ => F32.zero) (nth r matV []))
         /\ ((exists j, (j <= r)%nat /\ (coef matE j <? f_10) = false) ->
             nth r matV2 [] = nth r matV []).
Proof.
  intros matE matV. rewrite checkDegeneration_spec.
  unfold matE, matV.
  destruct (selfAdjointEigenSolver E hessianMat) as [mE mV]. cbn [fst snd].
  exists (zeroFirstRows (leadingBelow mE 0 6) mV).
  assert (Hflag : (0 <? leadingBelow mE 0 6)%nat = (coef mE 0 <? f_10)).
  { cbn [leadingBelow]. destruct (coef mE 0 <? f_10); reflexivity. }
  split; [rewrite Hflag; reflexivity|].
  split; [|split].
  - destruct (coef mE 0) as [s|s| |s m e]; try discriminate. reflexivity.
  - intros H0. cbn [leadingBelow]. rewrite H0. reflexivity.
  - intros r Hr. rewrite zeroFirstRows_row.
    pose proof (leadingBelow_lt mE 6 0 r) as Hlt. cbn [Nat.add] in Hlt.
    split.
    + intros Hall.
      assert (r < leadingBelow mE 0 6)%nat as Hin
        by (apply Hlt; split; assumption).
      apply Nat.ltb_lt in Hin. rewrite Hin. reflexivity.
    + intros [j [Hj Hnot]].
      destruct (r <? leadingBelow mE 0 6)%nat eqn:Hin; [|reflexivity].
      apply Nat.ltb_lt in Hin. apply Hlt in Hin as [_ Hall].
      rewrite (Hall j Hj) in Hnot. discriminate Hnot.
Qed.

End Degeneracy.

(** ** Leaving the loop early *)

Lemma unbounded_add_l (a y : spec_float) :
  unbounded a = true -> unbounded (F64.add a y) = true.
Proof.
  destruct a as [s|[|]| |s m e]; try discriminate; intros _;
    destruct y as [s'|[|]| |s' m' e']; reflexivity.
Qed.

Lemma unbounded_add_r (a y : spec_float) :
  unbounded a = true -> unbounded (F64.add y a) = true.
Proof.
  destruct a as [s|[|]| |s m e]; try discriminate; intros _;
    destruct y as [s'|[|]| |s' m' e']; reflexivity.
Qed.

Lemma unbounded_sqrt (a : spec_float) :
  unbounded a = true -> unbounded (F64.sqrt a) = true.
Proof. destruct a as [s|[|]| |s m e]; try discriminate; reflexivity. Qed.

Lemma unbounded_to_float (a : spec_float) :
  unbounded a = true -> unbounded (F64.to_float a) = true.
Proof. destruct a as [s|[|]| |s m e]; try discriminate; reflexivity. Qed.

Lemma unbounded_ltb (a t : float) :
  unbounded a = true -> F32.ltb a t = false.
Proof.
  destruct a as [s|[|]| |s m e]; try discriminate; intros _;
    destruct t as [s'|[|]| |s' m' e']; reflexivity.
Qed.

(** The square of a centimetre count that is not finite. *)
Lemma unbounded_pow2_scaled (x : float) :
  F32.isfinite x = false -> unbounded (pow2 (F32.mul x f_100)) = true.
Proof.
  destruct x as [s|[|]| |s m e]; try discriminate; intros _;
    vm_compute; reflexivity.
Qed.

(** A translation increment with a component that is not finite has no
    length below any threshold. *)
Lemma deltaT_of_nonfinite (matX : Vector6f) (t : float) :
  F32.isfinite (coef matX 3) = false
  \/ F32.isfinite (coef matX 4) = false
  \/ F32.isfinite (coef matX 5) = false ->
  F32.ltb (deltaT_of matX) t = false.
Proof.
  intros H. apply unbounded_ltb. unfold deltaT_of.
  apply unbounded_to_float, unbounded_sqrt.
  destruct H as [H|[H|H]]; apply unbounded_pow2_scaled in H.
  - apply unbounded_add_l, unbounded_add_l. exact H.
  - apply unbounded_add_l, unbounded_add_r. exact H.
  - apply unbounded_add_r. exact H.
Qed.

Section Convergence.

Variable E : Externals.

Local Open Scope f32_scope.

(** X14.  An iteration ends the loop of [performOptimization] early only
    with an increment whose rotation and translation lengths are both below
    their thresholds, and then the three translation components of the
    increment are finite: an increment with a NaN or infinite translation
    component never passes for convergence, whatever the thresholds are.
    The transform left by the iteration is the previous one plus that
    increment, with the components that are not finite reset, and the two
    degeneracy locals left are the ones the increment was projected with. *)
Theorem early_exit_needs_finite_translation
    (iterCount : Z) (st st' : SolverState) :
  solveAndUpdate E iterCount st = Ok (Break st') ->
  let matX := projected E (isDegenerate st') (matP st')
                (rawSolution E (engine st)) in
  (deltaR_of E matX <? deltaRAbort (engine st)) = true
  /\ (deltaT_of matX <? deltaTAbort (engine st)) = true
  /\ F32.isfinite (coef matX 3) = true
  /\ F32.isfinite (coef matX 4) = true
  /\ F32.isfinite (coef matX 5) = true
  /\ transform (engine st')
     = resetNonFinite (applyIncrement E (transform (engine st)) matX).
Proof.
  unfold solveAndUpdate.
  destruct (degeneracyStep E iterCount st) as [[isDeg P]|]; simpl;
    [|discriminate].
  match goal with
  | |- (if ?c then _ else _) = _ -> _ => destruct c eqn:Hc
  end; [|discriminate].
  intros H. injection H as <-. cbn [isDegenerate matP engine].
  apply andb_prop in Hc as [HR HT].
  split; [exact HR|]. split; [exact HT|].
  set (matX := projected E isDeg P (rawSolution E (engine st))) in *.
  assert (Hfin : forall i, (i = 3 \/ i = 4 \/ i = 5)%nat ->
                           F32.isfinite (coef matX i) = true).
  { intros i Hi. destruct (F32.isfinite (coef matX i)) eqn:Hf; [reflexivity|].
    rewrite deltaT_of_nonfinite in HT; [discriminate HT|].
    destruct Hi as [-> | [-> | ->]]; auto. }
  split; [apply Hfin; auto|]. split; [apply Hfin; auto|].
  split; [apply Hfin; auto|]. reflexivity.
Qed.

End Convergence.

(** Ten selected points without residual give a zero increment, and the
    iteration leaves the loop. *)
Lemma early_exit_needs_finite_translation_witness :
  exists st',
    solveAndUpdate Examples.R 1 Sweeps.settled = Ok (Break st')
    /\ F32.isfinite
         (coef (projected Examples.R (isDegenerate st') (matP st')
                  (rawSolution Examples.R (engine Sweeps.settled))) 3) = true
    /\ transform (engine st') = Transform_zero.
Proof.
  destruct (solveAndUpdate Examples.R 1 Sweeps.settled) as [[s|st']|] eqn:Hrun;
    [vm_compute in Hrun; discriminate Hrun| |vm_compute in Hrun; discriminate Hrun].
  exists st'. split; [reflexivity|].
  destruct (@early_exit_needs_finite_translation Examples.R 1 Sweeps.settled
              st' Hrun) as [_ [_ [H3 [_ [_ _]]]]].
  split; [exact H3|].
  vm_compute in Hrun. injection Hrun as <-. reflexivity.
Defined.
